(** * Yak client transport: connection lifecycle and wire framing

    A shallow embedding of [src/c/yak.c] (declarations in [src/c/yak.h])
    and of the command-line client [src/c/yak-client.c].

    - A C [long] is a [Z] with its 64-bit two's complement wrap-around
      written out ([wrap_long]); [int] values (descriptors, ports, status
      codes) are [Z]s on which the code does no arithmetic.
    - A C [char] is a [Byte.byte]; [Z_of_char] and [char_of_Z] are the
      integer promotions and conversions of a platform with signed [char].
    - A pointer that the code tests against [NULL] is an [option].
    - The operating system is an explicit [world] threaded through every
      function: the bytes the peer will deliver and how the socket chops
      them, how the socket accepts outgoing bytes, the bytes put on the
      wire so far, [errno], scripts for the results of [close],
      [malloc]/[strdup], [socket] and [connect], a resolver standing for
      [getaddrinfo], and the trace of connection-management calls. *)

From Stdlib Require Import ZArith Lia List String Bool.
From Stdlib Require Import Strings.Byte.
From stdpp Require Import base list.

Local Open Scope Z_scope.

(** ** Error numbers of [<errno.h>] (Linux values) *)

Module Errno.
Definition EIO : Z := 5.
Definition EBADF : Z := 9.
Definition ENOMEM : Z := 12.
Definition EACCES : Z := 13.
Definition EFAULT : Z := 14.
Definition EINVAL : Z := 22.
Definition EBADMSG : Z := 74.
Definition EOVERFLOW : Z := 75.
Definition EMSGSIZE : Z := 90.
Definition ECONNRESET : Z := 104.
End Errno.
Import Errno.

(** ** Machine integers and characters *)

Definition LONG_MAX : Z := 2 ^ 63 - 1.
Definition LONG_MIN : Z := - 2 ^ 63.

(** Result of a [long] operation whose mathematical value is [z]. *)
Definition wrap_long (z : Z) : Z := (z + 2 ^ 63) mod 2 ^ 64 - 2 ^ 63.

(** Promotion of a [char] to [int]. *)
Definition Z_of_char (c : byte) : Z :=
  let n := Z.of_N (Byte.to_N c) in
  if n <? 128 then n else n - 256.

(** Conversion of an [int] to [char]. *)
Definition char_of_Z (z : Z) : byte :=
  match Byte.of_N (Z.to_N (z mod 256)) with
  | Some b => b
  | None => "000"%byte
  end.

Definition char_colon : byte := ":"%byte.
Definition char_newline : byte := "010"%byte.
Definition char_zero : byte := "0"%byte.
Definition char_nine : byte := "9"%byte.
Definition char_minus : byte := "-"%byte.
Definition char_nul : byte := "000"%byte.

Definition char_eqb (a b : byte) : bool := Z_of_char a =? Z_of_char b.

(** [(c >= '0') && (c <= '9')] *)
Definition is_digit (c : byte) : bool :=
  (Z_of_char c >=? Z_of_char char_zero) && (Z_of_char c <=? Z_of_char char_nine).

(** The first [n] elements of [l], and the rest, for a [long] count. *)
Fixpoint takeZ {A} (n : Z) (l : list A) : list A :=
  match l with
  | [] => []
  | x :: l' => if n <=? 0 then [] else x :: takeZ (n - 1) l'
  end.

Fixpoint dropZ {A} (n : Z) (l : list A) : list A :=
  match l with
  | [] => []
  | x :: l' => if n <=? 0 then l else dropZ (n - 1) l'
  end.

Definition lengthZ {A} (l : list A) : Z := Z.of_nat (length l).

(** ** The operating system seen by the client *)

(** One candidate address returned by [getaddrinfo]. *)
Record addrinfo := {
  ai_family : Z;
  ai_socktype : Z;
  ai_protocol : Z;
  ai_addr : string;
  ai_canonname : string
}.

(** What one call of [recv] on the connected socket does: deliver at most
    [k] of the pending bytes, or fail with an error number. *)
Inductive rx_event :=
| RxGive (k : positive)
| RxFail (e : Z).

(** What one call of [send] does: accept at most [k] bytes, accept none
    (return 0), or fail. *)
Inductive tx_event :=
| TxTake (k : positive)
| TxStall
| TxFail (e : Z).

(** Connection-management calls, in the order they were made. *)
Inductive syscall :=
| SysGetaddrinfo (host service : string) (passive : bool)
| SysSocket (ai : addrinfo)
| SysConnect (fd : Z) (ai : addrinfo)
| SysClose (fd : Z)
| SysStderr (canonname : string).

Record world := {
  w_errno : Z;
  (* incoming direction: bytes the peer sends before it closes *)
  w_rx_data : list byte;
  w_rx_sched : list rx_event;
  (* outgoing direction *)
  w_tx_sched : list tx_event;
  w_wire : list byte;
  (* results of the coming calls; an exhausted script means success for
     [close], [malloc] and [strdup], failure for [socket] and [connect] *)
  w_close : list Z;        (* 0, or the error number of a failing close *)
  w_alloc : list Z;        (* 0, or the error number of a failing allocation *)
  w_socket : list Z;       (* descriptor, or -1 *)
  w_connect : list Z;      (* 0 or -1 *)
  w_resolve : string -> string -> bool -> option (list addrinfo);
  w_trace : list syscall
}.

Definition set_errno (e : Z) (w : world) : world :=
  {| w_errno := e; w_rx_data := w_rx_data w; w_rx_sched := w_rx_sched w;
     w_tx_sched := w_tx_sched w; w_wire := w_wire w; w_close := w_close w;
     w_alloc := w_alloc w; w_socket := w_socket w; w_connect := w_connect w;
     w_resolve := w_resolve w; w_trace := w_trace w |}.

Definition set_rx (d : list byte) (s : list rx_event) (w : world) : world :=
  {| w_errno := w_errno w; w_rx_data := d; w_rx_sched := s;
     w_tx_sched := w_tx_sched w; w_wire := w_wire w; w_close := w_close w;
     w_alloc := w_alloc w; w_socket := w_socket w; w_connect := w_connect w;
     w_resolve := w_resolve w; w_trace := w_trace w |}.

Definition set_tx (s : list tx_event) (wire : list byte) (w : world) : world :=
  {| w_errno := w_errno w; w_rx_data := w_rx_data w; w_rx_sched := w_rx_sched w;
     w_tx_sched := s; w_wire := wire; w_close := w_close w;
     w_alloc := w_alloc w; w_socket := w_socket w; w_connect := w_connect w;
     w_resolve := w_resolve w; w_trace := w_trace w |}.

Definition set_close (s : list Z) (w : world) : world :=
  {| w_errno := w_errno w; w_rx_data := w_rx_data w; w_rx_sched := w_rx_sched w;
     w_tx_sched := w_tx_sched w; w_wire := w_wire w; w_close := s;
     w_alloc := w_alloc w; w_socket := w_socket w; w_connect := w_connect w;
     w_resolve := w_resolve w; w_trace := w_trace w |}.

Definition set_alloc (s : list Z) (w : world) : world :=
  {| w_errno := w_errno w; w_rx_data := w_rx_data w; w_rx_sched := w_rx_sched w;
     w_tx_sched := w_tx_sched w; w_wire := w_wire w; w_close := w_close w;
     w_alloc := s; w_socket := w_socket w; w_connect := w_connect w;
     w_resolve := w_resolve w; w_trace := w_trace w |}.

Definition set_socket (s : list Z) (w : world) : world :=
  {| w_errno := w_errno w; w_rx_data := w_rx_data w; w_rx_sched := w_rx_sched w;
     w_tx_sched := w_tx_sched w; w_wire := w_wire w; w_close := w_close w;
     w_alloc := w_alloc w; w_socket := s; w_connect := w_connect w;
     w_resolve := w_resolve w; w_trace := w_trace w |}.

Definition set_connect (s : list Z) (w : world) : world :=
  {| w_errno := w_errno w; w_rx_data := w_rx_data w; w_rx_sched := w_rx_sched w;
     w_tx_sched := w_tx_sched w; w_wire := w_wire w; w_close := w_close w;
     w_alloc := w_alloc w; w_socket := w_socket w; w_connect := s;
     w_resolve := w_resolve w; w_trace := w_trace w |}.

Definition log (c : syscall) (w : world) : world :=
  {| w_errno := w_errno w; w_rx_data := w_rx_data w; w_rx_sched := w_rx_sched w;
     w_tx_sched := w_tx_sched w; w_wire := w_wire w; w_close := w_close w;
     w_alloc := w_alloc w; w_socket := w_socket w; w_connect := w_connect w;
     w_resolve := w_resolve w; w_trace := w_trace w ++ [c] |}.

(** [recv(sock, ptr, len, 0)]: the count returned, the bytes stored at
    [ptr], and the world afterwards.  With nothing left to deliver the
    call returns 0: the peer has closed. *)
Definition sys_recv (w : world) (len : Z) : Z * list byte * world :=
  let deliver (m : Z) (sch : list rx_event) :=
    let bs := takeZ m (w_rx_data w) in
    (lengthZ bs, bs, set_rx (dropZ m (w_rx_data w)) sch w) in
  match w_rx_sched w with
  | RxFail e :: sch => (-1, [], set_errno e (set_rx (w_rx_data w) sch w))
  | RxGive k :: sch => deliver (Z.min len (Z.pos k)) sch
  | [] => deliver len []
  end.

(** [send(sock, ptr, len, 0)] with [data] the bytes at [ptr]. *)
Definition sys_send (w : world) (data : list byte) (len : Z) : Z * world :=
  let accept (m : Z) (sch : list tx_event) :=
    let bs := takeZ m data in
    (lengthZ bs, set_tx sch (w_wire w ++ bs) w) in
  match w_tx_sched w with
  | TxFail e :: sch => (-1, set_errno e (set_tx sch (w_wire w) w))
  | TxStall :: sch => (0, set_tx sch (w_wire w) w)
  | TxTake k :: sch => accept (Z.min len (Z.pos k)) sch
  | [] => accept len []
  end.

(** [close(fd)]: 0, or -1 with [errno] set. *)
Definition sys_close (w : world) (fd : Z) : Z * world :=
  let w := log (SysClose fd) w in
  match w_close w with
  | [] => (0, w)
  | e :: s => if e =? 0 then (0, set_close s w)
              else (-1, set_errno e (set_close s w))
  end.

(** [malloc] and [strdup]: [true] when memory was obtained. *)
Definition sys_alloc (w : world) : bool * world :=
  match w_alloc w with
  | [] => (true, w)
  | e :: s => if e =? 0 then (true, set_alloc s w)
              else (false, set_errno e (set_alloc s w))
  end.

Definition sys_socket (w : world) (ai : addrinfo) : Z * world :=
  let w := log (SysSocket ai) w in
  match w_socket w with
  | [] => (-1, w)
  | fd :: s => (fd, set_socket s w)
  end.

Definition sys_connect (w : world) (fd : Z) (ai : addrinfo) : Z * world :=
  let w := log (SysConnect fd ai) w in
  match w_connect w with
  | [] => (-1, w)
  | r :: s => (r, set_connect s w)
  end.

(** [getaddrinfo(host, service, &hints, &list)]: [None] when it returns
    nonzero.  What this call, [socket] and [connect] leave in [errno] is
    not modelled: the world keeps the value it had, and no property below
    speaks of [errno] after one of them. *)
Definition sys_getaddrinfo (w : world) (host service : string) (passive : bool)
  : option (list addrinfo) * world :=
  (w_resolve w host service passive, log (SysGetaddrinfo host service passive) w).

(** ** Connections ([yak.h]) *)

Record yak_connection := {
  peer : option string;
  sock : Z;
  port : Z
}.

(** [YAK_CONNECTION_INITIALIZER] *)
Definition closed_connection : yak_connection :=
  {| peer := None; sock := -1; port := 0 |}.

(** Assignments to one member. *)
Definition with_peer (p : option string) (c : yak_connection) : yak_connection :=
  {| peer := p; sock := sock c; port := port c |}.
Definition with_sock (s : Z) (c : yak_connection) : yak_connection :=
  {| peer := peer c; sock := s; port := port c |}.
Definition with_port (n : Z) (c : yak_connection) : yak_connection :=
  {| peer := peer c; sock := sock c; port := n |}.

Definition get_errno (w : world) (def : Z) : Z :=
  let val := w_errno w in
  if val =? 0 then def else val.

Definition yak_is_open (conn : option yak_connection) : Z :=
  match conn with
  | None => 0
  | Some c => if sock c >=? 0 then 1 else 0
  end.

Definition yak_init (conn : option yak_connection) : option yak_connection :=
  match conn with
  | None => None
  | Some _ => Some closed_connection
  end.

Definition yak_close (w : world) (conn : option yak_connection)
  : Z * option yak_connection * world :=
  let status := 0 in
  match conn with
  | None => (status, None, w)
  | Some c =>
    let '(status, c, w) :=
      if negb (sock c =? -1) then
        let '(status, w) :=
          if sock c >=? 0 then
            let '(r, w) := sys_close w (sock c) in
            if negb (r =? 0) then (w_errno w, w) else (status, w)
          else (status, w) in
        (status, with_sock (-1) c, w)
      else (status, c, w) in
    let c :=
      match peer c with
      | Some _ => with_peer None c
      | None => c
      end in
    (status, Some (with_port 0 c), w)
  end.

(** ** Integer codec: [print_integer] *)

(** [buf[i]] and [buf[i] = c] on a character array. *)
Definition char_at (buf : list byte) (i : Z) : byte :=
  default char_nul (buf !! Z.to_nat i).

Definition store (buf : list byte) (i : Z) (c : byte) : list byte :=
  <[Z.to_nat i := c]> buf.

(** [while (r > 0) { if (++i >= len) return -1; buf[i] = '0' + (r % 10);
    r /= 10; }]: the value of [i] when the loop ends, [None] for the early
    [return -1], and the buffer with the digits stored so far.  Every turn
    increments [i] and leaves when [i] reaches [len], so [len] turns are
    all the loop can make ([print_digits_fuel]). *)
Fixpoint print_digits (fuel : nat) (buf : list byte) (len i r : Z)
  : option Z * list byte :=
  if r >? 0 then
    match fuel with
    | O => (None, buf)
    | S fuel =>
      let i := i + 1 in
      if i >=? len then (None, buf)
      else
        let buf := store buf i (char_of_Z (Z_of_char char_zero + Z.rem r 10)) in
        print_digits fuel buf len i (Z.quot r 10)
    end
  else (Some i, buf).

(** [while (j < i) { c = buf[i]; buf[i] = buf[j]; buf[j] = c; ++j; --i; }] *)
Fixpoint reverse_digits (fuel : nat) (buf : list byte) (j i : Z) : list byte :=
  match fuel with
  | O => buf
  | S fuel =>
    if j <? i then
      let c := char_at buf i in
      let buf := store buf i (char_at buf j) in
      let buf := store buf j c in
      reverse_digits fuel buf (j + 1) (i - 1)
    else buf
  end.

(** Returns the length written, or -1, and the buffer afterwards. *)
Definition print_integer (buf : list byte) (len val : Z) : Z * list byte :=
  let start : option (list byte * Z * Z) :=
    if val >=? 0 then
      if len <? 2 then None
      else
        let buf := store buf 0 (char_of_Z (Z_of_char char_zero + Z.rem val 10)) in
        Some (buf, 0, Z.quot val 10)
    else
      if len <? 3 then None
      else
        let buf := store buf 0 char_minus in
        let buf := store buf 1 (char_of_Z (Z_of_char char_zero - Z.rem val 10)) in
        Some (buf, 1, - Z.quot val 10) in
  match start with
  | None => (-1, buf)
  | Some (buf1, j, r) =>
    let i := j in
    match print_digits (Z.to_nat len) buf1 len i r with
    | (None, buf2) => (-1, buf2)
    | (Some i, buf2) =>
      let n := i + 1 in
      if n >=? len then (-1, buf2)
      else
        let buf3 := store buf2 n char_nul in
        (n, reverse_digits (Z.to_nat (i - j)) buf3 j i)
    end
  end.

(** ** Stream I/O primitives: [recv_data] and [send_data] *)

(** The loop of [recv_data]; [got] is what has been stored at [data] so
    far, so that [ptr - data] is its length.  [len] strictly decreases
    on every turn that continues, which bounds the turns by [len]. *)
Fixpoint recv_data_loop (fuel : nat) (w : world) (got : list byte) (len : Z)
  : Z * list byte * world :=
  match fuel with
  | O => (lengthZ got, got, w)
  | S fuel =>
    if len >? 0 then
      let '(n, bs, w) := sys_recv w len in
      if n <? 0 then (-1, got, w)
      else if n =? 0 then (lengthZ got, got, w)
      else recv_data_loop fuel w (got ++ bs) (len - n)
    else (lengthZ got, got, w)
  end.

Definition recv_data (w : world) (len : Z) : Z * list byte * world :=
  recv_data_loop (Z.to_nat len) w [] len.

(** The loop of [send_data]; [off] is [ptr - data]. *)
Fixpoint send_data_loop (fuel : nat) (w : world) (data : list byte) (off len : Z)
  : Z * world :=
  match fuel with
  | O => (off, w)
  | S fuel =>
    if len >? 0 then
      let '(n, w) := sys_send w (dropZ off data) len in
      if n <? 0 then (-1, w)
      else if n =? 0 then (off, w)
      else send_data_loop fuel w data (off + n) (len - n)
    else (off, w)
  end.

Definition send_data (w : world) (data : list byte) (len : Z) : Z * world :=
  send_data_loop (Z.to_nat len) w data 0 len.

(** ** Frame encoder: [yak_send_message] *)

Definition is_null {A} (p : option A) : bool :=
  match p with None => true | Some _ => false end.

(** The [error:] label shared by the send and receive functions. *)
Definition fail_and_close (status : Z) (w : world) (conn : option yak_connection)
  : Z * option yak_connection * world :=
  let '(_, conn, w) := yak_close w conn in (status, conn, w).

Definition yak_send_message (w : world) (conn : option yak_connection)
    (type : byte) (data : option (list byte)) (len : Z)
  : Z * option yak_connection * world :=
  match conn with
  | None => (EFAULT, conn, w)
  | Some c =>
    if sock c <? 0 then (EBADF, conn, w)
    else if len <? 0 then fail_and_close EINVAL w conn
    else if is_null data && (len >? 0) then fail_and_close EFAULT w conn
    else
      let header := replicate 32 char_nul in
      let header := store header 0 type in
      let header := store header 1 char_colon in
      let '(ndigits, digits) := print_integer (drop 2 header) (32 - 2) len in
      let header := take 2 header ++ digits in
      if (ndigits <? 0) || (ndigits + 3 >=? 32) then
        fail_and_close EOVERFLOW w conn
      else
        let header := store header (ndigits + 2) char_newline in
        let header := store header (ndigits + 3) char_nul in
        let '(nbytes, w) := send_data w header (ndigits + 3) in
        if negb (nbytes =? ndigits + 3) then
          fail_and_close (get_errno w (if nbytes <? 0 then EIO else ECONNRESET)) w conn
        else
          let '(failed, w) :=
            if len >? 0 then
              let '(nbytes, w) := send_data w (default [] data) len in
              if negb (nbytes =? len) then
                (Some (get_errno w (if nbytes <? 0 then EIO else ECONNRESET)), w)
              else (None, w)
            else (None, w) in
          match failed with
          | Some status => fail_and_close status w conn
          | None =>
            let '(nbytes, w) := send_data w [char_newline] 1 in
            if negb (nbytes =? 1) then
              fail_and_close (get_errno w (if nbytes <? 0 then EIO else ECONNRESET)) w conn
            else (0, conn, w)
          end
  end.

(** ** Frame decoder *)

Record message_info := {
  msg_len : Z;
  msg_type : byte
}.

Definition empty_info : message_info := {| msg_len := 0; msg_type := char_nul |}.

(** The [while (c != '\n')] loop of [recv_message_info]: the status, the
    length accumulated, and the world.  Every turn that continues takes
    one byte off the incoming stream, so the turns are bounded by the
    bytes the peer sends ([recv_message_info_loop_fuel]); the status -1
    of an exhausted counter is never produced. *)
Fixpoint recv_message_info_loop (fuel : nat) (w : world) (len : Z) (c : byte)
  : Z * Z * world :=
  if char_eqb c char_newline then (0, len, w)
  else
    match fuel with
    | O => (-1, len, w)
    | S fuel =>
      if is_digit c then
        let prev := len in
        let len := wrap_long ((Z_of_char c - Z_of_char char_zero) + wrap_long (10 * len)) in
        if len <? prev then (EOVERFLOW, len, w)
        else
          let '(nbytes, buf, w) := recv_data w 1 in
          if negb (nbytes =? 1) then
            (if nbytes <? 0 then get_errno w EIO else EBADMSG, len, w)
          else recv_message_info_loop fuel w len (char_at buf 0)
      else (EBADMSG, len, w)
    end.

Definition recv_message_info (w : world) : Z * message_info * world :=
  let '(nbytes, buf, w) := recv_data w 4 in
  if negb (nbytes =? 4) then
    (if nbytes <? 0 then get_errno w EIO else EBADMSG, empty_info, w)
  else
    let type := char_at buf 0 in
    if negb (char_eqb (char_at buf 1) char_colon) then (EBADMSG, empty_info, w)
    else
      let c := char_at buf 2 in
      if (Z_of_char c <? Z_of_char char_zero) || (Z_of_char c >? Z_of_char char_nine) then
        (EBADMSG, empty_info, w)
      else
        let len := Z_of_char c - Z_of_char char_zero in
        let c := char_at buf 3 in
        let '(status, len, w) :=
          recv_message_info_loop (S (length (w_rx_data w))) w len c in
        if negb (status =? 0) then (status, empty_info, w)
        else (0, {| msg_len := len; msg_type := type |}, w).

(** The status, the bytes stored at [data], and the world. *)
Definition recv_message_data (w : world) (len : Z) : Z * list byte * world :=
  let '(failed, data, w) :=
    if len >? 0 then
      let '(nbytes, data, w) := recv_data w len in
      if negb (nbytes =? len) then
        (Some (if nbytes <? 0 then get_errno w EIO else EBADMSG), data, w)
      else (None, data, w)
    else (None, [], w) in
  match failed with
  | Some status => (status, data, w)
  | None =>
    let '(nbytes, buf, w) := recv_data w 1 in
    if negb (nbytes =? 1) then
      (if nbytes <? 0 then get_errno w EIO else EBADMSG, data, w)
    else if negb (char_eqb (char_at buf 0) char_newline) then (EBADMSG, data, w)
    else (0, data, w)
  end.

(** What a receive call leaves behind: the status, the connection, the
    world, and the contents of the output locations ([None] for an output
    whose pointer is [NULL]). *)
Record received (D : Type) := {
  r_status : Z;
  r_conn : option yak_connection;
  r_type : option byte;
  r_data : D;
  r_len : option Z;
  r_world : world
}.
Arguments r_status {D}.
Arguments r_conn {D}.
Arguments r_type {D}.
Arguments r_data {D}.
Arguments r_len {D}.
Arguments r_world {D}.

(** [*p = v] when [p] is not [NULL]. *)
Definition out {A} (p : bool) (v : A) : option A := if p then Some v else None.

(** Bytes stored from the start of a buffer. *)
Definition overwrite (buf bs : list byte) : list byte :=
  bs ++ drop (length bs) buf.

(** [type] and [len] say whether these pointers are non-[NULL]; [data] is
    the caller's buffer, [None] for [NULL]. *)
Definition yak_recv_message_in_buffer (w : world) (conn : option yak_connection)
    (type : bool) (data : option (list byte)) (len : bool) (maxlen : Z)
  : received (option (list byte)) :=
  let result status conn t l d w :=
    {| r_status := status; r_conn := conn; r_type := out type t;
       r_data := d; r_len := out len l; r_world := w |} in
  let error status w d :=
    let '(status, conn, w) := fail_and_close status w conn in
    result status conn char_nul 0 d w in
  match conn with
  | None => result EFAULT conn char_nul 0 data w
  | Some c =>
    if sock c <? 0 then result EBADF conn char_nul 0 data w
    else if maxlen <? 0 then error EINVAL w data
    else if is_null data && (maxlen >? 0) then error EFAULT w data
    else
      let '(status, msg, w) := recv_message_info w in
      if negb (status =? 0) then error status w data
      else if msg_len msg >? maxlen then error EMSGSIZE w data
      else
        let '(status, bs, w) := recv_message_data w (msg_len msg) in
        let data := option_map (fun buf => overwrite buf bs) data in
        if negb (status =? 0) then error status w data
        else result 0 conn (msg_type msg) (msg_len msg) data w
  end.

(** [type], [data] and [len] say whether these pointers are non-[NULL];
    [r_data] is [*data]: [None] when [data] is [NULL], [Some None] for a
    [NULL] stored there, [Some (Some bs)] for an allocated buffer. *)
Definition yak_recv_message (w : world) (conn : option yak_connection)
    (type data len : bool)
  : received (option (option (list byte))) :=
  let result status conn t l d w :=
    {| r_status := status; r_conn := conn; r_type := out type t;
       r_data := out data d; r_len := out len l; r_world := w |} in
  let error status w :=
    let '(status, conn, w) := fail_and_close status w conn in
    result status conn char_nul 0 None w in
  match conn with
  | None => result EFAULT conn char_nul 0 None w
  | Some c =>
    if negb data then result EFAULT conn char_nul 0 None w
    else if sock c <? 0 then result EBADF conn char_nul 0 None w
    else
      let '(status, msg, w) := recv_message_info w in
      if negb (status =? 0) then error status w
      else if msg_len msg >? 0 then
        let '(ok, w) := sys_alloc w in
        if negb ok then error (get_errno w ENOMEM) w
        else
          let '(status, buf, w) := recv_message_data w (msg_len msg) in
          if (status =? 0) && data then
            result 0 conn (msg_type msg) (msg_len msg) (Some buf) w
          else if negb (status =? 0) then error status w
          else result 0 conn (msg_type msg) (msg_len msg) None w
      else result 0 conn (msg_type msg) (msg_len msg) None w
  end.

(** ** Address resolution and [yak_connect] *)

(** A [struct addrinfo*] is the list it heads; [NULL] is the empty list. *)
Definition listaddrinfo (w : world) (host : option string) (port : Z) (passive : bool)
  : list addrinfo * world :=
  match host with
  | None => ([], set_errno EFAULT w)
  | Some host =>
    if (port <? 0) || (port >? 65535) then ([], set_errno EINVAL w)
    else
      let '(n, service) := print_integer (replicate 8 char_nul) 8 port in
      if n <? 0 then ([], set_errno EOVERFLOW w)
      else
        let service := string_of_list_byte (takeZ n service) in
        match sys_getaddrinfo w host service passive with
        | (None, w) => ([], w)
        | (Some list, w) => (list, w)
        end
  end.

(** The [for] loop over the candidates: the value of [conn->sock] when it
    ends, starting from the -1 set by [yak_init]. *)
Fixpoint try_candidates (w : world) (list : list addrinfo) : Z * world :=
  match list with
  | [] => (-1, w)
  | ai :: next =>
    let '(s, w) := sys_socket w ai in
    if negb (s =? -1) then
      let '(r, w) := sys_connect w s ai in
      if negb (r =? -1) then (s, w)
      else
        let '(_, w) := sys_close w s in
        try_candidates w next
    else try_candidates w next
  end.

Definition yak_connect (w : world) (conn : option yak_connection)
    (host : option string) (port : Z)
  : Z * option yak_connection * world :=
  match conn with
  | None => (EFAULT, None, w)
  | Some _ =>
    let c := closed_connection in
    let host := match host with None => "127.0.0.1"%string | Some h => h end in
    let '(list, w) := listaddrinfo w (Some host) port false in
    let w :=
      match list with
      | ai :: _ => log (SysStderr (ai_canonname ai)) w
      | [] => w
      end in
    let '(s, w) := try_candidates w list in
    let c := with_sock s c in
    if sock c =? -1 then (EACCES, Some c, w)
    else
      let '(ok, w) := sys_alloc w in
      if negb ok then
        fail_and_close (get_errno w ENOMEM) w (Some c)
      else
        (0, Some (with_port port (with_peer (Some host) c)), w)
  end.

(** ** Specification vocabulary *)

(** The number a digit stands for, and the number a digit string stands
    for, most significant digit first. *)
Definition digit_val (c : byte) : Z := Z_of_char c - Z_of_char char_zero.

Definition accumulate (a : Z) (c : byte) : Z := 10 * a + digit_val c.

Definition decimal_value (ds : list byte) : Z := fold_left accumulate ds 0.

Definition all_digits (ds : list byte) : Prop :=
  Forall (fun c => is_digit c = true) ds.

(** A decimal numeral for [n] with no leading zero, except "0" itself. *)
Definition canonical_decimal (ds : list byte) (n : Z) : Prop :=
  all_digits ds /\ decimal_value ds = n /\
  (ds = [char_zero] \/ exists d ds', ds = d :: ds' /\ d <> char_zero).

(** The digits of [r], least significant first, at most [fuel] of them,
    and the decimal numeral of a non-negative [val]. *)
Fixpoint digits_lsd (fuel : nat) (r : Z) : list byte :=
  match fuel with
  | O => []
  | S fuel =>
    if r >? 0 then
      char_of_Z (Z_of_char char_zero + Z.rem r 10) :: digits_lsd fuel (Z.quot r 10)
    else []
  end.

Definition decimal (val : Z) : list byte :=
  rev (char_of_Z (Z_of_char char_zero + Z.rem val 10)
         :: digits_lsd (Z.to_nat (Z.log2 val)) (Z.quot val 10)).

(** The number a digit string stands for, least significant digit first. *)
Definition lsd_value (ds : list byte) : Z :=
  fold_right (fun c a => digit_val c + 10 * a) 0 ds.

(** The digits [yak_send_message] puts in a header for length [n]. *)
Definition header_digits (n : Z) : list byte :=
  let '(ndigits, buf) := print_integer (replicate 30 char_nul) 30 n in
  takeZ ndigits buf.

(** The frame of a message: [T ':' <decimal L> '\n' <P> '\n']. *)
Definition frame (type : byte) (ds payload : list byte) : list byte :=
  type :: char_colon :: ds ++ char_newline :: payload ++ [char_newline].

(** The header alone, for a digit string [ds]. *)
Definition header (type : byte) (ds : list byte) : list byte :=
  type :: char_colon :: ds ++ [char_newline].

(** No transport fault: every [recv] delivers, every [send] accepts. *)
Definition rx_ok (e : rx_event) : bool :=
  match e with RxGive _ => true | RxFail _ => false end.

Definition tx_ok (e : tx_event) : bool :=
  match e with TxTake _ => true | _ => false end.

Definition rx_reliable (w : world) : Prop := forallb rx_ok (w_rx_sched w) = true.
Definition tx_reliable (w : world) : Prop := forallb tx_ok (w_tx_sched w) = true.

(** The next allocation succeeds. *)
Definition alloc_ok (w : world) : Prop := hd 0 (w_alloc w) = 0.


(** The connection-management calls made so far are never forgotten. *)
Definition extends (w w' : world) : Prop :=
  exists tr, w_trace w' = w_trace w ++ tr.


(** The descriptors passed to [connect], and those passed to [close], in
    a trace.  [connect] is called on every descriptor [socket] returns. *)
Definition connect_fds (tr : list syscall) : list Z :=
  omap (fun e => match e with SysConnect fd _ => Some fd | _ => None end) tr.

Definition close_fds (tr : list syscall) : list Z :=
  omap (fun e => match e with SysClose fd => Some fd | _ => None end) tr.

(** [socket] returns a descriptor or -1. *)
Definition sockets_valid (w : world) : Prop :=
  Forall (fun fd => -1 <= fd) (w_socket w).

(** The host [yak_connect] resolves. *)
Definition host_or_loopback (host : option string) : string :=
  match host with None => "127.0.0.1"%string | Some h => h end.

(** A world for examples: nothing pending, every call succeeds at once. *)
Definition quiet_world : world :=
  {| w_errno := 0; w_rx_data := []; w_rx_sched := []; w_tx_sched := [];
     w_wire := []; w_close := []; w_alloc := []; w_socket := [];
     w_connect := []; w_resolve := fun _ _ _ => None; w_trace := [] |}.

Definition open_connection : yak_connection :=
  {| peer := Some "localhost"%string; sock := 3; port := 4000 |}.

Definition ascii (s : string) : list byte := list_byte_of_string s.

(** ** The command-line client ([yak-client.c])

    The strings of [argv] are [string]s, as the host names are; a line
    read from the terminal, which is sent as the data of a message, is the
    list of its characters before the terminating NUL. *)

(** The terminal of the client: what [main] has written to [stdout] and
    to [stderr], and the lines given to [add_history].  What [readline]
    itself draws, the prompt and the echo of the keys, is not recorded. *)
Record console := {
  c_stdout : list byte;
  c_stderr : list byte;
  c_history : list (list byte)
}.

Definition to_stdout (bs : list byte) (con : console) : console :=
  {| c_stdout := c_stdout con ++ bs; c_stderr := c_stderr con;
     c_history := c_history con |}.

Definition to_stderr (bs : list byte) (con : console) : console :=
  {| c_stdout := c_stdout con; c_stderr := c_stderr con ++ bs;
     c_history := c_history con |}.

Definition add_history (line : list byte) (con : console) : console :=
  {| c_stdout := c_stdout con; c_stderr := c_stderr con;
     c_history := c_history con ++ [line] |}.

Definition char_quote : byte := "034"%byte.
Definition char_escape : byte := "027"%byte.
Definition char_E : byte := "E"%byte.
Definition char_X : byte := "X"%byte.

Definition RED : list byte := char_escape :: ascii "[31m".
Definition CYAN : list byte := char_escape :: ascii "[36m".
Definition RESET : list byte := char_escape :: ascii "[0m".

(** The conversion [%d] of [fprintf]. *)
Definition format_int (n : Z) : list byte :=
  if n <? 0 then char_minus :: decimal (- n) else decimal n.

(** [argv[i]], and [s[0]] for a string. *)
Definition arg (argv : list string) (i : Z) : string :=
  default EmptyString (argv !! Z.to_nat i).

Definition first_char (s : string) : byte :=
  char_at (ascii s) 0.

Definition strlen (s : list byte) : Z := lengthZ s.

(** The two lines written for [--help]. *)
Definition usage (prog : string) : list byte :=
  (ascii "Syntax: " ++ ascii prog ++ ascii " [-h|--help] [--] [HOST] PORT"
     ++ [char_newline])
  ++ (ascii "Connect to service PORT on HOST machine (" ++ [char_quote]
        ++ ascii "localhost" ++ [char_quote] ++ ascii " if not specified)."
        ++ [char_newline]).

(** How the option loop ends: [main] returns, or goes on with [i1]. *)
Inductive parsed :=
| Exit (code : Z) (con : console)
| Positional (i1 : Z).

(** The [while (i1 < argc)] loop of [main].  Every path through its body
    leaves the loop, by [break] or [return]: the body runs at most once
    and the [++i1] that ends it is never reached. *)
Definition parse_options (argv : list string) (con : console) : parsed :=
  let argc := lengthZ argv in
  let i1 := 1 in
  if i1 <? argc then
    if String.eqb (arg argv i1) "--" then Positional (i1 + 1)
    else if String.eqb (arg argv i1) "--help" || String.eqb (arg argv i1) "-h" then
      Exit 0 (to_stdout (usage (arg argv 0)) con)
    else if char_eqb (first_char (arg argv i1)) char_minus then
      Exit 1 (to_stderr (ascii (arg argv 0) ++ ascii ": unknown option " ++ [char_quote]
                           ++ ascii (arg argv i1) ++ [char_quote; char_newline]) con)
    else Positional i1
  else Positional i1.

(** [for (long i = 0; i < len; ++i) fputc(buf[i], stdout);] *)
Fixpoint put_chars (fuel : nat) (buf : list byte) (i len : Z) (con : console)
  : console :=
  match fuel with
  | O => con
  | S fuel =>
    if i <? len then put_chars fuel buf (i + 1) len (to_stdout [char_at buf i] con)
    else con
  end.

(** The [while (1)] loop of [main], one turn for each line [readline]
    returns; [lines] are the lines typed before the end of input, where
    [readline] returns [NULL].  The first component is the value [main]
    returns from inside the loop, [None] when the loop ends by [break]. *)
Fixpoint main_loop (prog : string) (lines : list (list byte)) (w : world)
    (conn : option yak_connection) (con : console)
  : option Z * option yak_connection * world * console :=
  match lines with
  | [] => (None, conn, w, con)
  | line :: lines =>
    let len := strlen line in
    let con := if len >? 0 then add_history line con else con in
    let '(status, conn, w) := yak_send_message w conn char_X (Some line) len in
    if negb (status =? 0) then
      (Some 1, conn, w,
       to_stderr (ascii prog ++ ascii ": sending of command failed ("
                    ++ format_int status ++ ascii ")." ++ [char_newline]) con)
    else
      let r := yak_recv_message w conn true true true in
      let status := r_status r in
      let type := default char_nul (r_type r) in
      let buf := default None (r_data r) in
      let len := default 0 (r_len r) in
      if negb (status =? 0) then
        (Some 1, r_conn r, r_world r,
         to_stderr (ascii prog ++ ascii ": receiving answer failed ("
                      ++ format_int status ++ ascii ")." ++ [char_newline]) con)
      else
        let con := to_stdout (if char_eqb type char_E then RED else CYAN) con in
        let con := put_chars (Z.to_nat len) (default [] buf) 0 len con in
        let con := to_stdout (RESET ++ [char_newline]) con in
        main_loop prog lines (r_world r) (r_conn r) con
  end.

(** [main]: the value returned, the world and the terminal at exit.
    [scan s] stands for [sscanf(s, "%d %1c", &port, &dummy)]: the value it
    returns and the value of [port] after the call, which was 0 before. *)
Definition main (scan : string -> Z * Z) (argv : list string)
    (lines : list (list byte)) (w : world)
  : Z * world * console :=
  let argc := lengthZ argv in
  let con := {| c_stdout := []; c_stderr := []; c_history := [] |} in
  let host := "localhost"%string in
  match parse_options argv con with
  | Exit code con => (code, w, con)
  | Positional i1 =>
    let n := argc - i1 in
    if (n <? 1) || (n >? 2) then
      (1, w,
       to_stderr (ascii (arg argv 0) ++ ascii ": too "
                    ++ ascii (if n <? 1 then "few" else "many")
                    ++ ascii " arguments (try with " ++ [char_quote]
                    ++ ascii "--help" ++ [char_quote] ++ ascii ")"
                    ++ [char_newline]) con)
    else
      let '(count, port) := scan (arg argv i1) in
      if negb (count =? 1) || (port <=? 0) then
        (1, w,
         to_stderr (ascii (arg argv 0) ++ ascii ": invalid port number."
                      ++ [char_newline]) con)
      else
        let host := if n >=? 2 then arg argv (i1 + 1) else host in
        let '(status, conn, w) :=
          yak_connect w (Some closed_connection) (Some host) port in
        if negb (status =? 0) then
          (1, w,
           to_stderr (ascii (arg argv 0) ++ ascii ": connection error ("
                        ++ format_int status ++ ascii ")." ++ [char_newline]) con)
        else
          match main_loop (arg argv 0) lines w conn con with
          | (Some code, _, w, con) => (code, w, con)
          | (None, conn, w, con) =>
            let '(_, _, w) := yak_close w conn in (0, w, con)
          end
  end.

(** Vocabulary for the client: a network without faults on a machine that
    does not run out of memory; an answer of the server, its type, the
    digits of its length field and its payload; the bytes of a sequence of
    answers; what [main] shows for an answer; the frame of a command. *)
Definition healthy (w : world) : Prop :=
  rx_reliable w /\ tx_reliable w /\ Forall (fun e => e = 0) (w_alloc w).

Definition answer : Type := byte * list byte * list byte.

Definition well_formed (a : answer) : Prop :=
  let '(t, ds, p) := a in
  ds <> [] /\ all_digits ds /\ decimal_value ds = lengthZ p /\
  0 < lengthZ p <= LONG_MAX.

Definition answer_frame (a : answer) : list byte :=
  let '(t, ds, p) := a in frame t ds p.

Definition shown (a : answer) : list byte :=
  let '(t, ds, p) := a in
  (if char_eqb t char_E then RED else CYAN) ++ p ++ RESET ++ [char_newline].

Definition command_frame (line : list byte) : list byte :=
  frame char_X (decimal (lengthZ line)) line.

(** A command line with the port, then an optional host. *)
Definition command_line (prog portarg : string) (hostarg : option string)
  : list string :=
  prog :: portarg :: match hostarg with Some h => [h] | None => [] end.

(** * Properties *)

Arguments char_eqb : simpl never.
Arguments is_digit : simpl never.
Arguments Z_of_char : simpl never.
Arguments char_of_Z : simpl never.
Arguments digit_val : simpl never.
Arguments accumulate : simpl never.
Arguments wrap_long : simpl never.
Arguments recv_data : simpl never.
Arguments send_data : simpl never.
Arguments print_integer : simpl never.
Arguments yak_close : simpl never.
Arguments fail_and_close : simpl never.

(** ** Worlds *)

Lemma set_rx_same w : set_rx (w_rx_data w) (w_rx_sched w) w = w.
Proof. by destruct w. Qed.

Lemma set_tx_same w : set_tx (w_tx_sched w) (w_wire w) w = w.
Proof. by destruct w. Qed.

(** ** Counted prefixes and suffixes *)

Lemma takeZ_take {A} (l : list A) n : takeZ n l = take (Z.to_nat n) l.
Proof.
  revert n; induction l as [|x l IH]; intros n; simpl.
  - by rewrite take_nil.
  - destruct (Z.leb_spec n 0).
    + by replace (Z.to_nat n) with 0%nat by lia.
    + replace (Z.to_nat n) with (S (Z.to_nat (n - 1))) by lia.
      simpl. by rewrite IH.
Qed.

Lemma dropZ_drop {A} (l : list A) n : dropZ n l = drop (Z.to_nat n) l.
Proof.
  revert n; induction l as [|x l IH]; intros n; simpl.
  - by rewrite drop_nil.
  - destruct (Z.leb_spec n 0).
    + by replace (Z.to_nat n) with 0%nat by lia.
    + replace (Z.to_nat n) with (S (Z.to_nat (n - 1))) by lia.
      simpl. by rewrite IH.
Qed.

Lemma take_then_more {A} (l : list A) (a b : nat) :
  take a l ++ take b (drop a l) = take (a + b) l.
Proof.
  revert a; induction l as [|x l IH]; intros [|a]; simpl; try done.
  - by rewrite take_nil.
  - by rewrite IH.
Qed.

(** ** Characters *)

Lemma Z_of_char_range c : -128 <= Z_of_char c < 128.
Proof.
  unfold Z_of_char. pose proof (Byte.to_N_bounded c).
  destruct (Z.ltb_spec (Z.of_N (Byte.to_N c)) 128); lia.
Qed.

Lemma Z_of_char_inj a b : Z_of_char a = Z_of_char b -> a = b.
Proof.
  unfold Z_of_char. intros H.
  pose proof (Byte.to_N_bounded a). pose proof (Byte.to_N_bounded b).
  assert (Byte.to_N a = Byte.to_N b) as E.
  { destruct (Z.ltb_spec (Z.of_N (Byte.to_N a)) 128),
             (Z.ltb_spec (Z.of_N (Byte.to_N b)) 128); lia. }
  pose proof (Byte.of_to_N a) as Ha. pose proof (Byte.of_to_N b) as Hb.
  congruence.
Qed.

Lemma char_eqb_true a b : char_eqb a b = true <-> a = b.
Proof.
  unfold char_eqb. rewrite Z.eqb_eq. split; [apply Z_of_char_inj | by intros ->].
Qed.

Lemma char_eqb_false a b : char_eqb a b = false <-> a <> b.
Proof.
  rewrite <- char_eqb_true. destruct (char_eqb a b); split; congruence.
Qed.

Lemma char_eqb_refl a : char_eqb a a = true.
Proof. by apply char_eqb_true. Qed.

Lemma is_digit_range c : is_digit c = true <-> 48 <= Z_of_char c <= 57.
Proof.
  unfold is_digit. change (Z_of_char char_zero) with 48.
  change (Z_of_char char_nine) with 57.
  rewrite andb_true_iff, Z.geb_le, Z.leb_le. lia.
Qed.

Lemma digit_val_range c : is_digit c = true -> 0 <= digit_val c <= 9.
Proof.
  rewrite is_digit_range. unfold digit_val.
  change (Z_of_char char_zero) with 48. lia.
Qed.

Lemma digit_not_newline c : is_digit c = true -> char_eqb c char_newline = false.
Proof.
  rewrite is_digit_range. unfold char_eqb.
  change (Z_of_char char_newline) with 10. intros. apply Z.eqb_neq. lia.
Qed.

(** ['0' + d] is the digit for [d]. *)
Lemma Z_of_digit_char d :
  0 <= d <= 9 -> Z_of_char (char_of_Z (Z_of_char char_zero + d)) = 48 + d.
Proof.
  intros H.
  assert (d = 0 \/ d = 1 \/ d = 2 \/ d = 3 \/ d = 4 \/ d = 5 \/ d = 6 \/
          d = 7 \/ d = 8 \/ d = 9) as Hd by lia.
  repeat (destruct Hd as [-> | Hd]; [reflexivity|]). by subst.
Qed.

Lemma wrap_long_small z : LONG_MIN <= z <= LONG_MAX -> wrap_long z = z.
Proof.
  unfold LONG_MIN, LONG_MAX, wrap_long. intros H.
  rewrite Z.mod_small; lia.
Qed.

(** ** Connection lifecycle *)

Lemma sys_close_result w fd :
  fst (sys_close w fd) = 0 \/ fst (sys_close w fd) = -1.
Proof.
  unfold sys_close. destruct (w_close _) as [|e s]; [by left|].
  destruct (e =? 0); [by left | by right].
Qed.

Lemma yak_close_some w c :
  exists s w', yak_close w (Some c) = (s, Some closed_connection, w').
Proof.
  unfold yak_close. destruct c as [p s n]; simpl.
  destruct (s =? -1) eqn:E1; simpl.
  - apply Z.eqb_eq in E1; subst. destruct p; simpl; eauto.
  - destruct (s >=? 0); [destruct (sys_close w s) as [r w1]; destruct (r =? 0)|];
      simpl; destruct p; simpl; eauto.
Qed.

Lemma yak_close_closed w c :
  sock c < 0 -> yak_close w (Some c) = (0, Some closed_connection, w).
Proof.
  intros H. unfold yak_close. destruct c as [p s n]; simpl in *.
  destruct (Z.geb_spec s 0); [lia|].
  destruct (Z.eqb_spec s (-1)); subst; simpl; destruct p; reflexivity.
Qed.

Lemma yak_close_open w c :
  0 <= sock c ->
  yak_close w (Some c) =
    (if fst (sys_close w (sock c)) =? 0 then 0 else w_errno (snd (sys_close w (sock c))),
     Some closed_connection, snd (sys_close w (sock c))).
Proof.
  intros H. unfold yak_close. destruct c as [p s n]; simpl in *.
  destruct (Z.eqb_spec s (-1)); [lia|]. destruct (Z.geb_spec s 0); [|lia].
  simpl. destruct (sys_close w s) as [r w1]; simpl.
  destruct (r =? 0); simpl; destruct p; reflexivity.
Qed.

Lemma fail_and_close_some status w c :
  exists w', fail_and_close status w (Some c) = (status, Some closed_connection, w').
Proof.
  unfold fail_and_close. destruct (yak_close_some w c) as (s & w' & ->). eauto.
Qed.

(** C9, as the code has it: [yak_close] leaves a non-[NULL] connection in
    the state of [YAK_CONNECTION_INITIALIZER] (sock -1, peer [NULL], port
    0) and [yak_is_open] then reports 0; a call on a [NULL] or already
    closed connection returns 0 and touches nothing, so the second of two
    calls in a row always returns 0; the call on an open connection makes
    exactly the call [close(sock)], returns 0 when that call returns 0,
    and otherwise returns the [errno] it set, which is not 0. *)
Theorem yak_close_idempotent w conn s1 c1 w1 s2 c2 w2 :
  yak_close w conn = (s1, c1, w1) ->
  yak_close w1 c1 = (s2, c2, w2) ->
  c1 = yak_init conn /\ yak_is_open c1 = 0 /\
  s2 = 0 /\ c2 = c1 /\ w2 = w1 /\ yak_is_open c2 = 0 /\
  (yak_is_open conn = 0 -> s1 = 0 /\ w1 = w) /\
  (s1 = 0 \/
   exists c, conn = Some c /\ 0 <= sock c /\
             sys_close w (sock c) = (-1, w1) /\ s1 = w_errno w1) /\
  (forall c, conn = Some c -> 0 <= sock c ->
     w1 = snd (sys_close w (sock c)) /\
     (fst (sys_close w (sock c)) = 0 -> s1 = 0) /\
     (fst (sys_close w (sock c)) <> 0 -> s1 = w_errno w1 /\ s1 <> 0)).
Proof.
  intros H1 H2. destruct conn as [c|].
  - destruct (yak_close_some w c) as (s & w' & E).
    rewrite E in H1. inversion H1; subst s1 c1 w1; clear H1.
    rewrite yak_close_closed in H2 by (simpl; lia).
    inversion H2; subst s2 c2 w2; clear H2.
    split; [done|]. split; [done|]. split; [done|]. split; [done|].
    split; [done|]. split; [done|]. split; [|split].
    + intros Ho.
      assert (sock c < 0) as Hs
        by (unfold yak_is_open in *; destruct (Z.geb_spec (sock c) 0); [done|lia]).
      rewrite yak_close_closed in E by lia. by inversion E.
    + destruct (Z.lt_ge_cases (sock c) 0) as [Hs|Hs].
      * rewrite yak_close_closed in E by lia. inversion E. by left.
      * rewrite yak_close_open in E by lia.
        destruct (sys_close_result w (sock c)) as [Hr|Hr];
          destruct (sys_close w (sock c)) as [r wc] eqn:Ec; simpl in *; subst r;
          inversion E; subst; [by left|].
        right. exists c. by rewrite Ec.
    + intros c0 Ec0 Hs. inversion Ec0; subst c0.
      rewrite yak_close_open in E by lia. inversion E; subst s w'; clear E.
      split; [done|].
      unfold sys_close. destruct (w_close _) as [|e sc]; simpl; [by split|].
      destruct (Z.eqb_spec e 0); simpl; by repeat split.
  - simpl in H1. inversion H1; subst. simpl in H2. inversion H2; subst.
    repeat split; auto; done.
Qed.

Lemma yak_close_idempotent_witness :
  Some closed_connection = yak_init (Some open_connection) /\
  yak_is_open (Some closed_connection) = 0.
Proof.
  pose proof (yak_close_idempotent quiet_world (Some open_connection)
                _ _ _ _ _ _ eq_refl eq_refl) as (H1 & H2 & _).
  split; assumption.
Defined.

(** C9 as stated fails: closing an open connection whose [close] fails
    with [EIO] returns [EIO], not 0. *)
Lemma yak_close_reports_failure :
  fst (fst (yak_close (set_close [EIO] quiet_world) (Some open_connection))) = EIO /\
  EIO <> 0 /\ yak_is_open (Some open_connection) = 1.
Proof. repeat split. discriminate. Qed.

(** ** Errors close the connection *)

Ltac closes H :=
  match type of H with
  | fail_and_close ?s ?w (Some ?c) = _ =>
    let w' := fresh "w" in let E := fresh "E" in
    destruct (fail_and_close_some s w c) as [w' E];
    rewrite E in H; inversion H; subst; try reflexivity
  end.

Lemma yak_send_message_error_closes w c type data len s conn' w' :
  yak_send_message w (Some c) type data len = (s, conn', w') ->
  s <> 0 -> yak_is_open conn' = 0.
Proof.
  unfold yak_send_message. intros H Hs.
  repeat case_match; try (closes H; fail); inversion H; subst; try done.
  unfold yak_is_open.
  destruct (Z.geb_spec (sock c) 0), (Z.ltb_spec (sock c) 0); try done; lia.
Qed.

Ltac received_closes c :=
  intros Hs; repeat case_match; simpl in *;
  try match goal with
      | H : fail_and_close ?s ?w (Some c) = _ |- _ => closes H
      end; try done;
  destruct (Z.geb_spec (sock c) 0), (Z.ltb_spec (sock c) 0); try done; lia.

Lemma yak_recv_message_in_buffer_error_closes w c type data len maxlen :
  r_status (yak_recv_message_in_buffer w (Some c) type data len maxlen) <> 0 ->
  yak_is_open (r_conn (yak_recv_message_in_buffer w (Some c) type data len maxlen)) = 0.
Proof. unfold yak_recv_message_in_buffer. received_closes c. Qed.

(** The allocating receive closes on every error it finds once it has
    accepted its arguments. *)
Lemma yak_recv_message_error_closes w c type len :
  r_status (yak_recv_message w (Some c) type true len) <> 0 ->
  yak_is_open (r_conn (yak_recv_message w (Some c) type true len)) = 0.
Proof. unfold yak_recv_message. received_closes c. Qed.

(** C2 fails on the allocating receive: with a [NULL] [data] pointer it
    returns [EFAULT] from the argument check that precedes the [error:]
    path, and the connection stays open. *)
Theorem yak_recv_message_null_data_stays_open :
  let r := yak_recv_message quiet_world (Some open_connection) true false true in
  r_status r = EFAULT /\ EFAULT <> 0 /\ yak_is_open (r_conn r) = 1 /\
  r_world r = quiet_world.
Proof. repeat split. discriminate. Qed.

(** ** Connecting *)

Lemma extends_refl w : extends w w.
Proof. exists []. by rewrite app_nil_r. Qed.

Lemma extends_trans w1 w2 w3 : extends w1 w2 -> extends w2 w3 -> extends w1 w3.
Proof.
  intros [t1 H1] [t2 H2]. exists (t1 ++ t2). by rewrite H2, H1, app_assoc.
Qed.

Lemma extends_log c w : extends w (log c w).
Proof. by exists [c]. Qed.

Lemma sys_close_extends w fd : extends w (snd (sys_close w fd)).
Proof.
  unfold sys_close. destruct (w_close _) as [|e s]; [|destruct (e =? 0)];
    simpl; apply extends_log.
Qed.

Lemma sys_socket_extends w ai : extends w (snd (sys_socket w ai)).
Proof.
  unfold sys_socket. destruct (w_socket _); simpl; apply extends_log.
Qed.

Lemma sys_connect_extends w fd ai : extends w (snd (sys_connect w fd ai)).
Proof.
  unfold sys_connect. destruct (w_connect _); simpl; apply extends_log.
Qed.

Lemma sys_alloc_extends w : extends w (snd (sys_alloc w)).
Proof.
  unfold sys_alloc. destruct (w_alloc w) as [|e s]; [|destruct (e =? 0)];
    simpl; exists []; simpl; by rewrite app_nil_r.
Qed.

Lemma yak_close_extends w conn : extends w (snd (yak_close w conn)).
Proof.
  destruct conn as [c|]; [|apply extends_refl].
  destruct (Z.lt_ge_cases (sock c) 0).
  - rewrite yak_close_closed by done. apply extends_refl.
  - rewrite yak_close_open by done. apply sys_close_extends.
Qed.

Lemma fail_and_close_extends s w conn : extends w (snd (fail_and_close s w conn)).
Proof.
  unfold fail_and_close. pose proof (yak_close_extends w conn) as H.
  by destruct (yak_close w conn) as [[? ?] ?].
Qed.

Create HintDb trace.
#[local] Hint Resolve extends_refl extends_log extends_trans : trace.

Lemma try_candidates_extends list : forall w, extends w (snd (try_candidates w list)).
Proof.
  induction list as [|ai next IH]; intros w; simpl; [auto with trace|].
  pose proof (sys_socket_extends w ai) as H1.
  destruct (sys_socket w ai) as [s w1]; simpl in H1.
  destruct (negb (s =? -1)).
  - pose proof (sys_connect_extends w1 s ai) as H2.
    destruct (sys_connect w1 s ai) as [r w2]; simpl in H2.
    destruct (negb (r =? -1)); simpl; [eauto with trace|].
    pose proof (sys_close_extends w2 s) as H3.
    destruct (sys_close w2 s) as [r3 w3]; simpl in H3.
    eauto with trace.
  - eauto with trace.
Qed.

(** C4, as the code has it: a port outside [0, 65535] makes [yak_connect]
    fail before any name resolution or socket creation, leaving the
    connection closed; an empty host name is not rejected, it is handed to
    [getaddrinfo] with the service "80". *)
Theorem yak_connect_invalid_arguments w c :
  (forall host port s c' w',
     port < 0 \/ 65535 < port ->
     yak_connect w (Some c) host port = (s, c', w') ->
     s <> 0 /\ yak_is_open c' = 0 /\ w_trace w' = w_trace w) /\
  (exists tr,
     w_trace (snd (yak_connect w (Some c) (Some ""%string) 80)) =
     w_trace w ++ SysGetaddrinfo "" "80" false :: tr).
Proof.
  split.
  - intros host port s c' w' Hp H. unfold yak_connect, listaddrinfo in H.
    replace ((port <? 0) || (port >? 65535)) with true in H.
    + simpl in H. inversion H; subst. by repeat split.
    + symmetry. apply orb_true_iff. rewrite Z.ltb_lt, Z.gtb_gt. lia.
  - unfold yak_connect, listaddrinfo. simpl.
    change (string_of_list_byte _) with "80"%string.
    unfold sys_getaddrinfo.
    set (w0 := log (SysGetaddrinfo "" "80" false) w).
    assert (forall w1, extends w0 w1 ->
              exists tr, w_trace w1 = w_trace w ++ SysGetaddrinfo "" "80" false :: tr)
      as Hext.
    { intros w1 [tr Htr]. exists tr. rewrite Htr. simpl. by rewrite <- app_assoc. }
    assert (forall list wl, extends w0 wl -> exists tr,
      w_trace (snd (
        let '(s, w2) := try_candidates wl list in
        if sock (with_sock s closed_connection) =? -1
        then (EACCES, Some (with_sock s closed_connection), w2)
        else
          let '(ok, w3) := sys_alloc w2 in
          if negb ok
          then fail_and_close (get_errno w3 ENOMEM) w3
                 (Some (with_sock s closed_connection))
          else (0, Some (with_port 80 (with_peer (Some ""%string)
                                         (with_sock s closed_connection))), w3)))
      = w_trace w ++ SysGetaddrinfo "" "80" false :: tr) as Hrest.
    { intros list wl Hwl. apply Hext.
      pose proof (try_candidates_extends list wl) as H1.
      destruct (try_candidates wl list) as [s w2]; simpl in H1.
      destruct (_ =? -1); simpl; [eauto with trace|].
      pose proof (sys_alloc_extends w2) as H2.
      destruct (sys_alloc w2) as [ok w3]; simpl in H2.
      destruct ok; simpl; [eauto with trace|].
      eapply extends_trans; [|apply fail_and_close_extends].
      eauto with trace. }
    destruct (w_resolve w "" "80" false) as [[|ai list]|].
    + apply (Hrest [] w0), extends_refl.
    + apply (Hrest (ai :: list)). apply extends_log.
    + apply (Hrest [] w0), extends_refl.
Qed.

Lemma yak_connect_invalid_arguments_witness :
  EACCES <> 0 /\ yak_is_open (Some closed_connection) = 0 /\
  w_trace quiet_world = w_trace quiet_world.
Proof.
  exact (proj1 (yak_connect_invalid_arguments quiet_world closed_connection)
           (Some "localhost"%string) (-1) _ _ _ (or_introl eq_refl) eq_refl).
Defined.

(** C4 as stated fails for the empty host name: the name is resolved, and
    the status of the failed connection is [EACCES], not [EINVAL]; for the
    port -1 the status is [EACCES] as well. *)
Lemma yak_connect_empty_host_is_resolved :
  (let '(s, _, w) := yak_connect quiet_world (Some closed_connection) (Some ""%string) 80 in
   s = EACCES /\ w_trace w = [SysGetaddrinfo "" "80" false]) /\
  (let '(s, _, w) := yak_connect quiet_world (Some closed_connection)
                       (Some "localhost"%string) (-1) in
   s = EACCES /\ w_trace w = []) /\
  EACCES <> EINVAL.
Proof. repeat split. discriminate. Qed.

(** ** Receiving over a socket without transport faults *)

Lemma lengthZ_app {A} (l1 l2 : list A) : lengthZ (l1 ++ l2) = lengthZ l1 + lengthZ l2.
Proof. unfold lengthZ. rewrite length_app. lia. Qed.

Lemma lengthZ_nonneg {A} (l : list A) : 0 <= lengthZ l.
Proof. unfold lengthZ. lia. Qed.

Lemma takeZ_nonpos {A} (l : list A) n : n <= 0 -> takeZ n l = [].
Proof. intros. rewrite takeZ_take. by replace (Z.to_nat n) with 0%nat by lia. Qed.

Lemma dropZ_nonpos {A} (l : list A) n : n <= 0 -> dropZ n l = l.
Proof. intros. rewrite dropZ_drop. by replace (Z.to_nat n) with 0%nat by lia. Qed.

Lemma takeZ_app_length {A} (l1 l2 : list A) : takeZ (lengthZ l1) (l1 ++ l2) = l1.
Proof.
  rewrite takeZ_take. unfold lengthZ. rewrite Nat2Z.id. apply take_app_length.
Qed.

Lemma dropZ_app_length {A} (l1 l2 : list A) : dropZ (lengthZ l1) (l1 ++ l2) = l2.
Proof.
  rewrite dropZ_drop. unfold lengthZ. rewrite Nat2Z.id. apply drop_app_length.
Qed.

(** A partial delivery of [m] bytes followed by the rest of the request. *)
Lemma takeZ_split {A} (l : list A) m len :
  0 < m <= len ->
  takeZ m l ++ takeZ (len - lengthZ (takeZ m l)) (dropZ m l) = takeZ len l /\
  dropZ (len - lengthZ (takeZ m l)) (dropZ m l) = dropZ len l.
Proof.
  intros H. rewrite !takeZ_take, !dropZ_drop. unfold lengthZ.
  rewrite length_take.
  destruct (Nat.le_gt_cases (Z.to_nat m) (length l)) as [Hl|Hl].
  - rewrite Nat.min_l by done. rewrite take_then_more, drop_drop.
    replace (Z.to_nat m + Z.to_nat (len - Z.of_nat (Z.to_nat m)))%nat
      with (Z.to_nat len) by lia. done.
  - rewrite (drop_ge l (Z.to_nat m)) by lia.
    rewrite take_nil, drop_nil, app_nil_r.
    rewrite !take_ge by lia. by rewrite drop_ge by lia.
Qed.

Lemma recv_data_loop_reliable fuel : forall w got len,
  rx_reliable w -> (Z.to_nat len <= fuel)%nat ->
  exists sch, forallb rx_ok sch = true /\
    recv_data_loop fuel w got len =
      (lengthZ (got ++ takeZ len (w_rx_data w)), got ++ takeZ len (w_rx_data w),
       set_rx (dropZ len (w_rx_data w)) sch w).
Proof.
  assert (forall w got len, rx_reliable w -> len <= 0 ->
    exists sch, forallb rx_ok sch = true /\
      (lengthZ got, got, w) =
      (lengthZ (got ++ takeZ len (w_rx_data w)), got ++ takeZ len (w_rx_data w),
       set_rx (dropZ len (w_rx_data w)) sch w)) as Hdone.
  { intros w got len Hw Hlen. exists (w_rx_sched w). split; [done|].
    rewrite takeZ_nonpos, dropZ_nonpos, app_nil_r, set_rx_same by done. done. }
  assert (forall fuel, (forall w got len, rx_reliable w -> (Z.to_nat len <= fuel)%nat ->
      exists sch, forallb rx_ok sch = true /\
        recv_data_loop fuel w got len =
          (lengthZ (got ++ takeZ len (w_rx_data w)), got ++ takeZ len (w_rx_data w),
           set_rx (dropZ len (w_rx_data w)) sch w)) ->
    forall w got len m sch0, 0 < m <= len -> forallb rx_ok sch0 = true ->
      (Z.to_nat len <= S fuel)%nat ->
      let bs := takeZ m (w_rx_data w) in
      let w1 := set_rx (dropZ m (w_rx_data w)) sch0 w in
      exists sch, forallb rx_ok sch = true /\
        (if lengthZ bs <? 0 then (-1, got, w1)
         else if lengthZ bs =? 0 then (lengthZ got, got, w1)
         else recv_data_loop fuel w1 (got ++ bs) (len - lengthZ bs)) =
        (lengthZ (got ++ takeZ len (w_rx_data w)), got ++ takeZ len (w_rx_data w),
         set_rx (dropZ len (w_rx_data w)) sch w)) as Hstep.
  { intros f IH w got len m sch0 Hm Hsch Hfuel bs w1.
    pose proof (lengthZ_nonneg bs) as Hbs.
    destruct (takeZ_split (w_rx_data w) m len Hm) as [Ht Hd].
    fold bs in Ht, Hd.
    destruct (Z.ltb_spec (lengthZ bs) 0); [lia|].
    destruct (Z.eqb_spec (lengthZ bs) 0) as [E|E].
    - exists sch0. split; [done|].
      assert (bs = []) as Hnil by (destruct bs; [done|discriminate]).
      rewrite Hnil in *. simpl in Ht, Hd. rewrite E, Z.sub_0_r in Ht, Hd.
      assert (dropZ m (w_rx_data w) = []) as Hdm.
      { clear Ht Hd. subst bs. destruct (w_rx_data w) as [|x l]; [done|].
        simpl in Hnil. destruct (Z.leb_spec m 0); [lia|discriminate]. }
      subst w1. rewrite Hdm in *. simpl in Ht, Hd.
      by rewrite <- Ht, <- Hd, app_nil_r.
    - destruct (IH w1 (got ++ bs) (len - lengthZ bs)) as (sch & Hs & ->);
        [done | lia |].
      exists sch. split; [done|].
      subst w1. simpl. rewrite Hd, <- app_assoc, Ht. done. }
  induction fuel as [|fuel IH]; intros w got len Hw Hfuel; simpl.
  - apply Hdone; [done | lia].
  - destruct (Z.gtb_spec len 0) as [Hpos|]; [|by apply Hdone].
    unfold sys_recv. unfold rx_reliable in Hw.
    destruct (w_rx_sched w) as [|[k|e] sch0]; simpl in Hw; [| |done].
    + apply Hstep; [done | lia | done | done].
    + apply Hstep; [done | lia | done | done].
Qed.

Lemma recv_data_reliable w len :
  rx_reliable w ->
  exists sch, forallb rx_ok sch = true /\
    recv_data w len =
      (lengthZ (takeZ len (w_rx_data w)), takeZ len (w_rx_data w),
       set_rx (dropZ len (w_rx_data w)) sch w).
Proof.
  intros Hw. unfold recv_data.
  destruct (recv_data_loop_reliable (Z.to_nat len) w [] len Hw) as (sch & Hs & ->);
    [done|]. by exists sch.
Qed.

(** All the bytes asked for are there: they are read, and nothing more. *)
Lemma recv_data_exact w bs rest :
  rx_reliable w -> w_rx_data w = bs ++ rest ->
  exists sch, forallb rx_ok sch = true /\
    recv_data w (lengthZ bs) = (lengthZ bs, bs, set_rx rest sch w).
Proof.
  intros Hw Hd. destruct (recv_data_reliable w (lengthZ bs) Hw) as (sch & Hs & ->).
  exists sch. split; [done|].
  by rewrite Hd, takeZ_app_length, dropZ_app_length.
Qed.

(** The peer closed early: what there was is read. *)
Lemma recv_data_short w len :
  rx_reliable w -> lengthZ (w_rx_data w) < len ->
  exists sch, forallb rx_ok sch = true /\
    recv_data w len = (lengthZ (w_rx_data w), w_rx_data w, set_rx [] sch w).
Proof.
  intros Hw Hd. destruct (recv_data_reliable w len Hw) as (sch & Hs & ->).
  exists sch. split; [done|]. unfold lengthZ in Hd.
  rewrite takeZ_take, dropZ_drop, take_ge, drop_ge by lia. done.
Qed.

(** ** Decoding a header *)

Lemma accumulate_grows ds : forall a,
  all_digits ds -> 0 <= a -> a <= fold_left accumulate ds a.
Proof.
  induction ds as [|d ds IH]; intros a Hds Ha; simpl; [lia|].
  inversion Hds as [|? ? Hd Hds']; subst.
  pose proof (digit_val_range d Hd).
  assert (a <= accumulate a d) by (unfold accumulate; lia).
  specialize (IH (accumulate a d) Hds'). lia.
Qed.

Lemma decimal_value_cons d ds :
  decimal_value (d :: ds) = fold_left accumulate ds (digit_val d).
Proof. unfold decimal_value. simpl. done. Qed.

Lemma decimal_value_nonneg ds : all_digits ds -> 0 <= decimal_value ds.
Proof. intros. by apply (accumulate_grows ds 0). Qed.

(** The digit loop on the rest of a well-formed header: [c] is the byte in
    hand, the stream holds what follows it. *)
Lemma recv_message_info_loop_digits ds : forall c w acc rest fuel,
  rx_reliable w ->
  c :: w_rx_data w = ds ++ char_newline :: rest ->
  all_digits ds -> 0 <= acc ->
  fold_left accumulate ds acc <= LONG_MAX ->
  (length (w_rx_data w) < fuel)%nat ->
  exists sch, forallb rx_ok sch = true /\
    recv_message_info_loop fuel w acc c =
      (0, fold_left accumulate ds acc, set_rx rest sch w).
Proof.
  induction ds as [|d ds IH]; intros c w acc rest fuel Hw Hc Hds Hacc Hmax Hfuel.
  - simpl in Hc. inversion Hc; subst c. exists (w_rx_sched w). split; [done|].
    destruct fuel; simpl; by rewrite set_rx_same.
  - simpl in Hc. inversion Hc as [[Ec Hdata]]; subst c.
    inversion Hds as [|? ? Hd Hds']; subst.
    destruct fuel as [|fuel]; [lia|]. simpl.
    rewrite (digit_not_newline d Hd), Hd.
    pose proof (digit_val_range d Hd) as Hv.
    assert (acc <= accumulate acc d) as Hstep by (unfold accumulate; lia).
    pose proof (accumulate_grows ds (accumulate acc d) Hds' ltac:(lia)) as Hg.
    simpl in Hmax.
    assert (LONG_MAX = 2 ^ 63 - 1) as HM by reflexivity.
    assert (accumulate acc d = 10 * acc + digit_val d) as Ha by reflexivity.
    rewrite (wrap_long_small (10 * acc)) by (unfold LONG_MIN; lia).
    fold (digit_val d).
    replace (digit_val d + 10 * acc) with (accumulate acc d) by lia.
    rewrite wrap_long_small by (unfold LONG_MIN; lia).
    destruct (Z.ltb_spec (accumulate acc d) acc); [lia|].
    assert (exists c' data', w_rx_data w = [c'] ++ data' /\
                             c' :: data' = ds ++ char_newline :: rest)
      as (c' & data' & Hsplit & Hnext).
    { rewrite Hdata. destruct ds; simpl; eauto. }
    destruct (recv_data_exact w [c'] data' Hw Hsplit) as (sch1 & Hs1 & E).
    change (lengthZ [c']) with 1 in E. rewrite E. simpl.
    change (char_at [c'] 0) with c'.
    destruct (IH c' (set_rx data' sch1 w) (accumulate acc d) rest fuel)
      as (sch & Hs & ->); try done.
    + lia.
    + simpl. rewrite Hsplit in Hfuel. simpl in Hfuel. lia.
    + by exists sch.
Qed.

Arguments recv_message_info_loop : simpl never.

(** A well-formed header whose length is representable is accepted, with
    or without leading zeros, and exactly the header is consumed. *)
Lemma recv_message_info_header w t ds rest :
  rx_reliable w ->
  w_rx_data w = header t ds ++ rest ->
  ds <> [] -> all_digits ds -> decimal_value ds <= LONG_MAX ->
  exists sch, forallb rx_ok sch = true /\
    recv_message_info w =
      (0, {| msg_len := decimal_value ds; msg_type := t |}, set_rx rest sch w).
Proof.
  intros Hw Hdata Hne Hds Hmax. destruct ds as [|d ds]; [done|].
  inversion Hds as [|? ? Hd Hds']; subst.
  unfold header in Hdata. simpl in Hdata. rewrite <- app_assoc in Hdata.
  simpl in Hdata.
  assert (exists c data', ds ++ char_newline :: rest = c :: data')
    as (c & data' & Hc) by (destruct ds; simpl; eauto).
  rewrite Hc in Hdata.
  destruct (recv_data_exact w [t; char_colon; d; c] data' Hw Hdata)
    as (sch1 & Hs1 & E).
  unfold recv_message_info. change (lengthZ [t; char_colon; d; c]) with 4 in E.
  rewrite E. simpl.
  change (char_at [t; char_colon; d; c] 0) with t.
  change (char_at [t; char_colon; d; c] 1) with char_colon.
  change (char_at [t; char_colon; d; c] 2) with d.
  change (char_at [t; char_colon; d; c] 3) with c.
  apply is_digit_range in Hd as Hr.
  change (Z_of_char char_zero) with 48. change (Z_of_char char_nine) with 57.
  destruct (Z.ltb_spec (Z_of_char d) 48); [lia|].
  destruct (Z.gtb_spec (Z_of_char d) 57); [lia|]. simpl.
  rewrite decimal_value_cons in *.
  pose proof (digit_val_range d Hd) as Hv.
  destruct (recv_message_info_loop_digits ds c (set_rx data' sch1 w)
              (digit_val d) rest (S (length data')))
    as (sch & Hs & El); try done; try lia.
  - simpl. lia.
  - change (Z_of_char d - 48) with (digit_val d).
    rewrite El. simpl. by exists sch.
Qed.

Lemma not_digit_rejected c :
  is_digit c = false ->
  (Z_of_char c <? Z_of_char char_zero) || (Z_of_char c >? Z_of_char char_nine) = true.
Proof.
  unfold is_digit. intros H. apply andb_false_iff in H.
  apply orb_true_iff. rewrite Z.ltb_lt, Z.gtb_gt.
  destruct H as [H|H].
  - left. rewrite Z.geb_leb in H. apply Z.leb_gt in H. lia.
  - right. apply Z.leb_gt in H. lia.
Qed.

(** The four bytes do not start a header: the decoder stops there. *)
Lemma recv_message_info_malformed w b0 b1 b2 b3 rest :
  rx_reliable w ->
  w_rx_data w = b0 :: b1 :: b2 :: b3 :: rest ->
  b1 <> char_colon \/ is_digit b2 = false ->
  exists sch, forallb rx_ok sch = true /\
    recv_data w 4 = (4, [b0; b1; b2; b3], set_rx rest sch w) /\
    recv_message_info w = (EBADMSG, empty_info, set_rx rest sch w).
Proof.
  intros Hw Hdata Hbad.
  destruct (recv_data_exact w [b0; b1; b2; b3] rest Hw Hdata) as (sch & Hs & E).
  change (lengthZ [b0; b1; b2; b3]) with 4 in E.
  exists sch. split; [done|]. split; [done|].
  unfold recv_message_info. rewrite E. simpl.
  change (char_at [b0; b1; b2; b3] 1) with b1.
  change (char_at [b0; b1; b2; b3] 2) with b2.
  destruct (char_eqb b1 char_colon) eqn:E1; simpl; [|done].
  destruct Hbad as [Hb|Hb].
  - by apply char_eqb_true in E1.
  - by rewrite (not_digit_rejected b2 Hb).
Qed.



(** ** What the receive functions do with the decoder's verdict *)

Lemma yak_close_rx w conn :
  w_rx_data (snd (yak_close w conn)) = w_rx_data w.
Proof.
  destruct conn as [c|]; [|done].
  destruct (Z.lt_ge_cases (sock c) 0).
  - by rewrite yak_close_closed.
  - rewrite yak_close_open by done. simpl. unfold sys_close.
    destruct (w_close _) as [|e s]; [|destruct (e =? 0)]; done.
Qed.

Lemma fail_and_close_eq status w c :
  fail_and_close status w (Some c) =
    (status, Some closed_connection, snd (yak_close w (Some c))).
Proof.
  unfold fail_and_close. by destruct (yak_close_some w c) as (s & w' & ->).
Qed.

Lemma yak_recv_message_header_error w c type len s m w1 :
  0 <= sock c -> recv_message_info w = (s, m, w1) -> s <> 0 ->
  yak_recv_message w (Some c) type true len =
    {| r_status := s; r_conn := Some closed_connection;
       r_type := out type char_nul; r_data := Some None; r_len := out len 0;
       r_world := snd (yak_close w1 (Some c)) |}.
Proof.
  intros Hc E Hs. unfold yak_recv_message. simpl.
  destruct (Z.ltb_spec (sock c) 0); [lia|]. rewrite E.
  destruct (Z.eqb_spec s 0); [done|]. simpl.
  by rewrite fail_and_close_eq.
Qed.

Lemma yak_recv_message_in_buffer_header_error w c type data len maxlen s m w1 :
  0 <= sock c -> 0 <= maxlen -> is_null data = false \/ maxlen = 0 ->
  recv_message_info w = (s, m, w1) -> s <> 0 ->
  yak_recv_message_in_buffer w (Some c) type data len maxlen =
    {| r_status := s; r_conn := Some closed_connection;
       r_type := out type char_nul; r_data := data; r_len := out len 0;
       r_world := snd (yak_close w1 (Some c)) |}.
Proof.
  intros Hc Hmax Hdata E Hs. unfold yak_recv_message_in_buffer.
  destruct (Z.ltb_spec (sock c) 0); [lia|].
  destruct (Z.ltb_spec maxlen 0); [lia|].
  replace (is_null data && (maxlen >? 0)) with false.
  - rewrite E. destruct (Z.eqb_spec s 0); [done|]. simpl.
    by rewrite fail_and_close_eq.
  - symmetry. apply andb_false_iff.
    destruct Hdata as [->| ->]; [by left | by right].
Qed.

(** ** Transport faults *)


















(** ** Claims about the decoder *)

(** C10, as the code has it: a header whose length field has leading
    zeros is accepted when its value fits a [long]: for a digit string "0"
    followed by more digits, [recv_message_info] succeeds with the numeric
    value of the string and the type byte, having consumed the header and
    nothing else. *)
Theorem leading_zeros_accepted w t ds rest :
  rx_reliable w ->
  ds <> [] -> all_digits ds -> decimal_value (char_zero :: ds) <= LONG_MAX ->
  w_rx_data w = header t (char_zero :: ds) ++ rest ->
  exists w',
    recv_message_info w =
      (0, {| msg_len := decimal_value (char_zero :: ds); msg_type := t |}, w') /\
    decimal_value (char_zero :: ds) = decimal_value ds /\
    w_rx_data w' = rest.
Proof.
  intros Hw Hne Hds Hmax Hdata.
  destruct (recv_message_info_header w t (char_zero :: ds) rest)
    as (sch & Hs & E); try done.
  - by constructor.
  - exists (set_rx rest sch w). by repeat split.
Qed.

Lemma leading_zeros_accepted_witness :
  exists w',
    recv_message_info (set_rx (ascii "T:007" ++ [char_newline]) [RxGive 2] quiet_world) =
      (0, {| msg_len := 7; msg_type := "T"%byte |}, w') /\
    7 = 7 /\ w_rx_data w' = [].
Proof.
  apply (leading_zeros_accepted
           (set_rx (ascii "T:007" ++ [char_newline]) [RxGive 2] quiet_world)
           "T"%byte (ascii "07") []).
  - reflexivity.
  - discriminate.
  - repeat constructor.
  - vm_compute. discriminate.
  - reflexivity.
Defined.

(** C10 as stated fails for a digit string whose value does not fit a
    [long]: "09223372036854775808" is refused with [EOVERFLOW], and
    "025000000000000000000" is accepted with 6553255926290448384, which
    is not the value of the digit string. *)
Lemma leading_zeros_beyond_long :
  let ds1 := ascii "09223372036854775808" in
  let ds2 := ascii "025000000000000000000" in
  (all_digits ds1 /\
   fst (fst (recv_message_info (set_rx (header "T" ds1) [] quiet_world)))
   = EOVERFLOW) /\
  (all_digits ds2 /\ decimal_value ds2 = 25000000000000000000 /\
   fst (recv_message_info (set_rx (header "T" ds2) [] quiet_world))
   = (0, {| msg_len := 6553255926290448384; msg_type := "T"%byte |})).
Proof.
  intros ds1 ds2. split.
  - split; [repeat constructor | by vm_compute].
  - split; [repeat constructor|]. split; by vm_compute.
Qed.

(** C7: when the second of the first four bytes is not ':' or the third is
    not a digit, the decoder fails with [EBADMSG] after those four bytes:
    both receive functions return [EBADMSG], the connection is closed, and
    the stream still holds everything after the four bytes, so no payload
    read took place. *)
Theorem malformed_header_rejected w b0 b1 b2 b3 rest :
  rx_reliable w ->
  w_rx_data w = b0 :: b1 :: b2 :: b3 :: rest ->
  b1 <> char_colon \/ is_digit b2 = false ->
  (exists w1, recv_message_info w = (EBADMSG, empty_info, w1) /\
              recv_data w 4 = (4, [b0; b1; b2; b3], w1) /\
              w_rx_data w1 = rest) /\
  (forall c type len,
     0 <= sock c ->
     let r := yak_recv_message w (Some c) type true len in
     r_status r = EBADMSG /\ yak_is_open (r_conn r) = 0 /\
     r_data r = Some None /\
     r_world r = snd (yak_close (snd (recv_data w 4)) (Some c)) /\
     w_rx_data (r_world r) = rest) /\
  (forall c type data len maxlen,
     0 <= sock c -> 0 <= maxlen -> is_null data = false \/ maxlen = 0 ->
     let r := yak_recv_message_in_buffer w (Some c) type data len maxlen in
     r_status r = EBADMSG /\ yak_is_open (r_conn r) = 0 /\
     r_data r = data /\
     r_world r = snd (yak_close (snd (recv_data w 4)) (Some c)) /\
     w_rx_data (r_world r) = rest).
Proof.
  intros Hw Hdata Hbad.
  destruct (recv_message_info_malformed w b0 b1 b2 b3 rest Hw Hdata Hbad)
    as (sch & Hs & E4 & E).
  split; [|split].
  - exists (set_rx rest sch w). by repeat split.
  - intros c type len Hc r. subst r.
    rewrite (yak_recv_message_header_error w c type len _ _ _ Hc E) by done.
    simpl. rewrite E4. simpl. by rewrite yak_close_rx.
  - intros c type data len maxlen Hc Hmax Hd r. subst r.
    rewrite (yak_recv_message_in_buffer_header_error w c type data len maxlen
               _ _ _ Hc Hmax Hd E) by done.
    simpl. rewrite E4. simpl. by rewrite yak_close_rx.
Qed.

Lemma malformed_header_rejected_witness :
  let w := set_rx (ascii "X-1" ++ char_newline :: ascii "abc") [RxGive 3] quiet_world in
  let r := yak_recv_message w (Some open_connection) true true true in
  r_status r = EBADMSG /\ yak_is_open (r_conn r) = 0 /\
  r_data r = Some None /\
  r_world r = snd (yak_close (snd (recv_data w 4)) (Some open_connection)) /\
  w_rx_data (r_world r) = ascii "abc".
Proof.
  intros w.
  refine (proj1 (proj2 (malformed_header_rejected w "X"%byte "-"%byte "1"%byte
                          char_newline (ascii "abc") _ _ _))
            open_connection true true _).
  - reflexivity.
  - reflexivity.
  - left. discriminate.
  - simpl. lia.
Defined.




(** C5, as the code has it: a frame whose declared length fits a [long]
    and exceeds [maxlen] makes [yak_recv_message_in_buffer] fail with
    [EMSGSIZE] right after the header: the connection is closed, the
    caller's buffer is untouched, and the stream still holds every byte
    that followed the header. *)
Theorem oversized_message_rejected w c type data len maxlen t ds rest :
  0 <= sock c -> 0 <= maxlen -> is_null data = false \/ maxlen = 0 ->
  rx_reliable w ->
  ds <> [] -> all_digits ds -> decimal_value ds <= LONG_MAX ->
  w_rx_data w = header t ds ++ rest ->
  maxlen < decimal_value ds ->
  let r := yak_recv_message_in_buffer w (Some c) type data len maxlen in
  r_status r = EMSGSIZE /\ yak_is_open (r_conn r) = 0 /\
  r_data r = data /\
  r_world r = snd (yak_close (snd (recv_message_info w)) (Some c)) /\
  w_rx_data (r_world r) = rest.
Proof.
  intros Hc Hmax Hd Hw Hne Hds Hval Hdata Hbig r. subst r.
  destruct (recv_message_info_header w t ds rest Hw Hdata Hne Hds Hval)
    as (sch & Hs & E).
  unfold yak_recv_message_in_buffer.
  destruct (Z.ltb_spec (sock c) 0); [lia|].
  destruct (Z.ltb_spec maxlen 0); [lia|].
  replace (is_null data && (maxlen >? 0)) with false.
  - rewrite E. simpl.
    destruct (Z.gtb_spec (decimal_value ds) maxlen); [|lia].
    rewrite fail_and_close_eq. simpl. by rewrite yak_close_rx.
  - symmetry. apply andb_false_iff.
    destruct Hd as [->| ->]; [by left | by right].
Qed.

Lemma oversized_message_rejected_witness :
  let w := set_rx (ascii "X:5" ++ char_newline :: ascii "hello" ++ [char_newline])
             [RxGive 1; RxGive 2] quiet_world in
  let r := yak_recv_message_in_buffer w (Some open_connection) true
             (Some (ascii "....")) true 4 in
  r_status r = EMSGSIZE /\ yak_is_open (r_conn r) = 0 /\
  r_data r = Some (ascii "....") /\
  r_world r = snd (yak_close (snd (recv_message_info w)) (Some open_connection)) /\
  w_rx_data (r_world r) = ascii "hello" ++ [char_newline].
Proof.
  intros w.
  apply (oversized_message_rejected w open_connection true (Some (ascii "....")) true 4
           "X"%byte (ascii "5") (ascii "hello" ++ [char_newline])).
  - simpl. lia.
  - lia.
  - by left.
  - reflexivity.
  - discriminate.
  - repeat constructor.
  - vm_compute. discriminate.
  - reflexivity.
  - vm_compute. reflexivity.
Defined.

(** C5 as stated fails for a declared length that does not fit a [long].
    The length 9223372036854775808 exceeds a bound of 4, yet the status
    is [EOVERFLOW], not [EMSGSIZE]; and the length 25000000000000000000
    exceeds a bound of [LONG_MAX], yet the wrapped value passes the test
    against the bound and the payload is read from the socket. *)
Lemma oversized_length_beyond_long :
  let ds1 := ascii "9223372036854775808" in
  let ds2 := ascii "25000000000000000000" in
  let w1 := set_rx (header "X" ds1 ++ ascii "hello" ++ [char_newline]) [] quiet_world in
  let w2 := set_rx (header "X" ds2 ++ ascii "hello" ++ [char_newline]) [] quiet_world in
  let r1 := yak_recv_message_in_buffer w1 (Some open_connection) true
              (Some (ascii "....")) true 4 in
  let r2 := yak_recv_message_in_buffer w2 (Some open_connection) true
              (Some (ascii "........")) true LONG_MAX in
  (all_digits ds1 /\ 4 < decimal_value ds1 /\
   r_status r1 = EOVERFLOW /\ EOVERFLOW <> EMSGSIZE) /\
  (all_digits ds2 /\ LONG_MAX < decimal_value ds2 /\
   r_status r2 = EBADMSG /\ EBADMSG <> EMSGSIZE /\
   r_data r2 = Some (ascii "hello" ++ [char_newline] ++ ascii "..") /\
   w_rx_data (r_world r2) = []).
Proof.
  intros ds1 ds2 w1 w2 r1 r2. split.
  - split; [repeat constructor|]. split; [by vm_compute|].
    split; [by vm_compute|discriminate].
  - split; [repeat constructor|]. split; [by vm_compute|].
    split; [by lazy|]. split; [discriminate|]. split; by lazy.
Qed.

(** C3 fails on the code: the twenty digits of 25000000000000000000 exceed
    [LONG_MAX], yet the comparison with the previous value does not fire
    and the decoder succeeds with the wrapped length 6553255926290448384;
    the bounded receive then reports [EMSGSIZE], not [EOVERFLOW]. *)
Theorem length_overflow_undetected :
  let ds := ascii "25000000000000000000" in
  let w := set_rx (header "T"%byte ds) [] quiet_world in
  all_digits ds /\ decimal_value ds = 25000000000000000000 /\
  LONG_MAX < decimal_value ds /\
  fst (recv_message_info w) =
    (0, {| msg_len := 6553255926290448384; msg_type := "T"%byte |}) /\
  r_status (yak_recv_message_in_buffer w (Some open_connection) true
              (Some (ascii "....")) true 4) = EMSGSIZE.
Proof.
  intros ds w. split; [repeat constructor|].
  split; [by vm_compute|]. split; [by vm_compute|].
  split; by vm_compute.
Qed.

(** ** Integer codec *)

Lemma store_app pre x post c :
  store (pre ++ x :: post) (lengthZ pre) c = pre ++ c :: post.
Proof.
  unfold store, lengthZ. rewrite Nat2Z.id.
  rewrite insert_app_r_alt by done. by rewrite Nat.sub_diag.
Qed.

Lemma char_at_app pre x post : char_at (pre ++ x :: post) (lengthZ pre) = x.
Proof.
  unfold char_at, lengthZ. rewrite Nat2Z.id.
  by rewrite list_lookup_middle.
Qed.

Lemma digit_char_is_digit r :
  0 <= r -> is_digit (char_of_Z (Z_of_char char_zero + Z.rem r 10)) = true.
Proof.
  intros Hr. apply is_digit_range.
  pose proof (Z.rem_bound_pos r 10 Hr ltac:(lia)).
  rewrite Z_of_digit_char; lia.
Qed.

Lemma digit_char_val r :
  0 <= r -> digit_val (char_of_Z (Z_of_char char_zero + Z.rem r 10)) = Z.rem r 10.
Proof.
  intros Hr. unfold digit_val.
  pose proof (Z.rem_bound_pos r 10 Hr ltac:(lia)).
  rewrite Z_of_digit_char by lia. change (Z_of_char char_zero) with 48. lia.
Qed.

Lemma digits_lsd_all_digits k : forall r, 0 <= r -> all_digits (digits_lsd k r).
Proof.
  induction k as [|k IH]; intros r Hr; simpl; [constructor|].
  destruct (Z.gtb_spec r 0); [|constructor].
  constructor; [by apply digit_char_is_digit|].
  apply IH. apply Z.quot_pos; lia.
Qed.

Lemma quot_lt_pow r k : 0 <= r < 10 ^ Z.of_nat (S k) -> 0 <= Z.quot r 10 < 10 ^ Z.of_nat k.
Proof.
  intros [H0 H1]. rewrite Nat2Z.inj_succ, Z.pow_succ_r in H1 by lia.
  split; [apply Z.quot_pos; lia|].
  apply Z.quot_lt_upper_bound; lia.
Qed.

Lemma digits_lsd_value k : forall r,
  0 <= r < 10 ^ Z.of_nat k -> lsd_value (digits_lsd k r) = r.
Proof.
  induction k as [|k IH]; intros r Hr.
  - simpl in *. lia.
  - simpl digits_lsd. destruct (Z.gtb_spec r 0); [|simpl; lia].
    simpl. rewrite digit_char_val by lia.
    fold (lsd_value (digits_lsd k (Z.quot r 10))).
    rewrite IH by (by apply quot_lt_pow).
    pose proof (Z.quot_rem' r 10). lia.
Qed.

Lemma digits_lsd_length k : forall r m,
  0 <= r < 10 ^ Z.of_nat m -> (length (digits_lsd k r) <= m)%nat.
Proof.
  induction k as [|k IH]; intros r m Hr; simpl; [lia|].
  destruct (Z.gtb_spec r 0); [|simpl; lia].
  destruct m as [|m]; [simpl in Hr; lia|].
  simpl. apply le_n_S, IH. by apply quot_lt_pow.
Qed.

(** The most significant digit produced is not '0'. *)
Lemma digits_lsd_last k : forall r ds d,
  0 <= r < 10 ^ Z.of_nat k -> digits_lsd k r = ds ++ [d] -> d <> char_zero.
Proof.
  induction k as [|k IH]; intros r ds d Hr E; simpl in E.
  - by destruct ds.
  - destruct (Z.gtb_spec r 0); [|by destruct ds].
    destruct ds as [|d' ds]; simpl in E; inversion E as [[Ed Etl]].
    + (* the only digit: r < 10 *)
      assert (Z.quot r 10 = 0) as Hq.
      { destruct k; simpl in Etl; [|destruct (Z.gtb_spec (Z.quot r 10) 0); [done|]].
        - simpl in Hr. assert (r < 10) by lia. apply Z.quot_small. lia.
        - pose proof (Z.quot_pos r 10). lia. }
      pose proof (Z.quot_rem' r 10) as Hqr. rewrite Hq in Hqr.
      intros Hz. apply (f_equal digit_val) in Hz.
      rewrite digit_char_val in Hz by lia.
      change (digit_val char_zero) with 0 in Hz. lia.
    + eapply IH; [|exact Etl]. by apply quot_lt_pow.
Qed.

Lemma decimal_value_app ds : forall d a,
  fold_left accumulate (ds ++ [d]) a = accumulate (fold_left accumulate ds a) d.
Proof. intros. by rewrite fold_left_app. Qed.

Lemma decimal_value_rev ds : decimal_value (rev ds) = lsd_value ds.
Proof.
  induction ds as [|d ds IH]; [done|].
  simpl. unfold decimal_value in *. rewrite decimal_value_app, IH.
  unfold accumulate. fold (lsd_value ds). lia.
Qed.

Lemma log2_fuel val : 0 <= val -> 0 <= Z.quot val 10 < 10 ^ Z.of_nat (Z.to_nat (Z.log2 val)).
Proof.
  intros Hv. split; [apply Z.quot_pos; lia|].
  pose proof (Z.log2_nonneg val). rewrite Z2Nat.id by done.
  destruct (Z.eq_dec val 0) as [->|Hne]; [done|].
  destruct (Z.log2_spec val ltac:(lia)) as [_ Hlt].
  rewrite Z.pow_succ_r in Hlt by done.
  apply Z.quot_lt_upper_bound; [lia | lia |].
  assert (2 ^ Z.log2 val <= 10 ^ Z.log2 val) by (apply Z.pow_le_mono_l; lia).
  lia.
Qed.

(** [decimal] writes non-negative numbers canonically. *)
Lemma decimal_canonical val : 0 <= val -> canonical_decimal (decimal val) val.
Proof.
  intros Hv. pose proof (log2_fuel val Hv) as Hq.
  set (k := Z.to_nat (Z.log2 val)) in *.
  unfold canonical_decimal, decimal. fold k. split; [|split].
  - apply Forall_rev. constructor; [by apply digit_char_is_digit|].
    apply digits_lsd_all_digits. lia.
  - rewrite decimal_value_rev. simpl.
    fold (lsd_value (digits_lsd k (Z.quot val 10))).
    rewrite digit_char_val, digits_lsd_value by done.
    pose proof (Z.quot_rem' val 10). lia.
  - destruct (digits_lsd k (Z.quot val 10)) as [|x l] eqn:E using rev_ind.
    + simpl. destruct (Z.eq_dec val 0) as [->|Hne]; [by left|]. right.
      eexists _, []. split; [done|].
      assert (Z.quot val 10 = 0) as Hq0.
      { destruct k; simpl in E.
        - simpl in Hq. lia.
        - destruct (Z.gtb_spec (Z.quot val 10) 0); [done|lia]. }
      pose proof (Z.quot_rem' val 10) as Hqr. rewrite Hq0 in Hqr.
      intros Hz. apply (f_equal digit_val) in Hz.
      rewrite digit_char_val in Hz by lia.
      change (digit_val char_zero) with 0 in Hz. lia.
    + right. simpl. rewrite rev_app_distr. simpl.
      eexists _, _. split; [done|].
      by eapply (digits_lsd_last k (Z.quot val 10) l x).
Qed.

Lemma decimal_length val :
  lengthZ (decimal val) =
  1 + lengthZ (digits_lsd (Z.to_nat (Z.log2 val)) (Z.quot val 10)).
Proof.
  unfold decimal, lengthZ. rewrite length_rev. simpl. lia.
Qed.

(** A [long] takes at most 19 digits. *)
Lemma decimal_length_long val :
  0 <= val <= LONG_MAX -> 1 <= lengthZ (decimal val) <= 19.
Proof.
  intros [H0 H1]. rewrite decimal_length.
  pose proof (digits_lsd_length (Z.to_nat (Z.log2 val)) (Z.quot val 10) 18) as H.
  unfold lengthZ. split; [lia|].
  assert (0 <= Z.quot val 10 < 10 ^ Z.of_nat 18); [|lia].
  split; [apply Z.quot_pos; lia|].
  apply Z.quot_lt_upper_bound; [lia | lia |].
  unfold LONG_MAX in H1. simpl. lia.
Qed.

(** The digit loop writes [digits_lsd] after what is already there. *)
Lemma print_digits_spec k : forall r fuel pre post len i,
  0 <= r < 10 ^ Z.of_nat k ->
  lengthZ pre = i + 1 ->
  i + lengthZ (digits_lsd k r) < len ->
  (length (digits_lsd k r) <= length post)%nat ->
  (length (digits_lsd k r) <= fuel)%nat ->
  print_digits fuel (pre ++ post) len i r =
    (Some (i + lengthZ (digits_lsd k r)),
     pre ++ digits_lsd k r ++ drop (length (digits_lsd k r)) post).
Proof.
  induction k as [|k IH]; intros r fuel pre post len i Hr Hpre Hlen Hpost Hfuel.
  - simpl in Hr. assert (r = 0) as -> by lia.
    destruct fuel; simpl; by rewrite Z.add_0_r.
  - simpl digits_lsd in *. destruct (Z.gtb_spec r 0) as [Hpos|Hz].
    + simpl in Hfuel, Hpost. unfold lengthZ in Hlen. simpl length in Hlen.
      destruct fuel as [|fuel]; [lia|].
      destruct post as [|x post]; [simpl in Hpost; lia|].
      simpl. destruct (Z.gtb_spec r 0); [|lia].
      destruct (Z.geb_spec (i + 1) len); [lia|].
      rewrite <- Hpre, store_app.
      replace (pre ++ char_of_Z (Z_of_char char_zero + Z.rem r 10) :: post)
        with ((pre ++ [char_of_Z (Z_of_char char_zero + Z.rem r 10)]) ++ post)
        by (by rewrite <- app_assoc).
      rewrite (IH (Z.quot r 10) fuel _ post len (lengthZ pre)).
      * rewrite <- app_assoc. simpl. f_equal. f_equal.
        unfold lengthZ in *. cbn [length]. lia.
      * by apply quot_lt_pow.
      * rewrite lengthZ_app. change (lengthZ [_]) with 1. lia.
      * unfold lengthZ in *. lia.
      * simpl in Hpost. lia.
      * lia.
    + assert (r = 0) as -> by lia.
      destruct fuel; simpl; by rewrite Z.add_0_r.
Qed.

(** The swap loop reverses the stretch between [j] and [i]. *)
Lemma reverse_digits_spec fuel : forall pre mid post,
  (length mid <= S fuel)%nat ->
  reverse_digits fuel (pre ++ mid ++ post) (lengthZ pre)
    (lengthZ pre + lengthZ mid - 1) = pre ++ rev mid ++ post.
Proof.
  assert (forall (mid : list byte), (length mid <= 1)%nat -> rev mid = mid) as Hsmall.
  { intros [|a [|b mid]]; simpl; try done. lia. }
  induction fuel as [|fuel IH]; intros pre mid post Hmid.
  - simpl. by rewrite Hsmall.
  - simpl. destruct (Z.ltb_spec (lengthZ pre) (lengthZ pre + lengthZ mid - 1)) as [Hlt|Hge];
      [|rewrite Hsmall; [done | unfold lengthZ in Hge; lia]].
    destruct mid as [|a mid]; [unfold lengthZ in Hlt; simpl in Hlt; lia|].
    destruct mid as [|b mid _] using rev_ind;
      [unfold lengthZ in Hlt; simpl in Hlt; lia|].
    assert (lengthZ pre + lengthZ (a :: mid ++ [b]) - 1 = lengthZ (pre ++ a :: mid)) as Ei.
    { unfold lengthZ. simpl. rewrite !length_app. simpl. lia. }
    rewrite Ei.
    set (buf := pre ++ (a :: mid ++ [b]) ++ post).
    assert (buf = (pre ++ a :: mid) ++ b :: post) as E1.
    { subst buf. simpl. by repeat (rewrite <- app_assoc; simpl). }
    assert (buf = pre ++ a :: (mid ++ b :: post)) as E2.
    { subst buf. simpl. by repeat (rewrite <- app_assoc; simpl). }
    assert (char_at buf (lengthZ pre) = a) as -> by (rewrite E2; apply char_at_app).
    assert (char_at buf (lengthZ (pre ++ a :: mid)) = b) as ->
      by (rewrite E1; apply char_at_app).
    assert (store buf (lengthZ (pre ++ a :: mid)) a = pre ++ a :: (mid ++ a :: post))
      as ->.
    { rewrite E1, store_app, <- app_assoc. done. }
    rewrite store_app.
    replace (pre ++ b :: mid ++ a :: post) with ((pre ++ [b]) ++ mid ++ a :: post)
      by (by rewrite <- app_assoc).
    replace (lengthZ pre + 1) with (lengthZ (pre ++ [b]))
      by (unfold lengthZ; rewrite length_app; simpl; lia).
    replace (lengthZ (pre ++ a :: mid) - 1)
      with (lengthZ (pre ++ [b]) + lengthZ mid - 1)
      by (unfold lengthZ; rewrite !length_app; simpl; lia).
    rewrite IH.
    + change (rev (a :: mid ++ [b])) with (rev (mid ++ [b]) ++ [a]).
      rewrite rev_app_distr. simpl. by repeat (rewrite <- app_assoc; simpl).
    + simpl in Hmid. rewrite length_app in Hmid. simpl in Hmid. lia.
Qed.

(** [print_integer] on a non-negative number and a large enough buffer:
    the numeral, a terminating NUL, and the rest of the buffer as it was. *)
Lemma print_integer_nonneg buf len val :
  0 <= val -> lengthZ (decimal val) < len -> len <= lengthZ buf ->
  print_integer buf len val =
    (lengthZ (decimal val),
     decimal val ++ char_nul :: drop (S (length (decimal val))) buf).
Proof.
  intros Hv Hlen Hbuf. pose proof (log2_fuel val Hv) as Hq.
  rewrite decimal_length in Hlen. unfold decimal.
  set (k := Z.to_nat (Z.log2 val)) in *.
  set (lsd := digits_lsd k (Z.quot val 10)) in *.
  set (d0 := char_of_Z (Z_of_char char_zero + Z.rem val 10)).
  pose proof (lengthZ_nonneg lsd) as Hl.
  unfold print_integer.
  destruct (Z.geb_spec val 0); [|lia].
  destruct (Z.ltb_spec len 2); [lia|].
  destruct buf as [|x0 post]; [unfold lengthZ in Hbuf; simpl in Hbuf; lia|].
  fold d0. change (store (x0 :: post) 0 d0) with ([d0] ++ post).
  assert (lengthZ (x0 :: post) = 1 + lengthZ post) as Hxp
    by (unfold lengthZ; simpl; lia).
  rewrite (print_digits_spec k (Z.quot val 10) (Z.to_nat len) [d0] post len 0);
    try done; fold lsd; unfold lengthZ in *; try lia.
  rewrite Z.add_0_l.
  destruct (Z.geb_spec (Z.of_nat (length lsd) + 1) len); [lia|].
  assert (exists x, drop (length lsd) post = x :: drop (S (length lsd)) post)
    as [x Hx].
  { destruct (post !! length lsd) as [x|] eqn:E.
    - exists x. by apply drop_S.
    - apply lookup_ge_None in E. lia. }
  rewrite Hx.
  replace ([d0] ++ lsd ++ x :: drop (S (length lsd)) post)
    with (([d0] ++ lsd) ++ x :: drop (S (length lsd)) post)
    by (by rewrite <- app_assoc).
  replace (Z.of_nat (length lsd) + 1) with (lengthZ ([d0] ++ lsd))
    by (unfold lengthZ; simpl; lia).
  rewrite store_app.
  pose proof (reverse_digits_spec (Z.to_nat (Z.of_nat (length lsd) - 0)) []
                (d0 :: lsd) (char_nul :: drop (S (length lsd)) post)) as Hrev.
  simpl app in Hrev. change (lengthZ []) with 0 in Hrev.
  replace (0 + lengthZ (d0 :: lsd) - 1) with (Z.of_nat (length lsd)) in Hrev
    by (unfold lengthZ; simpl; lia).
  change (([d0] ++ lsd) ++ char_nul :: drop (S (length lsd)) post)
    with (d0 :: lsd ++ char_nul :: drop (S (length lsd)) post).
  rewrite Hrev by (simpl; lia).
  f_equal.
  - unfold lengthZ. rewrite length_rev. simpl. lia.
  - rewrite length_rev. simpl. done.
Qed.

Lemma header_digits_decimal n :
  0 <= n <= LONG_MAX -> header_digits n = decimal n.
Proof.
  intros Hn. pose proof (decimal_length_long n Hn).
  unfold header_digits.
  rewrite print_integer_nonneg; [apply takeZ_app_length | lia | lia |].
  unfold lengthZ. rewrite length_replicate. lia.
Qed.

(** ** Sending over a socket *)

Lemma takeZ_own_length {A} (l : list A) m : takeZ (lengthZ (takeZ m l)) l = takeZ m l.
Proof.
  rewrite !takeZ_take. unfold lengthZ. rewrite Nat2Z.id, length_take.
  destruct (Nat.le_gt_cases (Z.to_nat m) (length l)).
  - by rewrite Nat.min_l.
  - rewrite Nat.min_r by lia. by rewrite !take_ge by lia.
Qed.

Lemma takeZ_more {A} (l : list A) a b :
  0 <= a -> 0 <= b -> takeZ a l ++ takeZ b (dropZ a l) = takeZ (a + b) l.
Proof.
  intros. rewrite !takeZ_take, dropZ_drop, take_then_more. f_equal. lia.
Qed.

Lemma dropZ_more {A} (l : list A) a b :
  0 <= a -> 0 <= b -> dropZ b (dropZ a l) = dropZ (a + b) l.
Proof.
  intros. rewrite !dropZ_drop, drop_drop. f_equal. lia.
Qed.

(** Whatever the socket does, a count returned by [send_data] is the
    number of bytes of [data] that went on the wire, in order. *)
Lemma send_data_loop_wire fuel : forall w data off len n w',
  0 <= off ->
  send_data_loop fuel w data off len = (n, w') -> 0 <= n ->
  off <= n /\ w_wire w' = w_wire w ++ takeZ (n - off) (dropZ off data).
Proof.
  induction fuel as [|fuel IH]; intros w data off len n w' Hoff H Hn; simpl in H.
  - inversion H; subst. rewrite Z.sub_diag. simpl.
    rewrite takeZ_nonpos, app_nil_r by lia. split; [lia | done].
  - destruct (Z.gtb_spec len 0).
    + unfold sys_send in H.
      assert (forall m sch,
        (let '(n0, w0) :=
           (lengthZ (takeZ m (dropZ off data)),
            set_tx sch (w_wire w ++ takeZ m (dropZ off data)) w) in
         if n0 <? 0 then (-1, w0)
         else if n0 =? 0 then (off, w0)
         else send_data_loop fuel w0 data (off + n0) (len - n0)) = (n, w') ->
        off <= n /\ w_wire w' = w_wire w ++ takeZ (n - off) (dropZ off data)) as Hacc.
      { intros m sch Hm. cbv beta iota zeta in Hm.
        set (bs := takeZ m (dropZ off data)) in *.
        pose proof (lengthZ_nonneg bs) as Hbs.
        destruct (Z.ltb_spec (lengthZ bs) 0); [lia|].
        destruct (Z.eqb_spec (lengthZ bs) 0) as [E0|E0].
        - inversion Hm; subst n w'. simpl.
          assert (bs = []) as -> by (destruct bs; [done|discriminate]).
          rewrite Z.sub_diag, takeZ_nonpos by lia. split; [lia|done].
        - apply IH in Hm as [Hle Hwire]; [|lia|done]. split; [lia|].
          rewrite Hwire. simpl. rewrite <- app_assoc. f_equal.
          rewrite <- (dropZ_more data off (lengthZ bs)) by lia.
          replace (n - off) with (lengthZ bs + (n - (off + lengthZ bs))) by lia.
          rewrite <- takeZ_more by lia. f_equal.
          subst bs. apply eq_sym, takeZ_own_length. }
      destruct (w_tx_sched w) as [|[k| |e] sch].
      * by apply (Hacc len []).
      * by apply (Hacc (Z.min len (Z.pos k)) sch).
      * simpl in H. inversion H; subst. simpl.
        rewrite Z.sub_diag, takeZ_nonpos, app_nil_r by lia. split; [lia|done].
      * simpl in H. inversion H; subst. lia.
    + inversion H; subst. rewrite Z.sub_diag.
      rewrite takeZ_nonpos, app_nil_r by lia. split; [lia | done].
Qed.

(** A complete [send_data] put exactly the bytes asked for on the wire. *)
Lemma send_data_complete w bs pad n w' :
  send_data w (bs ++ pad) (lengthZ bs) = (n, w') -> n = lengthZ bs ->
  w_wire w' = w_wire w ++ bs.
Proof.
  intros H ->. unfold send_data in H.
  apply send_data_loop_wire in H as [_ H]; [|lia|apply lengthZ_nonneg].
  rewrite H, Z.sub_0_r. rewrite (dropZ_nonpos _ 0) by lia.
  by rewrite takeZ_app_length.
Qed.

(** Without transport faults everything asked for is sent. *)
Lemma send_data_loop_reliable fuel : forall w data off len,
  tx_reliable w -> 0 <= off -> 0 <= len -> off + len <= lengthZ data ->
  (Z.to_nat len <= fuel)%nat ->
  exists sch, forallb tx_ok sch = true /\
    send_data_loop fuel w data off len =
      (off + len, set_tx sch (w_wire w ++ takeZ len (dropZ off data)) w).
Proof.
  assert (forall w off len data, len = 0 ->
            (off, w) = (off + len,
                        set_tx (w_tx_sched w) (w_wire w ++ takeZ len (dropZ off data)) w))
    as Hdone.
  { intros w off len data ->.
    by rewrite Z.add_0_r, takeZ_nonpos, app_nil_r, set_tx_same by lia. }
  induction fuel as [|fuel IH]; intros w data off len Hw Hoff Hlen Hdata Hfuel; simpl.
  - exists (w_tx_sched w). split; [done|]. apply Hdone. lia.
  - destruct (Z.gtb_spec len 0) as [Hpos|];
      [|exists (w_tx_sched w); split; [done|]; apply Hdone; lia].
    unfold sys_send.
    assert (forall m sch0, 0 < m <= len -> forallb tx_ok sch0 = true ->
      exists sch, forallb tx_ok sch = true /\
        (let '(n0, w0) :=
           (lengthZ (takeZ m (dropZ off data)),
            set_tx sch0 (w_wire w ++ takeZ m (dropZ off data)) w) in
         if n0 <? 0 then (-1, w0)
         else if n0 =? 0 then (off, w0)
         else send_data_loop fuel w0 data (off + n0) (len - n0)) =
        (off + len, set_tx sch (w_wire w ++ takeZ len (dropZ off data)) w)) as Hacc.
    { intros m sch0 Hm Hsch0. cbv beta iota zeta.
      assert (lengthZ (takeZ m (dropZ off data)) = m) as Em.
      { rewrite takeZ_take, dropZ_drop. unfold lengthZ in *.
        rewrite length_take, length_drop. lia. }
      rewrite Em.
      destruct (Z.ltb_spec m 0); [lia|]. destruct (Z.eqb_spec m 0); [lia|].
      destruct (IH (set_tx sch0 (w_wire w ++ takeZ m (dropZ off data)) w)
                  data (off + m) (len - m)) as (sch & Hs & ->);
        [done | lia | lia | lia | lia |].
      exists sch. split; [done|].
      assert (takeZ m (dropZ off data) ++ takeZ (len - m) (dropZ (off + m) data) =
              takeZ len (dropZ off data)) as Et.
      { rewrite <- (dropZ_more data off m) by lia.
        replace len with (m + (len - m)) at 2 by lia.
        by rewrite <- takeZ_more by lia. }
      replace (off + m + (len - m)) with (off + len) by lia.
      unfold set_tx. simpl. by rewrite <- app_assoc, Et. }
    unfold tx_reliable in Hw.
    destruct (w_tx_sched w) as [|[k| |e] sch0]; simpl in Hw; try done.
    + apply Hacc; [lia|done].
    + apply Hacc; [lia|done].
Qed.

Lemma send_data_reliable w bs pad :
  tx_reliable w ->
  exists sch, forallb tx_ok sch = true /\
    send_data w (bs ++ pad) (lengthZ bs) = (lengthZ bs, set_tx sch (w_wire w ++ bs) w).
Proof.
  intros Hw. unfold send_data.
  destruct (send_data_loop_reliable (Z.to_nat (lengthZ bs)) w (bs ++ pad) 0 (lengthZ bs))
    as (sch & Hs & ->); try done.
  - apply lengthZ_nonneg.
  - rewrite lengthZ_app. pose proof (lengthZ_nonneg pad). lia.
  - exists sch. split; [done|].
    by rewrite (dropZ_nonpos _ 0), takeZ_app_length by lia.
Qed.

(** ** Encoding a frame *)

Lemma get_errno_nonzero w def : def <> 0 -> get_errno w def <> 0.
Proof. unfold get_errno. by destruct (Z.eqb_spec (w_errno w) 0). Qed.

Lemma lengthZ_header t ds : lengthZ (header t ds) = lengthZ ds + 3.
Proof.
  unfold header, lengthZ. simpl. rewrite length_app. simpl. lia.
Qed.

(** The header buffer once the newline and the NUL are stored. *)
Lemma header_buffer t len :
  0 <= len <= LONG_MAX ->
  exists pad,
    store (store ([t; char_colon] ++ decimal len ++
                    char_nul :: drop (S (length (decimal len))) (replicate 30 char_nul))
             (lengthZ (decimal len) + 2) char_newline)
      (lengthZ (decimal len) + 3) char_nul =
    header t (decimal len) ++ pad.
Proof.
  intros Hlen. pose proof (decimal_length_long len Hlen) as Hd.
  set (ds := decimal len) in *.
  assert (exists x R, drop (S (length ds)) (replicate 30 char_nul) = x :: R)
    as (x & R & ->).
  { destruct (drop (S (length ds)) (replicate 30 char_nul)) as [|x R] eqn:E; [|eauto].
    apply (f_equal length) in E. rewrite length_drop, length_replicate in E.
    unfold lengthZ in Hd. simpl in E. lia. }
  exists (char_nul :: R).
  replace ([t; char_colon] ++ ds ++ char_nul :: x :: R)
    with (([t; char_colon] ++ ds) ++ char_nul :: x :: R)
    by (by rewrite <- app_assoc).
  replace (lengthZ ds + 2) with (lengthZ ([t; char_colon] ++ ds))
    by (rewrite lengthZ_app; unfold lengthZ; simpl; lia).
  rewrite store_app.
  replace (([t; char_colon] ++ ds) ++ char_newline :: x :: R)
    with (header t ds ++ x :: R)
    by (unfold header; simpl; by rewrite <- app_assoc).
  replace (lengthZ ds + 3) with (lengthZ (header t ds))
    by apply lengthZ_header.
  by rewrite store_app.
Qed.

(** [yak_send_message] with valid arguments, reduced to its three sends. *)
Lemma yak_send_message_sends w c t data :
  let p := default [] data in
  0 <= sock c -> lengthZ p <= LONG_MAX ->
  exists pad,
    yak_send_message w (Some c) t data (lengthZ p) =
      let hdr := header t (decimal (lengthZ p)) in
      let '(nbytes, w) := send_data w (hdr ++ pad) (lengthZ hdr) in
      if negb (nbytes =? lengthZ hdr) then
        fail_and_close (get_errno w (if nbytes <? 0 then EIO else ECONNRESET)) w (Some c)
      else
        let '(failed, w) :=
          if lengthZ p >? 0 then
            let '(nbytes, w) := send_data w p (lengthZ p) in
            if negb (nbytes =? lengthZ p) then
              (Some (get_errno w (if nbytes <? 0 then EIO else ECONNRESET)), w)
            else (None, w)
          else (None, w) in
        match failed with
        | Some status => fail_and_close status w (Some c)
        | None =>
          let '(nbytes, w) := send_data w [char_newline] 1 in
          if negb (nbytes =? 1) then
            fail_and_close (get_errno w (if nbytes <? 0 then EIO else ECONNRESET)) w (Some c)
          else (0, Some c, w)
        end.
Proof.
  intros p Hc Hlen. pose proof (lengthZ_nonneg p) as Hp.
  pose proof (decimal_length_long (lengthZ p) ltac:(lia)) as Hd.
  destruct (header_buffer t (lengthZ p) ltac:(lia)) as [pad Hpad].
  exists pad. unfold yak_send_message.
  destruct (Z.ltb_spec (sock c) 0); [lia|].
  destruct (Z.ltb_spec (lengthZ p) 0); [lia|].
  replace (is_null data && (lengthZ p >? 0)) with false
    by (subst p; by destruct data).
  change (drop 2 (store (store (replicate 32 char_nul) 0 t) 1 char_colon))
    with (replicate 30 char_nul).
  change (take 2 (store (store (replicate 32 char_nul) 0 t) 1 char_colon))
    with [t; char_colon].
  change (32 - 2) with 30.
  rewrite print_integer_nonneg;
    [| lia | lia | unfold lengthZ; rewrite length_replicate; lia].
  destruct (Z.ltb_spec (lengthZ (decimal (lengthZ p))) 0); [lia|].
  destruct (Z.geb_spec (lengthZ (decimal (lengthZ p)) + 3) 32); [lia|].
  simpl orb. cbv iota. rewrite Hpad, lengthZ_header.
  fold p. done.
Qed.

(** A successful [yak_send_message] has put one frame on the wire,
    however the socket chopped the three writes. *)
Lemma yak_send_message_success_wire w c t data conn' w' :
  let p := default [] data in
  0 <= sock c -> lengthZ p <= LONG_MAX ->
  yak_send_message w (Some c) t data (lengthZ p) = (0, conn', w') ->
  conn' = Some c /\ w_wire w' = w_wire w ++ frame t (decimal (lengthZ p)) p.
Proof.
  intros p Hc Hlen H.
  destruct (yak_send_message_sends w c t data Hc Hlen) as [pad E].
  fold p in E. rewrite E in H. clear E. cbv zeta in H.
  assert (forall e wx, get_errno wx e <> 0 ->
            fail_and_close (get_errno wx e) wx (Some c) = (0, conn', w') -> False)
    as Hfail.
  { intros e wx Hne Hf. rewrite fail_and_close_eq in Hf. inversion Hf. lia. }
  assert (forall n, (if n <? 0 then EIO else ECONNRESET) <> 0) as Hcode
    by (intros n; by destruct (n <? 0)).
  destruct (send_data w _ _) as [n1 w1] eqn:E1.
  destruct (Z.eqb_spec n1 (lengthZ (header t (decimal (lengthZ p))))) as [En1|];
    simpl negb in H; cbv iota in H;
    [|exfalso; eapply Hfail; [|exact H]; by apply get_errno_nonzero].
  apply send_data_complete in E1; [|done].
  assert (exists w2, w_wire w2 = w_wire w1 ++ p /\
            (let '(nbytes, w) := send_data w2 [char_newline] 1 in
             if negb (nbytes =? 1)
             then fail_and_close
                    (get_errno w (if nbytes <? 0 then EIO else ECONNRESET)) w (Some c)
             else (0, Some c, w)) = (0, conn', w')) as (w2 & Hw2 & H2).
  { destruct (Z.gtb_spec (lengthZ p) 0) as [Hpos|Hz].
    - destruct (send_data w1 p (lengthZ p)) as [n2 w2] eqn:E2.
      destruct (Z.eqb_spec n2 (lengthZ p)) as [En2|]; simpl negb in H; cbv iota in H.
      + exists w2. split; [|done].
        rewrite <- (app_nil_r p) in E2 at 1.
        by apply send_data_complete in E2.
      + rewrite fail_and_close_eq in H. inversion H as [[Hs Hcn Hww]].
        exfalso. revert Hs. by apply get_errno_nonzero.
    - exists w1. split; [|done].
      assert (p = []) as -> by (destruct p; [done | unfold lengthZ in Hz; simpl in Hz; lia]).
      by rewrite app_nil_r. }
  destruct (send_data w2 [char_newline] 1) as [n3 w3] eqn:E3.
  destruct (Z.eqb_spec n3 1) as [En3|]; simpl negb in H2; cbv iota in H2;
    [|exfalso; eapply Hfail; [|exact H2]; by apply get_errno_nonzero].
  inversion H2; subst conn' w'. split; [done|].
  change [char_newline] with ([char_newline] ++ []) in E3.
  change 1 with (lengthZ [char_newline]) in E3.
  apply send_data_complete in E3; [|done].
  rewrite E3, Hw2, E1. unfold frame, header.
  by repeat (rewrite <- app_assoc; simpl).
Qed.

(** Without transport faults [yak_send_message] succeeds. *)
Lemma yak_send_message_reliable w c t data :
  let p := default [] data in
  0 <= sock c -> lengthZ p <= LONG_MAX -> tx_reliable w ->
  exists sch, forallb tx_ok sch = true /\
    yak_send_message w (Some c) t data (lengthZ p) =
      (0, Some c, set_tx sch (w_wire w ++ frame t (decimal (lengthZ p)) p) w).
Proof.
  intros p Hc Hlen Hw.
  destruct (yak_send_message_sends w c t data Hc Hlen) as [pad E].
  fold p in E. rewrite E. clear E. cbv zeta.
  destruct (send_data_reliable w (header t (decimal (lengthZ p))) pad Hw)
    as (sch1 & Hs1 & ->).
  rewrite Z.eqb_refl. simpl negb. cbv iota.
  set (w1 := set_tx sch1 (w_wire w ++ header t (decimal (lengthZ p))) w).
  assert (exists sch2, forallb tx_ok sch2 = true /\
    (if lengthZ p >? 0
     then
       let '(nbytes, w0) := send_data w1 p (lengthZ p) in
       if negb (nbytes =? lengthZ p)
       then (Some (get_errno w0 (if nbytes <? 0 then EIO else ECONNRESET)), w0)
       else (None, w0)
     else (None, w1)) = (None, set_tx sch2 (w_wire w1 ++ p) w1))
    as (sch2 & Hs2 & ->).
  { destruct (Z.gtb_spec (lengthZ p) 0) as [Hpos|Hz].
    - destruct (send_data_reliable w1 p [] Hs1) as (sch2 & Hs2 & E2).
      rewrite app_nil_r in E2. rewrite E2, Z.eqb_refl. by exists sch2.
    - exists sch1. split; [done|].
      assert (p = []) as -> by (destruct p; [done | unfold lengthZ in Hz; simpl in Hz; lia]).
      by rewrite app_nil_r. }
  set (w2 := set_tx sch2 (w_wire w1 ++ p) w1).
  destruct (send_data_reliable w2 [char_newline] [] Hs2) as (sch3 & Hs3 & E3).
  change ([char_newline] ++ []) with [char_newline] in E3.
  change (lengthZ [char_newline]) with 1 in E3. rewrite E3.
  exists sch3. split; [done|]. simpl. unfold set_tx, frame, header. simpl.
  by repeat (rewrite <- app_assoc; simpl).
Qed.

(** C6: [yak_send_message] emits the type byte, ':', the decimal length
    with no leading zero, '\n', the payload and a final '\n', also when the
    payload is empty: whenever it returns 0 the wire has grown by exactly
    that frame, and without transport faults it does return 0.  For 'X'
    and "ping" the frame is "X:4\nping\n", for 'A' and an empty payload it
    is "A:0\n\n". *)
Theorem yak_send_message_frame w c t data :
  let p := default [] data in
  let ds := header_digits (lengthZ p) in
  0 <= sock c -> lengthZ p <= LONG_MAX ->
  canonical_decimal ds (lengthZ p) /\
  (forall conn' w',
     yak_send_message w (Some c) t data (lengthZ p) = (0, conn', w') ->
     conn' = Some c /\ w_wire w' = w_wire w ++ frame t ds p) /\
  (tx_reliable w ->
   exists w',
     yak_send_message w (Some c) t data (lengthZ p) = (0, Some c, w') /\
     w_wire w' = w_wire w ++ frame t ds p) /\
  frame "X"%byte (header_digits 4) (ascii "ping") =
    ascii "X:4" ++ char_newline :: ascii "ping" ++ [char_newline] /\
  frame "A"%byte (header_digits 0) [] = ascii "A:0" ++ [char_newline; char_newline].
Proof.
  intros p ds Hc Hlen. pose proof (lengthZ_nonneg p) as Hp.
  subst ds. rewrite header_digits_decimal by lia.
  split; [apply decimal_canonical; lia|].
  split; [|split; [|split; reflexivity]].
  - intros conn' w' H. by apply (yak_send_message_success_wire w c t data).
  - intros Hw.
    destruct (yak_send_message_reliable w c t data Hc Hlen Hw) as (sch & _ & E).
    fold p in E. rewrite E. eauto.
Qed.

Lemma yak_send_message_frame_witness :
  exists w',
    yak_send_message (set_tx [TxTake 2; TxTake 1] [] quiet_world) (Some open_connection)
      "X"%byte (Some (ascii "ping")) 4 = (0, Some open_connection, w') /\
    w_wire w' = ascii "X:4" ++ char_newline :: ascii "ping" ++ [char_newline].
Proof.
  refine (proj1 (proj2 (proj2
            (yak_send_message_frame (set_tx [TxTake 2; TxTake 1] [] quiet_world)
               open_connection "X"%byte (Some (ascii "ping")) _ _))) _).
  - simpl. lia.
  - vm_compute. discriminate.
  - reflexivity.
Defined.

(** ** Decoding a frame *)

(** The payload and its trailer are there: both are read. *)
Lemma recv_message_data_payload w p rest :
  rx_reliable w -> w_rx_data w = p ++ char_newline :: rest ->
  exists sch, forallb rx_ok sch = true /\
    recv_message_data w (lengthZ p) = (0, p, set_rx rest sch w).
Proof.
  intros Hw Hdata. unfold recv_message_data.
  assert (forall w1 sch1, forallb rx_ok sch1 = true ->
    w1 = set_rx (char_newline :: rest) sch1 w ->
    exists sch, forallb rx_ok sch = true /\
      (let '(nbytes, buf, w0) := recv_data w1 1 in
       if negb (nbytes =? 1)
       then (if nbytes <? 0 then get_errno w0 EIO else EBADMSG, p, w0)
       else if negb (char_eqb (char_at buf 0) char_newline)
            then (EBADMSG, p, w0) else (0, p, w0)) = (0, p, set_rx rest sch w))
    as Htrailer.
  { intros w1 sch1 Hs1 ->.
    destruct (recv_data_exact (set_rx (char_newline :: rest) sch1 w)
                [char_newline] rest Hs1 eq_refl) as (sch & Hs & E).
    change (lengthZ [char_newline]) with 1 in E. rewrite E. simpl.
    by exists sch. }
  destruct (Z.gtb_spec (lengthZ p) 0) as [Hpos|Hz].
  - destruct (recv_data_exact w p (char_newline :: rest) Hw Hdata) as (sch1 & Hs1 & ->).
    rewrite Z.eqb_refl. simpl negb. cbv iota. by apply (Htrailer _ sch1).
  - assert (p = []) as -> by (destruct p; [done | unfold lengthZ in Hz; simpl in Hz; lia]).
    apply (Htrailer w (w_rx_sched w)); [done|].
    simpl in Hdata. rewrite <- Hdata. by rewrite set_rx_same.
Qed.

Lemma frame_split t ds p rest :
  frame t ds p ++ rest = header t ds ++ p ++ char_newline :: rest.
Proof.
  unfold frame, header. simpl. by repeat (rewrite <- app_assoc; simpl).
Qed.

(** The decoder proper on one frame: header, then payload and trailer. *)
Lemma decode_frame w t ds p rest :
  rx_reliable w ->
  ds <> [] -> all_digits ds -> decimal_value ds = lengthZ p -> lengthZ p <= LONG_MAX ->
  w_rx_data w = frame t ds p ++ rest ->
  exists w1 w2,
    recv_message_info w = (0, {| msg_len := lengthZ p; msg_type := t |}, w1) /\
    recv_message_data w1 (lengthZ p) = (0, p, w2) /\
    w_rx_data w2 = rest.
Proof.
  intros Hw Hne Hds Hval Hmax Hdata. rewrite frame_split in Hdata.
  destruct (recv_message_info_header w t ds _ Hw Hdata Hne Hds ltac:(lia))
    as (sch1 & Hs1 & E1). rewrite Hval in E1.
  destruct (recv_message_data_payload (set_rx (p ++ char_newline :: rest) sch1 w)
              p rest Hs1 eq_refl) as (sch2 & Hs2 & E2).
  eexists _, _. split; [exact E1|]. split; [exact E2|]. done.
Qed.

Lemma sys_alloc_ok w :
  alloc_ok w ->
  exists s, sys_alloc w = (true, set_alloc s w).
Proof.
  unfold alloc_ok, sys_alloc. destruct (w_alloc w) as [|e s] eqn:E; simpl.
  - intros _. exists []. f_equal. destruct w; simpl in *. by subst.
  - intros ->. by exists s.
Qed.

(** The allocating receive on one frame.  An empty payload is returned
    as a [NULL] buffer of length 0, and its trailer is left unread. *)
Lemma yak_recv_message_frame w c type len t ds p rest :
  0 <= sock c -> rx_reliable w -> alloc_ok w ->
  ds <> [] -> all_digits ds -> decimal_value ds = lengthZ p -> lengthZ p <= LONG_MAX ->
  w_rx_data w = frame t ds p ++ rest ->
  let r := yak_recv_message w (Some c) type true len in
  r_status r = 0 /\ r_conn r = Some c /\
  r_type r = out type t /\ r_len r = out len (lengthZ p) /\
  r_data r = Some (if lengthZ p >? 0 then Some p else None) /\
  w_rx_data (r_world r) = (if lengthZ p >? 0 then rest else char_newline :: rest).
Proof.
  intros Hc Hw Ha Hne Hds Hval Hmax Hdata r. subst r.
  rewrite frame_split in Hdata.
  destruct (recv_message_info_header w t ds _ Hw Hdata Hne Hds ltac:(lia))
    as (sch1 & Hs1 & E1). rewrite Hval in E1.
  unfold yak_recv_message. simpl negb. cbv iota.
  destruct (Z.ltb_spec (sock c) 0); [lia|]. rewrite E1. simpl.
  destruct (Z.gtb_spec (lengthZ p) 0) as [Hpos|Hz].
  2: { assert (p = []) as ->
         by (destruct p; [done | unfold lengthZ in Hz; simpl in Hz; lia]).
       done. }
  destruct (sys_alloc_ok (set_rx (p ++ char_newline :: rest) sch1 w))
    as [s ->]; [done|]. simpl negb. cbv iota.
  destruct (recv_message_data_payload
              (set_alloc s (set_rx (p ++ char_newline :: rest) sch1 w))
              p rest Hs1 eq_refl) as (sch2 & Hs2 & ->).
  done.
Qed.

(** C1: what [yak_send_message] put on the wire for type [t] and payload
    [p] (possibly empty) decodes to [t] and [p]: fed to a receiver, the
    bytes make [yak_recv_message] return 0 with type [t], length [|p|]
    and a buffer holding [p] ([NULL] when [p] is empty), and
    [recv_message_info] followed by [recv_message_data] returns [t], [|p|]
    and [p] and consumes exactly the frame. *)
Theorem send_receive_round_trip ws cs t data cs' ws' wr cr type len rest :
  let p := default [] data in
  0 <= sock cs -> lengthZ p <= LONG_MAX ->
  yak_send_message ws (Some cs) t data (lengthZ p) = (0, cs', ws') ->
  0 <= sock cr -> rx_reliable wr -> alloc_ok wr ->
  w_rx_data wr = dropZ (lengthZ (w_wire ws)) (w_wire ws') ++ rest ->
  (let r := yak_recv_message wr (Some cr) type true len in
   r_status r = 0 /\ r_conn r = Some cr /\
   r_type r = out type t /\ r_len r = out len (lengthZ p) /\
   r_data r = Some (if lengthZ p >? 0 then Some p else None) /\
   default [] (default None (r_data r)) = p) /\
  (exists w1 w2,
     recv_message_info wr = (0, {| msg_len := lengthZ p; msg_type := t |}, w1) /\
     recv_message_data w1 (lengthZ p) = (0, p, w2) /\
     w_rx_data w2 = rest).
Proof.
  intros p Hcs Hlen Hsend Hcr Hw Ha Hdata.
  pose proof (lengthZ_nonneg p) as Hp.
  apply (yak_send_message_success_wire ws cs t data) in Hsend as [_ Hwire];
    [|done|done].
  fold p in Hwire. rewrite Hwire, dropZ_app_length in Hdata.
  destruct (decimal_canonical (lengthZ p) Hp) as (Hds & Hval & _).
  assert (decimal (lengthZ p) <> []) as Hne.
  { pose proof (decimal_length_long (lengthZ p) ltac:(lia)) as Hd.
    intros E. rewrite E in Hd. unfold lengthZ in Hd. simpl in Hd. lia. }
  split.
  - destruct (yak_recv_message_frame wr cr type len t _ p rest
                Hcr Hw Ha Hne Hds Hval Hlen Hdata) as (H1 & H2 & H3 & H4 & H5 & _).
    repeat split; try done. rewrite H5. simpl.
    destruct (Z.gtb_spec (lengthZ p) 0) as [|Hz]; [done|].
    destruct p; [done | unfold lengthZ in Hz; simpl in Hz; lia].
  - by apply (decode_frame wr t (decimal (lengthZ p)) p rest).
Qed.

Lemma send_receive_round_trip_witness :
  let ws := set_tx [TxTake 2; TxTake 1] [] quiet_world in
  let ws' := snd (yak_send_message ws (Some open_connection) "X"%byte
                    (Some (ascii "ping")) 4) in
  let wr := set_rx (w_wire ws') [RxGive 3; RxGive 3; RxGive 1] quiet_world in
  let r := yak_recv_message wr (Some open_connection) true true true in
  r_status r = 0 /\ r_type r = Some "X"%byte /\ r_len r = Some 4 /\
  r_data r = Some (Some (ascii "ping")).
Proof.
  intros ws ws' wr.
  destruct (send_receive_round_trip ws open_connection "X"%byte (Some (ascii "ping"))
              (Some open_connection) ws' wr open_connection true true [])
    as [(H1 & _ & H3 & H4 & H5 & _) _].
  - simpl. lia.
  - vm_compute. discriminate.
  - reflexivity.
  - simpl. lia.
  - reflexivity.
  - reflexivity.
  - reflexivity.
  - repeat split; assumption.
Defined.

(** The bounded receive on one frame that fits: the payload overwrites
    the start of the caller's buffer and the whole frame is consumed. *)
Lemma yak_recv_message_in_buffer_frame w c type buf len maxlen t ds p rest :
  0 <= sock c -> rx_reliable w ->
  ds <> [] -> all_digits ds -> decimal_value ds = lengthZ p ->
  lengthZ p <= maxlen -> maxlen <= LONG_MAX ->
  w_rx_data w = frame t ds p ++ rest ->
  let r := yak_recv_message_in_buffer w (Some c) type (Some buf) len maxlen in
  r_status r = 0 /\ r_conn r = Some c /\
  r_type r = out type t /\ r_len r = out len (lengthZ p) /\
  r_data r = Some (overwrite buf p) /\
  w_rx_data (r_world r) = rest.
Proof.
  intros Hc Hw Hne Hds Hval Hfit Hmax Hdata r. subst r.
  pose proof (lengthZ_nonneg p) as Hp.
  destruct (decode_frame w t ds p rest Hw Hne Hds Hval ltac:(lia) Hdata)
    as (w1 & w2 & E1 & E2 & Hrest).
  unfold yak_recv_message_in_buffer.
  destruct (Z.ltb_spec (sock c) 0); [lia|].
  destruct (Z.ltb_spec maxlen 0); [lia|].
  simpl andb. cbv iota. rewrite E1. simpl.
  destruct (Z.gtb_spec (lengthZ p) maxlen); [lia|].
  rewrite E2. simpl. done.
Qed.

(** ** The loop counters are never exhausted *)

Lemma takeZ_dropZ {A} (l : list A) n : takeZ n l ++ dropZ n l = l.
Proof. rewrite takeZ_take, dropZ_drop. apply take_drop. Qed.

Lemma recv_data_loop_fuel fuel : forall w got len,
  (Z.to_nat len <= fuel)%nat ->
  recv_data_loop (S fuel) w got len = recv_data_loop fuel w got len.
Proof.
  induction fuel as [|fuel IH]; intros w got len Hfuel.
  - simpl. destruct (Z.gtb_spec len 0); [lia|done].
  - change (recv_data_loop (S (S fuel)) w got len)
      with (if len >? 0 then
              let '(n, bs, w) := sys_recv w len in
              if n <? 0 then (-1, got, w)
              else if n =? 0 then (lengthZ got, got, w)
              else recv_data_loop (S fuel) w (got ++ bs) (len - n)
            else (lengthZ got, got, w)).
    simpl. destruct (len >? 0); [|done].
    destruct (sys_recv w len) as [[n bs] w1].
    destruct (Z.ltb_spec n 0); [done|]. destruct (Z.eqb_spec n 0); [done|].
    apply IH. lia.
Qed.

Lemma send_data_loop_fuel fuel : forall w data off len,
  (Z.to_nat len <= fuel)%nat ->
  send_data_loop (S fuel) w data off len = send_data_loop fuel w data off len.
Proof.
  induction fuel as [|fuel IH]; intros w data off len Hfuel.
  - simpl. destruct (Z.gtb_spec len 0); [lia|done].
  - change (send_data_loop (S (S fuel)) w data off len)
      with (if len >? 0 then
              let '(n, w) := sys_send w (dropZ off data) len in
              if n <? 0 then (-1, w)
              else if n =? 0 then (off, w)
              else send_data_loop (S fuel) w data (off + n) (len - n)
            else (off, w)).
    simpl. destruct (len >? 0); [|done].
    destruct (sys_send w (dropZ off data) len) as [n w1].
    destruct (Z.ltb_spec n 0); [done|]. destruct (Z.eqb_spec n 0); [done|].
    apply IH. lia.
Qed.

(** Whatever the socket does, the bytes [recv_data] stored are the next
    bytes of the stream, and the stream goes on after them. *)
Lemma recv_data_loop_prefix fuel : forall w got len n bs w',
  recv_data_loop fuel w got len = (n, bs, w') ->
  exists new, bs = got ++ new /\ w_rx_data w = new ++ w_rx_data w' /\
              (n = -1 \/ n = lengthZ bs).
Proof.
  assert (forall w got, exists new : list byte,
            got = got ++ new /\ w_rx_data w = new ++ w_rx_data w /\
            (lengthZ got = -1 \/ lengthZ got = lengthZ got)) as Hdone.
  { intros w got. exists []. by rewrite app_nil_r; auto. }
  induction fuel as [|fuel IH]; intros w got len n bs w' H; simpl in H.
  - inversion H; subst. apply Hdone.
  - destruct (len >? 0); [|inversion H; subst; apply Hdone].
    unfold sys_recv in H.
    assert (forall m sch,
      (let '(n0, bs0, w0) :=
         (lengthZ (takeZ m (w_rx_data w)), takeZ m (w_rx_data w),
          set_rx (dropZ m (w_rx_data w)) sch w) in
       if n0 <? 0 then (-1, got, w0)
       else if n0 =? 0 then (lengthZ got, got, w0)
       else recv_data_loop fuel w0 (got ++ bs0) (len - n0)) = (n, bs, w') ->
      exists new, bs = got ++ new /\ w_rx_data w = new ++ w_rx_data w' /\
                  (n = -1 \/ n = lengthZ bs)) as Hacc.
    { intros m sch Hm. cbv beta iota zeta in Hm.
      pose proof (takeZ_dropZ (w_rx_data w) m) as Hsplit.
      set (bs1 := takeZ m (w_rx_data w)) in *.
      pose proof (lengthZ_nonneg bs1).
      destruct (Z.ltb_spec (lengthZ bs1) 0); [lia|].
      destruct (Z.eqb_spec (lengthZ bs1) 0) as [E0|E0].
      - inversion Hm; subst n bs w'. exists []. rewrite app_nil_r. simpl.
        assert (bs1 = []) as Hnil by (destruct bs1; [done|discriminate]).
        rewrite Hnil in Hsplit. auto.
      - apply IH in Hm as (new & -> & Hrx & Hn). exists (bs1 ++ new).
        simpl in Hrx. split; [by rewrite <- app_assoc|]. split; [|done].
        by rewrite <- app_assoc, <- Hrx. }
    destruct (w_rx_sched w) as [|[k|e] sch].
    + by apply (Hacc len []).
    + by apply (Hacc (Z.min len (Z.pos k)) sch).
    + simpl in H. inversion H; subst. exists []. rewrite app_nil_r. auto.
Qed.

Lemma recv_message_info_loop_fuel fuel : forall w len c,
  (length (w_rx_data w) < fuel)%nat ->
  recv_message_info_loop (S fuel) w len c = recv_message_info_loop fuel w len c.
Proof.
  induction fuel as [|fuel IH]; intros w len c Hfuel; [lia|].
  change (recv_message_info_loop (S (S fuel)) w len c)
    with (if char_eqb c char_newline then (0, len, w)
          else if is_digit c then
            let prev := len in
            let len := wrap_long ((Z_of_char c - Z_of_char char_zero)
                                  + wrap_long (10 * len)) in
            if len <? prev then (EOVERFLOW, len, w)
            else
              let '(nbytes, buf, w) := recv_data w 1 in
              if negb (nbytes =? 1) then
                (if nbytes <? 0 then get_errno w EIO else EBADMSG, len, w)
              else recv_message_info_loop (S fuel) w len (char_at buf 0)
          else (EBADMSG, len, w)).
  change (recv_message_info_loop (S fuel) w len c)
    with (if char_eqb c char_newline then (0, len, w)
          else if is_digit c then
            let prev := len in
            let len := wrap_long ((Z_of_char c - Z_of_char char_zero)
                                  + wrap_long (10 * len)) in
            if len <? prev then (EOVERFLOW, len, w)
            else
              let '(nbytes, buf, w) := recv_data w 1 in
              if negb (nbytes =? 1) then
                (if nbytes <? 0 then get_errno w EIO else EBADMSG, len, w)
              else recv_message_info_loop fuel w len (char_at buf 0)
          else (EBADMSG, len, w)).
  destruct (char_eqb c char_newline); [done|]. destruct (is_digit c); [|done].
  cbv zeta. destruct (_ <? len); [done|].
  destruct (recv_data w 1) as [[n bs] w1] eqn:E.
  destruct (Z.eqb_spec n 1) as [->|]; [|done]. simpl negb. cbv iota.
  apply IH. unfold recv_data in E.
  apply recv_data_loop_prefix in E as (new & -> & Hrx & Hn).
  rewrite Hrx, length_app in Hfuel. simpl in Hn.
  destruct Hn as [|Hn]; [lia|]. unfold lengthZ in Hn. lia.
Qed.

Lemma print_digits_fuel fuel : forall buf len i r,
  (Z.to_nat (len - i - 1) <= fuel)%nat ->
  print_digits (S fuel) buf len i r = print_digits fuel buf len i r.
Proof.
  induction fuel as [|fuel IH]; intros buf len i r Hfuel.
  - simpl. destruct (r >? 0); [|done]. destruct (Z.geb_spec (i + 1) len); [done|lia].
  - change (print_digits (S (S fuel)) buf len i r)
      with (if r >? 0 then
              if i + 1 >=? len then (None, buf)
              else print_digits (S fuel)
                     (store buf (i + 1) (char_of_Z (Z_of_char char_zero + Z.rem r 10)))
                     len (i + 1) (Z.quot r 10)
            else (Some i, buf)).
    simpl. destruct (r >? 0); [|done]. destruct (Z.geb_spec (i + 1) len); [done|].
    apply IH. lia.
Qed.

Lemma reverse_digits_fuel fuel : forall buf j i,
  (Z.to_nat (i - j) <= fuel)%nat ->
  reverse_digits (S fuel) buf j i = reverse_digits fuel buf j i.
Proof.
  induction fuel as [|fuel IH]; intros buf j i Hfuel.
  - simpl. destruct (Z.ltb_spec j i); [lia|done].
  - change (reverse_digits (S (S fuel)) buf j i)
      with (if j <? i then
              reverse_digits (S fuel)
                (store (store buf i (char_at buf j)) j (char_at buf i)) (j + 1) (i - 1)
            else buf).
    simpl. destruct (Z.ltb_spec j i); [|done]. apply IH. lia.
Qed.

(** * Further properties of the code *)

(** ** [print_integer] *)

(** A complete run of the digit loop wrote every digit of [r]. *)
Lemma print_digits_some k : forall r fuel buf len i i' buf',
  0 <= r < 10 ^ Z.of_nat k ->
  print_digits fuel buf len i r = (Some i', buf') ->
  i' = i + lengthZ (digits_lsd k r).
Proof.
  induction k as [|k IH]; intros r fuel buf len i i' buf' Hr H.
  - simpl in Hr. assert (r = 0) as -> by lia.
    destruct fuel; simpl in H; inversion H; simpl; unfold lengthZ; simpl; lia.
  - simpl digits_lsd. destruct fuel as [|fuel]; simpl in H.
    + destruct (Z.gtb_spec r 0); [done|]. inversion H. unfold lengthZ. simpl. lia.
    + destruct (Z.gtb_spec r 0); [|inversion H; unfold lengthZ; simpl; lia].
      destruct (i + 1 >=? len); [done|].
      apply (IH (Z.quot r 10)) in H; [|by apply quot_lt_pow].
      unfold lengthZ in *. simpl length. lia.
Qed.

(** X1: for a non-negative value and a buffer with room for the digits
    and a NUL, [print_integer] returns the number of digits and leaves in
    the buffer the canonical decimal numeral (all digits, the right value,
    no leading zero), a terminating NUL, and the rest of the buffer as it
    was. *)
Theorem print_integer_writes_numeral buf len val :
  0 <= val -> lengthZ (decimal val) < len -> len <= lengthZ buf ->
  canonical_decimal (decimal val) val /\
  print_integer buf len val =
    (lengthZ (decimal val),
     decimal val ++ char_nul :: drop (S (length (decimal val))) buf).
Proof.
  intros Hv Hlen Hbuf. split; [by apply decimal_canonical|].
  by apply print_integer_nonneg.
Qed.

Lemma print_integer_writes_numeral_witness :
  canonical_decimal (decimal 65535) 65535 /\
  print_integer (replicate 8 char_nul) 8 65535 =
    (5, ascii "65535" ++ [char_nul; char_nul; char_nul]).
Proof.
  apply (print_integer_writes_numeral (replicate 8 char_nul) 8 65535).
  - lia.
  - vm_compute. reflexivity.
  - vm_compute. discriminate.
Defined.

(** X2: [print_integer] fails, returning -1, exactly when the digits of a
    non-negative value and the terminating NUL do not fit in [len]
    characters. *)
Theorem print_integer_fails_iff_too_long buf len val :
  0 <= val -> len <= lengthZ buf ->
  (fst (print_integer buf len val) = -1 <-> len <= lengthZ (decimal val)).
Proof.
  intros Hv Hbuf. split.
  - intros Hfail. destruct (Z.le_gt_cases len (lengthZ (decimal val))); [done|].
    rewrite print_integer_nonneg in Hfail by lia. simpl in Hfail.
    pose proof (lengthZ_nonneg (decimal val)). lia.
  - intros Hlong. pose proof (log2_fuel val Hv) as Hq.
    rewrite decimal_length in Hlong.
    unfold print_integer. destruct (Z.geb_spec val 0); [|lia].
    destruct (Z.ltb_spec len 2); [done|].
    destruct (print_digits _ _ _ _ _) as [[i|] buf2] eqn:E; [|done].
    apply (print_digits_some (Z.to_nat (Z.log2 val))) in E; [|done].
    destruct (Z.geb_spec (i + 1) len); [done|]. lia.
Qed.

Lemma print_integer_fails_iff_too_long_witness :
  fst (print_integer (replicate 8 char_nul) 8 12345678) = -1 <->
  8 <= lengthZ (decimal 12345678).
Proof.
  apply (print_integer_fails_iff_too_long (replicate 8 char_nul) 8 12345678).
  - lia.
  - vm_compute. discriminate.
Defined.

(** X3: for a negative [long], the most negative one included,
    [print_integer] writes a minus sign and the numeral of the absolute
    value, without ever negating the value itself: the quotient it
    negates fits a [long]. *)
Theorem print_integer_negative buf len val :
  LONG_MIN <= val < 0 ->
  1 + lengthZ (decimal (- val)) < len -> len <= lengthZ buf ->
  0 <= - Z.quot val 10 <= LONG_MAX /\
  print_integer buf len val =
    (1 + lengthZ (decimal (- val)),
     char_minus :: decimal (- val) ++
       char_nul :: drop (S (S (length (decimal (- val))))) buf).
Proof.
  intros Hv Hlen Hbuf.
  assert (0 <= - val) as Hpos by lia.
  pose proof (log2_fuel (- val) Hpos) as Hq.
  rewrite Z.quot_opp_l in Hq by lia.
  split.
  { unfold LONG_MIN, LONG_MAX in *. split; [lia|].
    assert (Z.quot (- val) 10 < 2 ^ 63) as Hlt
      by (apply Z.quot_lt_upper_bound; lia).
    rewrite Z.quot_opp_l in Hlt by lia. lia. }
  rewrite decimal_length in Hlen. unfold decimal.
  rewrite Z.quot_opp_l in Hlen by lia.
  rewrite Z.quot_opp_l, Z.rem_opp_l by lia.
  set (k := Z.to_nat (Z.log2 (- val))) in *.
  set (lsd := digits_lsd k (- Z.quot val 10)) in *.
  pose proof (lengthZ_nonneg lsd) as Hl.
  unfold print_integer.
  destruct (Z.geb_spec val 0); [lia|].
  destruct (Z.ltb_spec len 3); [lia|].
  replace (Z_of_char char_zero - Z.rem val 10)
    with (Z_of_char char_zero + - Z.rem val 10) by lia.
  set (d0 := char_of_Z (Z_of_char char_zero + - Z.rem val 10)).
  destruct buf as [|x0 [|x1 post]];
    [unfold lengthZ in Hbuf; simpl in Hbuf; lia
    |unfold lengthZ in Hbuf; simpl in Hbuf; lia|].
  change (store (store (x0 :: x1 :: post) 0 char_minus) 1 d0)
    with ([char_minus; d0] ++ post).
  assert (lengthZ (x0 :: x1 :: post) = 2 + lengthZ post) as Hxp
    by (unfold lengthZ; simpl; lia).
  rewrite (print_digits_spec k (- Z.quot val 10) (Z.to_nat len)
             [char_minus; d0] post len 1);
    try done; fold lsd; unfold lengthZ in *; try lia.
  destruct (Z.geb_spec (1 + Z.of_nat (length lsd) + 1) len); [lia|].
  assert (exists x, drop (length lsd) post = x :: drop (S (length lsd)) post)
    as [x Hx].
  { destruct (post !! length lsd) as [x|] eqn:E.
    - exists x. by apply drop_S.
    - apply lookup_ge_None in E. lia. }
  rewrite Hx.
  replace ([char_minus; d0] ++ lsd ++ x :: drop (S (length lsd)) post)
    with (([char_minus; d0] ++ lsd) ++ x :: drop (S (length lsd)) post)
    by (by rewrite <- app_assoc).
  replace (1 + Z.of_nat (length lsd) + 1) with (lengthZ ([char_minus; d0] ++ lsd))
    by (unfold lengthZ; simpl; lia).
  rewrite store_app.
  pose proof (reverse_digits_spec (Z.to_nat (1 + Z.of_nat (length lsd) - 1))
                [char_minus] (d0 :: lsd)
                (char_nul :: drop (S (length lsd)) post)) as Hrev.
  change (lengthZ [char_minus]) with 1 in Hrev.
  replace (1 + lengthZ (d0 :: lsd) - 1) with (1 + Z.of_nat (length lsd)) in Hrev
    by (unfold lengthZ; simpl; lia).
  change (([char_minus; d0] ++ lsd) ++ char_nul :: drop (S (length lsd)) post)
    with ([char_minus] ++ (d0 :: lsd) ++ char_nul :: drop (S (length lsd)) post).
  rewrite Hrev by (simpl; lia).
  f_equal.
  - unfold lengthZ. rewrite length_rev. simpl. lia.
  - rewrite length_rev. simpl. done.
Qed.

Lemma print_integer_negative_witness :
  0 <= - Z.quot LONG_MIN 10 <= LONG_MAX /\
  print_integer (replicate 24 char_nul) 24 LONG_MIN =
    (20, ascii "-9223372036854775808" ++ replicate 4 char_nul).
Proof.
  apply (print_integer_negative (replicate 24 char_nul) 24 LONG_MIN).
  - unfold LONG_MIN. lia.
  - vm_compute. reflexivity.
  - vm_compute. discriminate.
Defined.

(** ** [recv_data] and [send_data] on any socket *)

Lemma recv_data_loop_bound fuel : forall w got len n bs w',
  recv_data_loop fuel w got len = (n, bs, w') ->
  lengthZ bs <= lengthZ got + Z.max 0 len.
Proof.
  induction fuel as [|fuel IH]; intros w got len n bs w' H; simpl in H.
  - inversion H; subst. lia.
  - destruct (Z.gtb_spec len 0); [|inversion H; subst; lia].
    unfold sys_recv in H.
    assert (forall m sch, m <= len ->
      (let '(n0, bs0, w0) :=
         (lengthZ (takeZ m (w_rx_data w)), takeZ m (w_rx_data w),
          set_rx (dropZ m (w_rx_data w)) sch w) in
       if n0 <? 0 then (-1, got, w0)
       else if n0 =? 0 then (lengthZ got, got, w0)
       else recv_data_loop fuel w0 (got ++ bs0) (len - n0)) = (n, bs, w') ->
      lengthZ bs <= lengthZ got + Z.max 0 len) as Hacc.
    { intros m sch Hm Hr. cbv beta iota zeta in Hr.
      assert (lengthZ (takeZ m (w_rx_data w)) <= Z.max 0 m) as Hb.
      { rewrite takeZ_take. unfold lengthZ. rewrite length_take. lia. }
      destruct (_ <? 0); [inversion Hr; subst; lia|].
      destruct (_ =? 0); [inversion Hr; subst; lia|].
      apply IH in Hr. rewrite lengthZ_app in Hr. lia. }
    destruct (w_rx_sched w) as [|[k|e] sch].
    + by apply (Hacc len []).
    + apply (Hacc (Z.min len (Z.pos k)) sch); [lia|done].
    + simpl in H. inversion H; subst. lia.
Qed.

(** X4: whatever the socket does, [recv_data] returns -1 or the number of
    bytes it stored; it never stores more than [len] bytes; the bytes
    stored are the next bytes of the incoming stream, in order, and the
    rest of the stream is still pending. *)
Theorem recv_data_takes_a_prefix w len :
  let '(n, bs, w') := recv_data w len in
  (n = -1 \/ n = lengthZ bs) /\
  lengthZ bs <= Z.max 0 len /\
  w_rx_data w = bs ++ w_rx_data w'.
Proof.
  destruct (recv_data w len) as [[n bs] w'] eqn:E. unfold recv_data in E.
  pose proof (recv_data_loop_bound _ _ _ _ _ _ _ E) as Hb.
  apply recv_data_loop_prefix in E as (new & -> & Hrx & Hn).
  change (lengthZ []) with 0 in Hb. simpl in *. repeat split; [done | lia | done].
Qed.

(** X5: on a socket without transport faults, however it chops the
    stream, [recv_data] returns exactly the smaller of [len] and the
    number of bytes the peer sent before closing, so a short count means
    the peer has closed. *)
Theorem recv_data_short_means_closed w len :
  rx_reliable w -> 0 <= len ->
  let '(n, bs, w') := recv_data w len in
  n = Z.min len (lengthZ (w_rx_data w)) /\
  bs = takeZ len (w_rx_data w) /\
  w_rx_data w' = dropZ len (w_rx_data w) /\
  (n < len -> w_rx_data w' = []) /\
  rx_reliable w'.
Proof.
  intros Hw Hlen. destruct (recv_data_reliable w len Hw) as (sch & Hs & ->).
  assert (lengthZ (takeZ len (w_rx_data w)) = Z.min len (lengthZ (w_rx_data w))) as E.
  { rewrite takeZ_take. unfold lengthZ. rewrite length_take. lia. }
  rewrite E. repeat split; try done.
  simpl. intros Hshort. rewrite dropZ_drop. apply drop_ge. unfold lengthZ in *. lia.
Qed.

Lemma recv_data_short_means_closed_witness :
  let w := set_rx (ascii "abc") [RxGive 2; RxGive 5] quiet_world in
  let '(n, bs, w') := recv_data w 4 in
  n = Z.min 4 (lengthZ (w_rx_data w)) /\
  bs = takeZ 4 (w_rx_data w) /\
  w_rx_data w' = dropZ 4 (w_rx_data w) /\
  (n < 4 -> w_rx_data w' = []) /\
  rx_reliable w'.
Proof.
  intros w.
  apply (recv_data_short_means_closed w 4); [reflexivity | lia].
Defined.

Lemma send_data_loop_sent fuel : forall w data off len n w',
  0 <= off ->
  send_data_loop fuel w data off len = (n, w') ->
  exists k, 0 <= k <= Z.max 0 len /\
    w_wire w' = w_wire w ++ takeZ k (dropZ off data) /\
    w_rx_data w' = w_rx_data w /\ w_rx_sched w' = w_rx_sched w /\
    w_trace w' = w_trace w /\ w_close w' = w_close w /\
    (n = -1 \/ (n = off + lengthZ (takeZ k (dropZ off data)) /\
                (n < off + len -> n = off + k))).
Proof.
  assert (forall w off len data, 0 <= off ->
    exists k, 0 <= k <= Z.max 0 len /\
      w_wire w = w_wire w ++ takeZ k (dropZ off data) /\
      w_rx_data w = w_rx_data w /\ w_rx_sched w = w_rx_sched w /\
      w_trace w = w_trace w /\ w_close w = w_close w /\
      (off = -1 \/ (off = off + lengthZ (takeZ k (dropZ off data)) /\
                    (off < off + len -> off = off + k)))) as Hdone.
  { intros w off len data Hoff. exists 0. rewrite takeZ_nonpos, app_nil_r by lia.
    repeat split; try done; try lia. all: right; change (lengthZ []) with 0; lia. }
  induction fuel as [|fuel IH]; intros w data off len n w' Hoff H; simpl in H.
  - inversion H; subst. by apply Hdone.
  - destruct (Z.gtb_spec len 0) as [Hpos|]; [|inversion H; subst; by apply Hdone].
    unfold sys_send in H.
    assert (forall m sch, 0 < m <= len ->
      (let '(n0, w0) :=
         (lengthZ (takeZ m (dropZ off data)),
          set_tx sch (w_wire w ++ takeZ m (dropZ off data)) w) in
       if n0 <? 0 then (-1, w0)
       else if n0 =? 0 then (off, w0)
       else send_data_loop fuel w0 data (off + n0) (len - n0)) = (n, w') ->
      exists k, 0 <= k <= Z.max 0 len /\
        w_wire w' = w_wire w ++ takeZ k (dropZ off data) /\
        w_rx_data w' = w_rx_data w /\ w_rx_sched w' = w_rx_sched w /\
        w_trace w' = w_trace w /\ w_close w' = w_close w /\
        (n = -1 \/ (n = off + lengthZ (takeZ k (dropZ off data)) /\
                    (n < off + len -> n = off + k)))) as Hacc.
    { intros m sch Hm Hr. cbv beta iota zeta in Hr.
      set (bs := takeZ m (dropZ off data)) in *.
      pose proof (lengthZ_nonneg bs) as Hbs.
      assert (lengthZ bs <= m) as Hbm.
      { subst bs. rewrite takeZ_take. unfold lengthZ. rewrite length_take. lia. }
      destruct (Z.ltb_spec (lengthZ bs) 0); [lia|].
      destruct (Z.eqb_spec (lengthZ bs) 0) as [E0|E0].
      - inversion Hr; subst n w'. exists 0. simpl.
        assert (bs = []) as -> by (destruct bs; [done|discriminate]).
        rewrite takeZ_nonpos by lia. repeat split; try done; try lia.
        all: right; change (lengthZ []) with 0; lia.
      - apply IH in Hr as (k & Hk & Hwire & Hrd & Hrs & Htr & Hcl & Hn); [|lia].
        exists (lengthZ bs + k). simpl in *.
        assert (takeZ (lengthZ bs + k) (dropZ off data) =
                bs ++ takeZ k (dropZ (off + lengthZ bs) data)) as Et.
        { rewrite <- (dropZ_more data off (lengthZ bs)) by lia.
          rewrite <- takeZ_more by lia. f_equal.
          subst bs. apply takeZ_own_length. }
        repeat split; try done; try lia.
        + by rewrite Hwire, Et, <- app_assoc.
        + destruct Hn as [|[Hn1 Hn2]]; [by left|]. right.
          rewrite Et, lengthZ_app. split; lia. }
    destruct (w_tx_sched w) as [|[k| |e] sch].
    + apply (Hacc len []); [lia|done].
    + apply (Hacc (Z.min len (Z.pos k)) sch); [lia|done].
    + simpl in H. inversion H; subst. exists 0.
      rewrite takeZ_nonpos, app_nil_r by lia. simpl.
      repeat split; try done; try lia.
      all: right; change (lengthZ []) with 0; lia.
    + simpl in H. inversion H; subst. exists 0.
      rewrite takeZ_nonpos, app_nil_r by lia. simpl.
      repeat split; try done; try lia. all: by left.
Qed.

(** X6: whatever the socket does, [send_data] puts on the wire a prefix
    of [data] no longer than [len], in order and without gaps; when it
    does not return -1 the count it returns is the number of bytes put on
    the wire; and it touches neither the incoming stream nor the trace. *)
Theorem send_data_sends_a_prefix w data len :
  let '(n, w') := send_data w data len in
  exists sent,
    w_wire w' = w_wire w ++ sent /\
    sent = takeZ (lengthZ sent) data /\ lengthZ sent <= Z.max 0 len /\
    (n = -1 \/ n = lengthZ sent) /\
    w_rx_data w' = w_rx_data w /\ w_trace w' = w_trace w.
Proof.
  destruct (send_data w data len) as [n w'] eqn:E. unfold send_data in E.
  apply send_data_loop_sent in E as (k & Hk & Hwire & Hrd & _ & Htr & _ & Hn); [|lia].
  rewrite (dropZ_nonpos _ 0) in * by lia.
  exists (takeZ k data). repeat split; try done.
  - symmetry. apply takeZ_own_length.
  - rewrite takeZ_take. unfold lengthZ. rewrite length_take. lia.
  - destruct Hn as [|[Hn _]]; [by left | right; lia].
Qed.

(** ** [yak_send_message] on any socket *)

(** [yak_close] only makes a [close] call: the data streams are as before. *)
Lemma yak_close_frame w conn :
  w_rx_data (snd (yak_close w conn)) = w_rx_data w /\
  w_rx_sched (snd (yak_close w conn)) = w_rx_sched w /\
  w_tx_sched (snd (yak_close w conn)) = w_tx_sched w /\
  w_wire (snd (yak_close w conn)) = w_wire w.
Proof.
  destruct conn as [c|]; [|done].
  destruct (Z.lt_ge_cases (sock c) 0).
  - by rewrite yak_close_closed.
  - rewrite yak_close_open by done. simpl. unfold sys_close.
    destruct (w_close _) as [|e s]; [|destruct (e =? 0)]; done.
Qed.

Lemma yak_close_trace w c :
  0 <= sock c ->
  w_trace (snd (yak_close w (Some c))) = w_trace w ++ [SysClose (sock c)].
Proof.
  intros Hc. rewrite yak_close_open by done. simpl. unfold sys_close.
  destruct (w_close _) as [|e s]; [|destruct (e =? 0)]; done.
Qed.

Lemma send_data_sent w data len n w' :
  send_data w data len = (n, w') ->
  exists sent,
    w_wire w' = w_wire w ++ sent /\
    sent = takeZ (lengthZ sent) data /\ lengthZ sent <= Z.max 0 len /\
    (n = -1 \/ n = lengthZ sent).
Proof.
  intros E. unfold send_data in E.
  apply send_data_loop_sent in E as (k & Hk & Hwire & _ & _ & _ & _ & Hn); [|lia].
  rewrite (dropZ_nonpos _ 0) in * by lia.
  exists (takeZ k data). repeat split; try done.
  - symmetry. apply takeZ_own_length.
  - rewrite takeZ_take. unfold lengthZ. rewrite length_take. lia.
  - destruct Hn as [|[Hn _]]; [by left | right; lia].
Qed.

Lemma takeZ_prefix {A} (l : list A) k : takeZ k l `prefix_of` l.
Proof. exists (dropZ k l). by rewrite takeZ_dropZ. Qed.

Lemma takeZ_app_prefix {A} (l pad : list A) k :
  k <= lengthZ l -> takeZ k (l ++ pad) `prefix_of` l.
Proof.
  intros Hk. rewrite takeZ_take, take_app_le by (unfold lengthZ in Hk; lia).
  rewrite <- takeZ_take. apply takeZ_prefix.
Qed.

(** X7: whatever the socket does and whether it succeeds or fails,
    [yak_send_message] with valid arguments puts on the wire nothing but
    a prefix of the frame of the message. *)
Theorem yak_send_message_sends_frame_prefix w c t data :
  let p := default [] data in
  0 <= sock c -> lengthZ p <= LONG_MAX ->
  exists sent,
    w_wire (snd (yak_send_message w (Some c) t data (lengthZ p))) = w_wire w ++ sent /\
    sent `prefix_of` frame t (header_digits (lengthZ p)) p.
Proof.
  intros p Hc Hlen. pose proof (lengthZ_nonneg p) as Hp.
  rewrite header_digits_decimal by lia.
  destruct (yak_send_message_sends w c t data Hc Hlen) as [pad E].
  fold p in E. rewrite E. clear E. cbv zeta.
  set (hdr := header t (decimal (lengthZ p))).
  assert (frame t (decimal (lengthZ p)) p = hdr ++ p ++ [char_newline]) as Hframe.
  { unfold frame, hdr, header. simpl. by repeat (rewrite <- app_assoc; simpl). }
  rewrite Hframe.
  assert (forall s wx, w_wire (snd (fail_and_close s wx (Some c))) = w_wire wx) as Hfc.
  { intros s wx. rewrite fail_and_close_eq. simpl. apply yak_close_frame. }
  destruct (send_data w (hdr ++ pad) (lengthZ hdr)) as [n1 w1] eqn:E1.
  apply send_data_sent in E1 as (s1 & Hw1 & Hs1 & Hl1 & Hn1).
  rewrite Z.max_r in Hl1 by apply lengthZ_nonneg.
  destruct (Z.eqb_spec n1 (lengthZ hdr)) as [En1|]; simpl negb; cbv iota.
  2: { exists s1. rewrite Hfc. split; [done|].
       rewrite Hs1. apply prefix_app_r. by apply takeZ_app_prefix. }
  assert (s1 = hdr) as ->.
  { destruct Hn1 as [|Hn1]; [pose proof (lengthZ_nonneg hdr); lia|].
    rewrite Hs1, <- Hn1, En1. apply takeZ_app_length. }
  assert (forall w2, w_wire w2 = w_wire w ++ hdr ++ p ->
    exists sent,
      w_wire (snd (let '(nbytes, w0) := send_data w2 [char_newline] 1 in
                   if negb (nbytes =? 1)
                   then fail_and_close
                          (get_errno w0 (if nbytes <? 0 then EIO else ECONNRESET))
                          w0 (Some c)
                   else (0, Some c, w0))) = w_wire w ++ sent /\
      sent `prefix_of` hdr ++ p ++ [char_newline]) as Htrailer.
  { intros w2 Hw2.
    destruct (send_data w2 [char_newline] 1) as [n3 w3] eqn:E3.
    apply send_data_sent in E3 as (s3 & Hw3 & Hs3 & Hl3 & Hn3).
    exists (hdr ++ p ++ s3). split.
    - destruct (negb (n3 =? 1)); [rewrite Hfc|cbn [snd]];
        by rewrite Hw3, Hw2, <- !app_assoc.
    - do 2 apply prefix_app. rewrite Hs3. apply takeZ_prefix. }
  destruct (Z.gtb_spec (lengthZ p) 0) as [Hpos|Hz].
  - destruct (send_data w1 p (lengthZ p)) as [n2 w2] eqn:E2.
    apply send_data_sent in E2 as (s2 & Hw2 & Hs2 & Hl2 & Hn2).
    destruct (Z.eqb_spec n2 (lengthZ p)) as [En2|]; simpl negb; cbv iota.
    + assert (s2 = p) as ->.
      { destruct Hn2 as [|Hn2]; [lia|].
        rewrite Hs2, <- Hn2, En2. rewrite <- (app_nil_r p) at 2.
        apply takeZ_app_length. }
      apply Htrailer. by rewrite Hw2, Hw1, <- app_assoc.
    + exists (hdr ++ s2). rewrite Hfc, Hw2, Hw1, <- app_assoc. split; [done|].
      apply prefix_app, prefix_app_r. rewrite Hs2. apply takeZ_prefix.
  - assert (p = []) as Hnil
      by (destruct p; [done | unfold lengthZ in Hz; simpl in Hz; lia]).
    apply Htrailer. by rewrite Hw1, Hnil, app_nil_r.
Qed.

Lemma yak_send_message_sends_frame_prefix_witness :
  let w := set_tx [TxTake 2; TxTake 3; TxStall] [] quiet_world in
  exists sent,
    w_wire (snd (yak_send_message w (Some open_connection) "X"%byte
                   (Some (ascii "ping")) 4)) = w_wire w ++ sent /\
    sent `prefix_of` frame "X"%byte (header_digits 4) (ascii "ping").
Proof.
  intros w.
  apply (yak_send_message_sends_frame_prefix w open_connection "X"%byte
           (Some (ascii "ping"))).
  - simpl. lia.
  - vm_compute. discriminate.
Defined.

(** X8: on a non-[NULL] connection [yak_send_message] either returns 0
    and leaves the connection, which was open, exactly as it was, or
    returns a nonzero code and leaves the connection not open. *)
Theorem yak_send_message_keeps_or_closes w c type data len :
  let '(s, conn', w') := yak_send_message w (Some c) type data len in
  (s = 0 -> conn' = Some c /\ yak_is_open (Some c) = 1) /\
  (s <> 0 -> yak_is_open conn' = 0).
Proof.
  destruct (yak_send_message w (Some c) type data len) as [[s conn'] w'] eqn:E.
  split; [|by apply (yak_send_message_error_closes w c type data len s conn' w')].
  intros ->. unfold yak_send_message in E.
  assert (forall n wx, get_errno wx (if n <? 0 then EIO else ECONNRESET) <> 0) as Hne.
  { intros n wx. apply get_errno_nonzero. by destruct (n <? 0). }
  assert (forall s wx, s <> 0 -> fail_and_close s wx (Some c) <> (0, conn', w')) as Hfc.
  { intros s wx Hs Hf. rewrite fail_and_close_eq in Hf. by inversion Hf. }
  destruct (Z.ltb_spec (sock c) 0); [by inversion E|].
  assert (yak_is_open (Some c) = 1) as Hopen.
  { simpl. destruct (Z.geb_spec (sock c) 0); [done|lia]. }
  destruct (len <? 0); [by apply Hfc in E|].
  destruct (is_null data && (len >? 0)); [by apply Hfc in E|].
  destruct (print_integer _ _ _) as [nd dg].
  destruct ((nd <? 0) || (nd + 3 >=? 32)); [by apply Hfc in E|].
  destruct (send_data w _ _) as [n1 w1].
  destruct (negb (n1 =? nd + 3)); [by apply Hfc in E|].
  destruct (len >? 0).
  - destruct (send_data w1 _ _) as [n2 w2].
    destruct (negb (n2 =? len)); [by apply Hfc in E|].
    destruct (send_data w2 _ _) as [n3 w3].
    destruct (negb (n3 =? 1)); [by apply Hfc in E|]. by inversion E.
  - destruct (send_data w1 _ _) as [n3 w3].
    destruct (negb (n3 =? 1)); [by apply Hfc in E|]. by inversion E.
Qed.

(** X9: a negative length, or a [NULL] data pointer with a positive
    length, makes [yak_send_message] on an open connection return [EINVAL]
    or [EFAULT] and close the connection although nothing was sent: the
    wire and the socket's sending side are untouched and the only system
    call is the [close] of the socket. *)
Theorem yak_send_message_rejects_arguments w c type data len :
  0 <= sock c ->
  len < 0 \/ (data = None /\ 0 < len) ->
  let '(s, conn', w') := yak_send_message w (Some c) type data len in
  s = (if len <? 0 then EINVAL else EFAULT) /\
  conn' = Some closed_connection /\
  w_wire w' = w_wire w /\ w_tx_sched w' = w_tx_sched w /\
  w_trace w' = w_trace w ++ [SysClose (sock c)].
Proof.
  intros Hc Hbad. unfold yak_send_message.
  destruct (Z.ltb_spec (sock c) 0); [lia|].
  destruct (yak_close_frame w (Some c)) as (_ & _ & Htx & Hwire).
  pose proof (yak_close_trace w c Hc) as Htr.
  destruct (Z.ltb_spec len 0).
  - rewrite fail_and_close_eq. done.
  - destruct Hbad as [|[-> Hpos]]; [lia|]. simpl.
    destruct (Z.gtb_spec len 0); [|lia].
    rewrite fail_and_close_eq. done.
Qed.

Lemma yak_send_message_rejects_arguments_witness :
  let '(s, conn', w') :=
    yak_send_message quiet_world (Some open_connection) "X"%byte None 3 in
  s = EFAULT /\ conn' = Some closed_connection /\
  w_wire w' = [] /\ w_tx_sched w' = [] /\ w_trace w' = [SysClose 3].
Proof.
  apply (yak_send_message_rejects_arguments quiet_world open_connection "X"%byte None 3).
  - simpl. lia.
  - right. split; [done | lia].
Defined.

Lemma send_data_first_call w data len :
  0 < len ->
  send_data w data len =
    match w_tx_sched w with
    | TxFail e :: sch => (-1, set_errno e (set_tx sch (w_wire w) w))
    | TxStall :: sch => (0, set_tx sch (w_wire w) w)
    | _ => send_data w data len
    end.
Proof.
  intros Hlen. destruct (w_tx_sched w) as [|[k| |e] sch] eqn:E; try done.
  - unfold send_data. destruct (Z.to_nat len) as [|fuel] eqn:Ef; [lia|]. simpl.
    destruct (Z.gtb_spec len 0); [|lia]. unfold sys_send. by rewrite E.
  - unfold send_data. destruct (Z.to_nat len) as [|fuel] eqn:Ef; [lia|]. simpl.
    destruct (Z.gtb_spec len 0); [|lia]. unfold sys_send. by rewrite E.
Qed.

(** X10: when the first [send] of a message fails, [yak_send_message]
    returns the [errno] of the failure ([EIO] if it is zero); when the
    first [send] accepts nothing, it returns the current [errno], which
    the stalled call did not set, or [ECONNRESET] if that is zero.  In
    both cases nothing reached the wire and the connection is closed. *)
Theorem yak_send_message_first_send_fails w c type data :
  let p := default [] data in
  0 <= sock c -> lengthZ p <= LONG_MAX ->
  let '(s, conn', w') := yak_send_message w (Some c) type data (lengthZ p) in
  (forall e sch, w_tx_sched w = TxFail e :: sch ->
     s = (if e =? 0 then EIO else e) /\
     conn' = Some closed_connection /\ w_wire w' = w_wire w) /\
  (forall sch, w_tx_sched w = TxStall :: sch ->
     s = (if w_errno w =? 0 then ECONNRESET else w_errno w) /\
     conn' = Some closed_connection /\ w_wire w' = w_wire w).
Proof.
  intros p Hc Hlen.
  destruct (yak_send_message_sends w c type data Hc Hlen) as [pad E].
  fold p in E. rewrite E. clear E. cbv zeta.
  assert (0 < lengthZ (header type (decimal (lengthZ p)))) as Hpos.
  { rewrite lengthZ_header. pose proof (lengthZ_nonneg (decimal (lengthZ p))). lia. }
  rewrite send_data_first_call by done.
  assert (forall s wx, w_wire (snd (fail_and_close s wx (Some c))) = w_wire wx) as Hfc.
  { intros s wx. rewrite fail_and_close_eq. simpl. apply yak_close_frame. }
  destruct (w_tx_sched w) as [|[k| |e] sch] eqn:Es.
  - destruct (send_data w _ _) as [n1 w1].
    destruct (if negb (n1 =? _) then _ else _) as [[s conn'] w']. by split.
  - destruct (send_data w _ _) as [n1 w1].
    destruct (if negb (n1 =? _) then _ else _) as [[s conn'] w']. by split.
  - destruct (Z.eqb_spec 0 (lengthZ (header type (decimal (lengthZ p))))); [lia|].
    simpl negb. cbv iota. rewrite fail_and_close_eq.
    split; [done|]. intros sch' _. split; [done|]. split; [done|].
    cbn [snd]. by rewrite (proj2 (proj2 (proj2 (yak_close_frame _ _)))).
  - destruct (Z.eqb_spec (-1) (lengthZ (header type (decimal (lengthZ p))))); [lia|].
    simpl negb. cbv iota. rewrite fail_and_close_eq.
    split; [|done]. intros e' sch' He. inversion He; subst e' sch'.
    split; [done|]. split; [done|].
    cbn [snd]. by rewrite (proj2 (proj2 (proj2 (yak_close_frame _ _)))).
Qed.

Lemma yak_send_message_first_send_fails_witness :
  let w := set_tx [TxFail ECONNRESET] [] quiet_world in
  let '(s, conn', w') :=
    yak_send_message w (Some open_connection) "X"%byte (Some (ascii "ping")) 4 in
  (forall e sch, w_tx_sched w = TxFail e :: sch ->
     s = (if e =? 0 then EIO else e) /\
     conn' = Some closed_connection /\ w_wire w' = w_wire w) /\
  (forall sch, w_tx_sched w = TxStall :: sch ->
     s = (if w_errno w =? 0 then ECONNRESET else w_errno w) /\
     conn' = Some closed_connection /\ w_wire w' = w_wire w).
Proof.
  intros w.
  apply (yak_send_message_first_send_fails w open_connection "X"%byte
           (Some (ascii "ping"))).
  - simpl. lia.
  - vm_compute. discriminate.
Defined.

(** ** The decoder on any socket *)

Lemma wrap_long_range z : LONG_MIN <= wrap_long z <= LONG_MAX.
Proof.
  unfold wrap_long, LONG_MIN, LONG_MAX.
  pose proof (Z.mod_pos_bound (z + 2 ^ 63) (2 ^ 64) ltac:(lia)). lia.
Qed.

Lemma wrap_long_add a b : wrap_long (a + wrap_long b) = wrap_long (a + b).
Proof.
  unfold wrap_long. f_equal.
  replace (a + ((b + 2 ^ 63) mod 2 ^ 64 - 2 ^ 63) + 2 ^ 63)
    with (a + (b + 2 ^ 63) mod 2 ^ 64) by lia.
  rewrite Zplus_mod_idemp_r. f_equal. lia.
Qed.

(** One overflow past [LONG_MAX] wraps around by [2 ^ 64]. *)
Lemma wrap_long_once z :
  LONG_MAX < z < 2 ^ 63 + 2 ^ 64 -> wrap_long z = z - 2 ^ 64.
Proof.
  unfold LONG_MAX, wrap_long. intros Hz.
  replace (z + 2 ^ 63) with (z + 2 ^ 63 - 2 ^ 64 + 1 * 2 ^ 64) by lia.
  rewrite Z_mod_plus_full, Z.mod_small by lia. lia.
Qed.

Lemma short_read_status n w :
  (if n <? 0 then get_errno w EIO else EBADMSG) <> 0.
Proof. destruct (n <? 0); [by apply get_errno_nonzero | done]. Qed.

Lemma recv_data_one w n buf w' :
  recv_data w 1 = (n, buf, w') -> n = 1 ->
  exists x, buf = [x] /\ w_rx_data w = x :: w_rx_data w'.
Proof.
  intros E ->. unfold recv_data in E.
  apply recv_data_loop_prefix in E as (new & -> & Hrx & Hn).
  simpl in *. destruct Hn as [|Hn]; [lia|].
  destruct new as [|x [|y new]]; try (unfold lengthZ in Hn; simpl in Hn; lia).
  by exists x.
Qed.

(** A digit loop that ends with status 0 read digits up to a newline and
    returned a non-negative length, the value of the digits when it fits. *)
Lemma recv_message_info_loop_sound fuel : forall w len c len' w',
  recv_message_info_loop fuel w len c = (0, len', w') -> 0 <= len ->
  exists ds, all_digits ds /\
    c :: w_rx_data w = ds ++ char_newline :: w_rx_data w' /\
    0 <= len' /\
    (fold_left accumulate ds len <= LONG_MAX -> len' = fold_left accumulate ds len).
Proof.
  induction fuel as [|fuel IH]; intros w len c len' w' H Hlen.
  - unfold recv_message_info_loop in H.
    destruct (char_eqb c char_newline) eqn:Ec; [|done].
    apply char_eqb_true in Ec as ->. inversion H; subst.
    exists []. repeat split; try done. constructor.
  - unfold recv_message_info_loop in H. fold recv_message_info_loop in H.
    destruct (char_eqb c char_newline) eqn:Ec.
    { apply char_eqb_true in Ec as ->. inversion H; subst.
      exists []. repeat split; try done. constructor. }
    destruct (is_digit c) eqn:Hd; [|done].
    cbv zeta in H. rewrite wrap_long_add in H.
    fold (digit_val c) in H.
    set (len1 := wrap_long (digit_val c + 10 * len)) in *.
    destruct (Z.ltb_spec len1 len); [done|].
    destruct (recv_data w 1) as [[n buf] w1] eqn:E.
    destruct (Z.eqb_spec n 1) as [En|]; simpl negb in H; cbv iota in H.
    2: { injection H as Hs _ _. by apply short_read_status in Hs. }
    destruct (recv_data_one w n buf w1 E En) as (x & -> & Hrx).
    change (char_at [x] 0) with x in H.
    apply IH in H as (ds & Hds & Hstream & Hpos & Hexact); [|lia].
    exists (c :: ds). split; [by constructor|]. split; [|split; [done|]].
    + rewrite Hrx. simpl. by f_equal.
    + simpl. intros Hfit.
      pose proof (digit_val_range c Hd) as Hv.
      assert (len <= accumulate len c) as Hstep by (unfold accumulate; lia).
      pose proof (accumulate_grows ds (accumulate len c) Hds ltac:(lia)) as Hg.
      assert (len1 = accumulate len c) as E1.
      { subst len1. unfold accumulate in *.
        replace (digit_val c + 10 * len) with (10 * len + digit_val c) by lia.
        apply wrap_long_small. unfold LONG_MIN, LONG_MAX in *. lia. }
      rewrite E1 in Hexact. by apply Hexact.
Qed.

Lemma recv_message_info_sound w m w' :
  recv_message_info w = (0, m, w') ->
  exists ds, ds <> [] /\ all_digits ds /\
    w_rx_data w = header (msg_type m) ds ++ w_rx_data w' /\
    0 <= msg_len m /\
    (decimal_value ds <= LONG_MAX -> msg_len m = decimal_value ds).
Proof.
  unfold recv_message_info. intros H.
  destruct (recv_data w 4) as [[n buf] w1] eqn:E.
  destruct (Z.eqb_spec n 4) as [->|]; simpl negb in H; cbv iota in H.
  2: { injection H as Hs _ _. by apply short_read_status in Hs. }
  unfold recv_data in E.
  apply recv_data_loop_prefix in E as (new & -> & Hrx & Hn). simpl in *.
  destruct Hn as [|Hn]; [lia|].
  destruct new as [|b0 [|b1 [|b2 [|b3 [|b4 new]]]]];
    try (unfold lengthZ in Hn; simpl in Hn; lia).
  change (char_at [b0; b1; b2; b3] 0) with b0 in H.
  change (char_at [b0; b1; b2; b3] 1) with b1 in H.
  change (char_at [b0; b1; b2; b3] 2) with b2 in H.
  change (char_at [b0; b1; b2; b3] 3) with b3 in H.
  destruct (char_eqb b1 char_colon) eqn:E1; simpl negb in H; cbv iota in H; [|done].
  apply char_eqb_true in E1 as ->.
  destruct (Z.ltb_spec (Z_of_char b2) (Z_of_char char_zero)); [done|].
  destruct (Z.gtb_spec (Z_of_char b2) (Z_of_char char_nine)); [done|].
  simpl orb in H. cbv iota in H.
  assert (is_digit b2 = true) as Hd2.
  { apply is_digit_range. change (Z_of_char char_zero) with 48 in *.
    change (Z_of_char char_nine) with 57 in *. lia. }
  fold (digit_val b2) in H.
  destruct (recv_message_info_loop _ _ _ _) as [[status len] w2] eqn:El.
  destruct (Z.eqb_spec status 0) as [->|]; simpl negb in H; cbv iota in H;
    [|by inversion H].
  inversion H; subst m w'. clear H. simpl.
  pose proof (digit_val_range b2 Hd2) as Hv.
  apply recv_message_info_loop_sound in El as (ds & Hds & Hstream & Hpos & Hexact);
    [|lia].
  exists (b2 :: ds). split; [done|]. split; [by constructor|].
  split; [|split; [done|]].
  - rewrite Hrx. unfold header. simpl. do 3 f_equal.
    rewrite <- app_assoc. simpl. by inversion Hstream.
  - by rewrite decimal_value_cons.
Qed.

(** X11: whatever the socket does, when [recv_message_info] returns 0 the
    bytes it consumed are a well-formed header, the type byte, ':', one or
    more digits and '\n', and nothing else was consumed; the length it
    reports is never negative, and it is the value of the digits whenever
    that value fits a [long]. *)
Theorem recv_message_info_accepts_only_headers w m w' :
  recv_message_info w = (0, m, w') ->
  exists ds, ds <> [] /\ all_digits ds /\
    w_rx_data w = header (msg_type m) ds ++ w_rx_data w' /\
    0 <= msg_len m /\
    (decimal_value ds <= LONG_MAX -> msg_len m = decimal_value ds).
Proof. apply recv_message_info_sound. Qed.

Lemma recv_message_info_accepts_only_headers_witness :
  let w := set_rx (ascii "T:042" ++ char_newline :: ascii "rest")
             [RxGive 1; RxGive 1; RxGive 7] quiet_world in
  exists ds, ds <> [] /\ all_digits ds /\
    w_rx_data w = header "T"%byte ds ++ ascii "rest" /\
    0 <= 42 /\ (decimal_value ds <= LONG_MAX -> 42 = decimal_value ds).
Proof.
  intros w.
  apply (recv_message_info_accepts_only_headers w
           {| msg_len := 42; msg_type := "T"%byte |}
           (snd (recv_message_info w))).
  reflexivity.
Defined.

(** The digit loop on digits whose last one takes the value past
    [LONG_MAX] but not past [2 ^ 64]: the comparison fires there. *)
Lemma recv_message_info_loop_overflow ds : forall c w acc d rest fuel,
  rx_reliable w ->
  c :: w_rx_data w = ds ++ d :: rest ->
  all_digits (ds ++ [d]) -> 0 <= acc ->
  fold_left accumulate ds acc <= LONG_MAX ->
  LONG_MAX < fold_left accumulate (ds ++ [d]) acc < 2 ^ 64 ->
  (length (w_rx_data w) < fuel)%nat ->
  exists len sch, forallb rx_ok sch = true /\
    recv_message_info_loop fuel w acc c = (EOVERFLOW, len, set_rx rest sch w).
Proof.
  induction ds as [|x ds IH]; intros c w acc d rest fuel Hw Hc Hds Hacc Hfit Hover Hfuel.
  - simpl in *. inversion Hc as [[Ec Hdata]]; subst c.
    inversion Hds as [|? ? Hd _]; subst.
    destruct fuel as [|fuel]; [lia|].
    unfold recv_message_info_loop. fold recv_message_info_loop.
    rewrite (digit_not_newline d Hd), Hd. cbv zeta.
    rewrite wrap_long_add. fold (digit_val d).
    pose proof (digit_val_range d Hd) as Hv.
    unfold accumulate in Hover.
    rewrite wrap_long_once by (unfold LONG_MAX in *; lia).
    destruct (Z.ltb_spec (digit_val d + 10 * acc - 2 ^ 64) acc); [|lia].
    exists (digit_val d + 10 * acc - 2 ^ 64), (w_rx_sched w).
    split; [done|]. by rewrite set_rx_same.
  - simpl in Hc. inversion Hc as [[Ec Hdata]]; subst c.
    inversion Hds as [|? ? Hd Hds']; subst.
    destruct fuel as [|fuel]; [lia|].
    unfold recv_message_info_loop. fold recv_message_info_loop.
    rewrite (digit_not_newline x Hd), Hd. cbv zeta.
    pose proof (digit_val_range x Hd) as Hv.
    assert (acc <= accumulate acc x) as Hstep by (unfold accumulate; lia).
    simpl in Hfit, Hover.
    assert (all_digits ds) as Hds0 by (by apply Forall_app in Hds' as [? _]).
    pose proof (accumulate_grows ds (accumulate acc x) Hds0 ltac:(lia)) as Hg.
    assert (accumulate acc x = 10 * acc + digit_val x) as Ha by reflexivity.
    rewrite (wrap_long_small (10 * acc)) by (unfold LONG_MIN, LONG_MAX in *; lia).
    fold (digit_val x).
    replace (digit_val x + 10 * acc) with (accumulate acc x) by lia.
    rewrite wrap_long_small by (unfold LONG_MIN, LONG_MAX in *; lia).
    destruct (Z.ltb_spec (accumulate acc x) acc); [lia|].
    assert (exists c' data', w_rx_data w = [c'] ++ data' /\
                             c' :: data' = ds ++ d :: rest)
      as (c' & data' & Hsplit & Hnext).
    { rewrite Hdata. destruct ds; simpl; eauto. }
    destruct (recv_data_exact w [c'] data' Hw Hsplit) as (sch1 & Hs1 & E).
    change (lengthZ [c']) with 1 in E. rewrite E. simpl negb. cbv iota.
    change (char_at [c'] 0) with c'.
    destruct (IH c' (set_rx data' sch1 w) (accumulate acc x) d rest fuel)
      as (len & sch & Hs & ->); try done.
    + lia.
    + simpl. rewrite Hsplit in Hfuel. simpl in Hfuel. lia.
    + by exists len, sch.
Qed.

(** X12: a length field whose value is above [LONG_MAX] and below
    [2 ^ 64] is always caught.  On a socket without transport faults
    [recv_message_info] stops at the last digit of such a field with
    [EOVERFLOW], without reading further, and both receive functions,
    given valid arguments, return [EOVERFLOW] and close the connection. *)
Theorem overflow_below_two_to_64_detected w t ds rest :
  rx_reliable w ->
  all_digits ds -> LONG_MAX < decimal_value ds < 2 ^ 64 ->
  w_rx_data w = t :: char_colon :: ds ++ rest ->
  (exists w1, recv_message_info w = (EOVERFLOW, empty_info, w1) /\
              w_rx_data w1 = rest) /\
  (forall c type len,
     0 <= sock c ->
     let r := yak_recv_message w (Some c) type true len in
     r_status r = EOVERFLOW /\ yak_is_open (r_conn r) = 0 /\ r_data r = Some None) /\
  (forall c type data len maxlen,
     0 <= sock c -> 0 <= maxlen -> is_null data = false \/ maxlen = 0 ->
     let r := yak_recv_message_in_buffer w (Some c) type data len maxlen in
     r_status r = EOVERFLOW /\ yak_is_open (r_conn r) = 0 /\ r_data r = data).
Proof.
  intros Hw Hds Hover Hdata.
  assert (exists sch, forallb rx_ok sch = true /\
            recv_message_info w = (EOVERFLOW, empty_info, set_rx rest sch w))
    as (sch & Hs & E).
  { destruct ds as [|d0 ds];
      [unfold decimal_value, LONG_MAX in Hover; simpl in Hover; lia|].
    inversion Hds as [|? ? Hd0 Hds']; subst.
    pose proof (digit_val_range d0 Hd0) as Hv.
    rewrite decimal_value_cons in Hover.
    destruct ds as [|d1 ds _] using rev_ind.
    { simpl in Hover. unfold LONG_MAX in Hover. lia. }
    assert (fold_left accumulate ds (digit_val d0) <= LONG_MAX) as Hfit.
    { rewrite fold_left_app in Hover. simpl in Hover.
      assert (all_digits ds) as Hds0 by (by apply Forall_app in Hds' as [? _]).
      pose proof (accumulate_grows ds (digit_val d0) Hds0 ltac:(lia)).
      assert (is_digit d1 = true) as Hd1.
      { apply Forall_app in Hds' as [_ H1]. by inversion H1. }
      pose proof (digit_val_range d1 Hd1).
      unfold accumulate in Hover at 1 3. unfold LONG_MAX in *. lia. }
    assert (exists c data', (ds ++ [d1]) ++ rest = c :: data' /\
                            c :: data' = ds ++ d1 :: rest)
      as (c & data' & Hc & Hnext).
    { rewrite <- app_assoc. simpl. destruct ds; simpl; eauto. }
    simpl in Hdata. rewrite Hc in Hdata.
    destruct (recv_data_exact w [t; char_colon; d0; c] data' Hw Hdata)
      as (sch1 & Hs1 & E).
    unfold recv_message_info. change (lengthZ [t; char_colon; d0; c]) with 4 in E.
    rewrite E. simpl.
    change (char_at [t; char_colon; d0; c] 2) with d0.
    change (char_at [t; char_colon; d0; c] 3) with c.
    apply is_digit_range in Hd0 as Hr.
    change (Z_of_char char_zero) with 48. change (Z_of_char char_nine) with 57.
    destruct (Z.ltb_spec (Z_of_char d0) 48); [lia|].
    destruct (Z.gtb_spec (Z_of_char d0) 57); [lia|]. simpl.
    destruct (recv_message_info_loop_overflow ds c (set_rx data' sch1 w)
                (digit_val d0) d1 rest (S (length data')))
      as (len & sch & Hs & El); try done; try lia.
    - simpl. lia.
    - change (Z_of_char d0 - 48) with (digit_val d0).
      rewrite El. simpl. by exists sch. }
  split; [|split].
  - by exists (set_rx rest sch w).
  - intros c type len Hc r. subst r.
    by rewrite (yak_recv_message_header_error w c type len _ _ _ Hc E).
  - intros c type data len maxlen Hc Hmax Hd r. subst r.
    by rewrite (yak_recv_message_in_buffer_header_error w c type data len maxlen
                  _ _ _ Hc Hmax Hd E).
Qed.

Lemma overflow_below_two_to_64_detected_witness :
  let w := set_rx (ascii "T:9223372036854775808" ++ [char_newline]) [RxGive 3]
             quiet_world in
  exists w1, recv_message_info w = (EOVERFLOW, empty_info, w1) /\
             w_rx_data w1 = [char_newline].
Proof.
  intros w.
  refine (proj1 (overflow_below_two_to_64_detected w "T"%byte
                   (ascii "9223372036854775808") [char_newline] _ _ _ _)).
  - reflexivity.
  - repeat constructor.
  - vm_compute. split; reflexivity.
  - reflexivity.
Defined.

(** ** Payload and trailer *)

Lemma recv_message_data_bad_trailer w p b rest :
  rx_reliable w -> w_rx_data w = p ++ b :: rest -> b <> char_newline ->
  exists sch, forallb rx_ok sch = true /\
    recv_message_data w (lengthZ p) = (EBADMSG, p, set_rx rest sch w).
Proof.
  intros Hw Hdata Hb. unfold recv_message_data.
  assert (forall w1 sch1, forallb rx_ok sch1 = true ->
    w1 = set_rx (b :: rest) sch1 w ->
    exists sch, forallb rx_ok sch = true /\
      (let '(nbytes, buf, w0) := recv_data w1 1 in
       if negb (nbytes =? 1)
       then (if nbytes <? 0 then get_errno w0 EIO else EBADMSG, p, w0)
       else if negb (char_eqb (char_at buf 0) char_newline)
            then (EBADMSG, p, w0) else (0, p, w0)) = (EBADMSG, p, set_rx rest sch w))
    as Htrailer.
  { intros w1 sch1 Hs1 ->.
    destruct (recv_data_exact (set_rx (b :: rest) sch1 w) [b] rest Hs1 eq_refl)
      as (sch & Hs & E).
    change (lengthZ [b]) with 1 in E. rewrite E. simpl negb. cbv iota.
    change (char_at [b] 0) with b.
    apply char_eqb_false in Hb. rewrite Hb. simpl. by exists sch. }
  destruct (Z.gtb_spec (lengthZ p) 0) as [Hpos|Hz].
  - destruct (recv_data_exact w p (b :: rest) Hw Hdata) as (sch1 & Hs1 & ->).
    rewrite Z.eqb_refl. simpl negb. cbv iota. by apply (Htrailer _ sch1).
  - assert (p = []) as -> by (destruct p; [done | unfold lengthZ in Hz; simpl in Hz; lia]).
    apply (Htrailer w (w_rx_sched w)); [done|].
    simpl in Hdata. rewrite <- Hdata. by rewrite set_rx_same.
Qed.

Lemma recv_message_data_truncated w len :
  rx_reliable w -> 0 <= len -> lengthZ (w_rx_data w) <= len ->
  exists sch, forallb rx_ok sch = true /\
    recv_message_data w len = (EBADMSG, w_rx_data w, set_rx [] sch w).
Proof.
  intros Hw Hlen Hshort. unfold recv_message_data.
  assert (forall w1, rx_reliable w1 -> w_rx_data w1 = [] ->
            exists sch, forallb rx_ok sch = true /\
              recv_data w1 1 = (0, [], set_rx [] sch w1)) as Heof.
  { intros w1 Hw1 Hnil. destruct (recv_data_short w1 1 Hw1) as (sch & Hs & E).
    - rewrite Hnil. unfold lengthZ. simpl. lia.
    - rewrite Hnil in E. by exists sch. }
  destruct (Z.gtb_spec len 0) as [Hpos|Hz].
  - destruct (Z.eq_dec (lengthZ (w_rx_data w)) len) as [Eq|Hne].
    + destruct (recv_data_exact w (w_rx_data w) [] Hw) as (sch1 & Hs1 & E1);
        [by rewrite app_nil_r|].
      rewrite Eq in E1. rewrite E1, Z.eqb_refl. simpl negb. cbv iota.
      destruct (Heof (set_rx [] sch1 w) Hs1 eq_refl) as (sch & Hs & ->).
      simpl. by exists sch.
    + destruct (recv_data_short w len Hw) as (sch & Hs & ->); [lia|].
      destruct (Z.eqb_spec (lengthZ (w_rx_data w)) len); [lia|]. simpl negb. cbv iota.
      pose proof (lengthZ_nonneg (w_rx_data w)).
      destruct (Z.ltb_spec (lengthZ (w_rx_data w)) 0); [lia|]. by exists sch.
  - assert (w_rx_data w = []) as Hnil.
    { pose proof (lengthZ_nonneg (w_rx_data w)).
      destruct (w_rx_data w); [done | unfold lengthZ in *; simpl in *; lia]. }
    destruct (Heof w Hw Hnil) as (sch & Hs & ->). simpl.
    rewrite Hnil. by exists sch.
Qed.

(** X13: on a socket without transport faults a frame whose payload is
    followed by a byte other than '\n' is rejected with [EBADMSG] and the
    connection is closed: by the bounded receive whenever the payload
    fits [maxlen], the caller's buffer then holding the payload already
    read, and by the allocating receive when the declared length is
    positive and the allocation succeeds, the allocated buffer being
    released and [NULL] returned. *)
Theorem bad_trailer_rejected w c t ds p b rest :
  0 <= sock c -> rx_reliable w ->
  ds <> [] -> all_digits ds -> decimal_value ds = lengthZ p -> lengthZ p <= LONG_MAX ->
  b <> char_newline ->
  w_rx_data w = header t ds ++ p ++ b :: rest ->
  (forall type buf len maxlen,
     lengthZ p <= maxlen ->
     let r := yak_recv_message_in_buffer w (Some c) type (Some buf) len maxlen in
     r_status r = EBADMSG /\ yak_is_open (r_conn r) = 0 /\
     r_type r = out type char_nul /\ r_len r = out len 0 /\
     r_data r = Some (overwrite buf p)) /\
  (forall type len,
     0 < lengthZ p -> alloc_ok w ->
     let r := yak_recv_message w (Some c) type true len in
     r_status r = EBADMSG /\ yak_is_open (r_conn r) = 0 /\
     r_type r = out type char_nul /\ r_len r = out len 0 /\
     r_data r = Some None).
Proof.
  intros Hc Hw Hne Hds Hval Hmax Hb Hdata.
  pose proof (lengthZ_nonneg p) as Hp.
  destruct (recv_message_info_header w t ds _ Hw Hdata Hne Hds ltac:(lia))
    as (sch1 & Hs1 & E1). rewrite Hval in E1.
  split.
  - intros type buf len maxlen Hfit r. subst r.
    destruct (recv_message_data_bad_trailer (set_rx (p ++ b :: rest) sch1 w)
                p b rest Hs1 eq_refl Hb) as (sch2 & Hs2 & E2).
    unfold yak_recv_message_in_buffer.
    destruct (Z.ltb_spec (sock c) 0); [lia|].
    destruct (Z.ltb_spec maxlen 0); [lia|].
    simpl andb. cbv iota. rewrite E1. simpl.
    destruct (Z.gtb_spec (lengthZ p) maxlen); [lia|].
    rewrite E2. simpl. by rewrite fail_and_close_eq.
  - intros type len Hpos Ha r. subst r.
    unfold yak_recv_message. simpl negb. cbv iota.
    destruct (Z.ltb_spec (sock c) 0); [lia|]. rewrite E1. simpl.
    destruct (Z.gtb_spec (lengthZ p) 0); [|lia].
    destruct (sys_alloc_ok (set_rx (p ++ b :: rest) sch1 w)) as [s ->]; [done|].
    simpl negb. cbv iota.
    destruct (recv_message_data_bad_trailer
                (set_alloc s (set_rx (p ++ b :: rest) sch1 w))
                p b rest Hs1 eq_refl Hb) as (sch2 & Hs2 & ->).
    simpl. by rewrite fail_and_close_eq.
Qed.

Lemma bad_trailer_rejected_witness :
  let w := set_rx (ascii "X:4" ++ char_newline :: ascii "pingX:1") [RxGive 5]
             quiet_world in
  let r := yak_recv_message w (Some open_connection) true true true in
  r_status r = EBADMSG /\ yak_is_open (r_conn r) = 0 /\
  r_type r = Some char_nul /\ r_len r = Some 0 /\ r_data r = Some None.
Proof.
  intros w.
  refine (proj2 (bad_trailer_rejected w open_connection "X"%byte (ascii "4")
                   (ascii "ping") "X"%byte (ascii ":1") _ _ _ _ _ _ _ _)
            true true _ _).
  - simpl. lia.
  - reflexivity.
  - discriminate.
  - repeat constructor.
  - reflexivity.
  - vm_compute. discriminate.
  - discriminate.
  - reflexivity.
  - vm_compute. reflexivity.
  - reflexivity.
Defined.

(** X14: on a socket without transport faults, when the peer closes
    after a complete header but before the whole payload and its trailer
    have arrived, the receive functions fail with [EBADMSG] and close the
    connection: the bounded one whenever the declared length fits
    [maxlen], its buffer holding the bytes that did arrive, and the
    allocating one when the declared length is positive and the
    allocation succeeds, [NULL] being returned. *)
Theorem truncated_payload_rejected w c t ds got :
  0 <= sock c -> rx_reliable w ->
  ds <> [] -> all_digits ds -> decimal_value ds <= LONG_MAX ->
  lengthZ got <= decimal_value ds ->
  w_rx_data w = header t ds ++ got ->
  (forall type buf len maxlen,
     decimal_value ds <= maxlen ->
     let r := yak_recv_message_in_buffer w (Some c) type (Some buf) len maxlen in
     r_status r = EBADMSG /\ yak_is_open (r_conn r) = 0 /\
     r_data r = Some (overwrite buf got)) /\
  (forall type len,
     0 < decimal_value ds -> alloc_ok w ->
     let r := yak_recv_message w (Some c) type true len in
     r_status r = EBADMSG /\ yak_is_open (r_conn r) = 0 /\ r_data r = Some None).
Proof.
  intros Hc Hw Hne Hds Hmax Hshort Hdata.
  pose proof (decimal_value_nonneg ds Hds) as Hv.
  destruct (recv_message_info_header w t ds _ Hw Hdata Hne Hds Hmax)
    as (sch1 & Hs1 & E1).
  split.
  - intros type buf len maxlen Hfit r. subst r.
    destruct (recv_message_data_truncated (set_rx got sch1 w) (decimal_value ds)
                Hs1 Hv Hshort) as (sch2 & Hs2 & E2).
    unfold yak_recv_message_in_buffer.
    destruct (Z.ltb_spec (sock c) 0); [lia|].
    destruct (Z.ltb_spec maxlen 0); [lia|].
    simpl andb. cbv iota. rewrite E1. simpl.
    destruct (Z.gtb_spec (decimal_value ds) maxlen); [lia|].
    rewrite E2. simpl. by rewrite fail_and_close_eq.
  - intros type len Hpos Ha r. subst r.
    unfold yak_recv_message. simpl negb. cbv iota.
    destruct (Z.ltb_spec (sock c) 0); [lia|]. rewrite E1. simpl.
    destruct (Z.gtb_spec (decimal_value ds) 0); [|lia].
    destruct (sys_alloc_ok (set_rx got sch1 w)) as [s ->]; [done|].
    simpl negb. cbv iota.
    destruct (recv_message_data_truncated (set_alloc s (set_rx got sch1 w))
                (decimal_value ds) Hs1 Hv Hshort) as (sch2 & Hs2 & ->).
    simpl. by rewrite fail_and_close_eq.
Qed.

Lemma truncated_payload_rejected_witness :
  let w := set_rx (ascii "X:4" ++ char_newline :: ascii "pin") [RxGive 5] quiet_world in
  let r := yak_recv_message w (Some open_connection) true true true in
  r_status r = EBADMSG /\ yak_is_open (r_conn r) = 0 /\ r_data r = Some None.
Proof.
  intros w.
  refine (proj2 (truncated_payload_rejected w open_connection "X"%byte (ascii "4")
                   (ascii "pin") _ _ _ _ _ _ _) true true _ _).
  - simpl. lia.
  - reflexivity.
  - discriminate.
  - repeat constructor.
  - vm_compute. discriminate.
  - vm_compute. discriminate.
  - reflexivity.
  - vm_compute. reflexivity.
  - reflexivity.
Defined.

(** ** Messages in sequence *)

Lemma yak_recv_message_empty w c type len t ds rest :
  0 <= sock c -> rx_reliable w ->
  ds <> [] -> all_digits ds -> decimal_value ds = 0 ->
  w_rx_data w = header t ds ++ rest ->
  exists sch, forallb rx_ok sch = true /\
    yak_recv_message w (Some c) type true len =
      {| r_status := 0; r_conn := Some c; r_type := out type t;
         r_data := Some None; r_len := out len 0;
         r_world := set_rx rest sch w |}.
Proof.
  intros Hc Hw Hne Hds Hval Hdata.
  destruct (recv_message_info_header w t ds _ Hw Hdata Hne Hds)
    as (sch1 & Hs1 & E1); [rewrite Hval; done|]. rewrite Hval in E1.
  exists sch1. split; [done|].
  unfold yak_recv_message. simpl negb. cbv iota.
  destruct (Z.ltb_spec (sock c) 0); [lia|]. by rewrite E1.
Qed.

(** X15: for a message of declared length 0, on a socket without
    transport faults, the allocating receive succeeds right after the
    header, with a [NULL] buffer and length 0: it neither reads nor checks
    the trailer, so whatever follows the header, a newline or not, is left
    in the stream. *)
Theorem empty_message_trailer_unread w c type len t ds rest :
  0 <= sock c -> rx_reliable w ->
  ds <> [] -> all_digits ds -> decimal_value ds = 0 ->
  w_rx_data w = header t ds ++ rest ->
  let r := yak_recv_message w (Some c) type true len in
  r_status r = 0 /\ r_conn r = Some c /\
  r_type r = out type t /\ r_len r = out len 0 /\ r_data r = Some None /\
  w_rx_data (r_world r) = rest.
Proof.
  intros Hc Hw Hne Hds Hval Hdata r. subst r.
  destruct (yak_recv_message_empty w c type len t ds rest Hc Hw Hne Hds Hval Hdata)
    as (sch & _ & ->). done.
Qed.

Lemma empty_message_trailer_unread_witness :
  let w := set_rx (ascii "A:0" ++ char_newline :: ascii "junk") [] quiet_world in
  let r := yak_recv_message w (Some open_connection) true true true in
  r_status r = 0 /\ r_conn r = Some open_connection /\
  r_type r = Some "A"%byte /\ r_len r = Some 0 /\ r_data r = Some None /\
  w_rx_data (r_world r) = ascii "junk".
Proof.
  intros w.
  apply (empty_message_trailer_unread w open_connection true true "A"%byte
           (ascii "0") (ascii "junk")).
  - simpl. lia.
  - reflexivity.
  - discriminate.
  - repeat constructor.
  - reflexivity.
  - reflexivity.
Defined.

(** X16: on a socket without transport faults, after the allocating
    receive has returned an empty message, the next allocating receive on
    the same connection fails with [EBADMSG] and closes it even though a
    well-formed frame follows: the unread trailer of the empty message is
    taken for the type byte. *)
Theorem receive_after_empty_message_fails w c t1 ds1 t2 ds2 p2 rest :
  0 <= sock c -> rx_reliable w ->
  ds1 <> [] -> all_digits ds1 -> decimal_value ds1 = 0 ->
  ds2 <> [] ->
  w_rx_data w = frame t1 ds1 [] ++ frame t2 ds2 p2 ++ rest ->
  let r1 := yak_recv_message w (Some c) true true true in
  let r2 := yak_recv_message (r_world r1) (r_conn r1) true true true in
  r_status r1 = 0 /\ r_type r1 = Some t1 /\ r_len r1 = Some 0 /\
  r_status r2 = EBADMSG /\ yak_is_open (r_conn r2) = 0.
Proof.
  intros Hc Hw Hne1 Hds1 Hval1 Hne2 Hdata r1 r2. subst r1 r2.
  destruct ds2 as [|d2 ds2]; [done|].
  set (rest2 := ds2 ++ char_newline :: p2 ++ [char_newline] ++ rest).
  assert (w_rx_data w =
          header t1 ds1 ++ char_newline :: t2 :: char_colon :: d2 :: rest2) as Hdata1.
  { rewrite Hdata. unfold frame, header, rest2. simpl.
    by repeat (rewrite <- app_assoc; simpl). }
  destruct (yak_recv_message_empty w c true true t1 ds1 _ Hc Hw Hne1 Hds1 Hval1 Hdata1)
    as (sch & Hs & ->).
  cbn [r_status r_type r_len r_world r_conn out].
  destruct (recv_message_info_malformed
              (set_rx (char_newline :: t2 :: char_colon :: d2 :: rest2) sch w)
              char_newline t2 char_colon d2 rest2)
    as (sch2 & Hs2 & _ & E); [done | done | by right |].
  rewrite (yak_recv_message_header_error _ c true true _ _ _ Hc E) by done.
  done.
Qed.

Lemma receive_after_empty_message_fails_witness :
  let w := set_rx (frame "A"%byte (ascii "0") [] ++
                   frame "B"%byte (ascii "2") (ascii "ok") ++ [])
             [] quiet_world in
  let r1 := yak_recv_message w (Some open_connection) true true true in
  let r2 := yak_recv_message (r_world r1) (r_conn r1) true true true in
  r_status r1 = 0 /\ r_type r1 = Some "A"%byte /\ r_len r1 = Some 0 /\
  r_status r2 = EBADMSG /\ yak_is_open (r_conn r2) = 0.
Proof.
  intros w.
  apply (receive_after_empty_message_fails w open_connection "A"%byte (ascii "0")
           "B"%byte (ascii "2") (ascii "ok") []).
  - simpl. lia.
  - reflexivity.
  - discriminate.
  - repeat constructor.
  - reflexivity.
  - discriminate.
  - reflexivity.
Defined.

Lemma yak_recv_message_in_buffer_frame_eq w c type buf len maxlen t ds p rest :
  0 <= sock c -> rx_reliable w ->
  ds <> [] -> all_digits ds -> decimal_value ds = lengthZ p ->
  lengthZ p <= maxlen -> maxlen <= LONG_MAX ->
  w_rx_data w = frame t ds p ++ rest ->
  exists sch, forallb rx_ok sch = true /\
    yak_recv_message_in_buffer w (Some c) type (Some buf) len maxlen =
      {| r_status := 0; r_conn := Some c; r_type := out type t;
         r_data := Some (overwrite buf p); r_len := out len (lengthZ p);
         r_world := set_rx rest sch w |}.
Proof.
  intros Hc Hw Hne Hds Hval Hfit Hmax Hdata.
  pose proof (lengthZ_nonneg p) as Hp.
  rewrite frame_split in Hdata.
  destruct (recv_message_info_header w t ds _ Hw Hdata Hne Hds ltac:(lia))
    as (sch1 & Hs1 & E1). rewrite Hval in E1.
  destruct (recv_message_data_payload (set_rx (p ++ char_newline :: rest) sch1 w)
              p rest Hs1 eq_refl) as (sch2 & Hs2 & E2).
  exists sch2. split; [done|].
  unfold yak_recv_message_in_buffer.
  destruct (Z.ltb_spec (sock c) 0); [lia|].
  destruct (Z.ltb_spec maxlen 0); [lia|].
  simpl andb. cbv iota. rewrite E1. simpl.
  destruct (Z.gtb_spec (lengthZ p) maxlen); [lia|].
  rewrite E2. done.
Qed.

(** X17: on a socket without transport faults the bounded receive
    consumes whole frames, so frames that fit are received one after the
    other from the same stream, each into the buffer it is given, an empty
    payload and a payload of exactly [maxlen] bytes included. *)
Theorem bounded_receive_in_sequence w c buf1 buf2 maxlen t1 ds1 p1 t2 ds2 p2 rest :
  0 <= sock c -> rx_reliable w -> maxlen <= LONG_MAX ->
  ds1 <> [] -> all_digits ds1 -> decimal_value ds1 = lengthZ p1 ->
  ds2 <> [] -> all_digits ds2 -> decimal_value ds2 = lengthZ p2 ->
  lengthZ p1 <= maxlen -> lengthZ p2 <= maxlen ->
  w_rx_data w = frame t1 ds1 p1 ++ frame t2 ds2 p2 ++ rest ->
  let r1 := yak_recv_message_in_buffer w (Some c) true (Some buf1) true maxlen in
  let r2 := yak_recv_message_in_buffer (r_world r1) (r_conn r1) true (Some buf2)
              true maxlen in
  (r_status r1 = 0 /\ r_type r1 = Some t1 /\ r_len r1 = Some (lengthZ p1) /\
   r_data r1 = Some (overwrite buf1 p1)) /\
  (r_status r2 = 0 /\ r_type r2 = Some t2 /\ r_len r2 = Some (lengthZ p2) /\
   r_data r2 = Some (overwrite buf2 p2)) /\
  r_conn r2 = Some c /\ w_rx_data (r_world r2) = rest.
Proof.
  intros Hc Hw Hmax Hne1 Hds1 Hv1 Hne2 Hds2 Hv2 Hf1 Hf2 Hdata r1 r2. subst r1 r2.
  destruct (yak_recv_message_in_buffer_frame_eq w c true buf1 true maxlen
              t1 ds1 p1 _ Hc Hw Hne1 Hds1 Hv1 Hf1 Hmax Hdata) as (sch1 & Hs1 & ->).
  cbn [r_status r_type r_len r_data r_world r_conn out].
  destruct (yak_recv_message_in_buffer_frame_eq
              (set_rx (frame t2 ds2 p2 ++ rest) sch1 w) c true buf2 true maxlen
              t2 ds2 p2 rest Hc Hs1 Hne2 Hds2 Hv2 Hf2 Hmax eq_refl)
    as (sch2 & Hs2 & ->).
  done.
Qed.

Lemma bounded_receive_in_sequence_witness :
  let w := set_rx (frame "A"%byte (ascii "0") [] ++
                   frame "B"%byte (ascii "2") (ascii "ok") ++ ascii "...")
             [RxGive 1; RxGive 9] quiet_world in
  let r1 := yak_recv_message_in_buffer w (Some open_connection) true
              (Some (ascii "__")) true 2 in
  let r2 := yak_recv_message_in_buffer (r_world r1) (r_conn r1) true
              (Some (ascii "__")) true 2 in
  (r_status r1 = 0 /\ r_type r1 = Some "A"%byte /\ r_len r1 = Some 0 /\
   r_data r1 = Some (ascii "__")) /\
  (r_status r2 = 0 /\ r_type r2 = Some "B"%byte /\ r_len r2 = Some 2 /\
   r_data r2 = Some (ascii "ok")) /\
  r_conn r2 = Some open_connection /\ w_rx_data (r_world r2) = ascii "...".
Proof.
  intros w.
  apply (bounded_receive_in_sequence w open_connection (ascii "__") (ascii "__") 2
           "A"%byte (ascii "0") [] "B"%byte (ascii "2") (ascii "ok") (ascii "..."));
    try reflexivity; try discriminate; try (repeat constructor; fail).
  all: first [ simpl; lia | vm_compute; discriminate ].
Defined.

(** ** What the receive functions hand back, on any socket *)

Lemma recv_data_facts w len n bs w' :
  recv_data w len = (n, bs, w') ->
  (n = -1 \/ n = lengthZ bs) /\ lengthZ bs <= Z.max 0 len.
Proof.
  intros E. unfold recv_data in E.
  pose proof (recv_data_loop_bound _ _ _ _ _ _ _ E) as Hb.
  apply recv_data_loop_prefix in E as (new & -> & _ & Hn).
  change (lengthZ []) with 0 in Hb. simpl in *. split; [done | lia].
Qed.

(** [recv_message_data] never stores more than [len] bytes, and stores
    exactly [len] when it succeeds. *)
Lemma recv_message_data_stored w len s bs w' :
  recv_message_data w len = (s, bs, w') ->
  lengthZ bs <= Z.max 0 len /\ (s = 0 -> lengthZ bs = Z.max 0 len).
Proof.
  unfold recv_message_data. intros H.
  assert (forall (wx : world) (data : list byte),
    (let '(nbytes, buf, w0) := recv_data wx 1 in
     if negb (nbytes =? 1)
     then (if nbytes <? 0 then get_errno w0 EIO else EBADMSG, data, w0)
     else if negb (char_eqb (char_at buf 0) char_newline)
          then (EBADMSG, data, w0) else (0, data, w0)) = (s, bs, w') ->
    data = bs) as Htrailer.
  { intros wx data Ht. destruct (recv_data wx 1) as [[n1 b1] w1].
    destruct (negb (n1 =? 1)); [by inversion Ht|].
    destruct (negb (char_eqb _ _)); by inversion Ht. }
  destruct (Z.gtb_spec len 0) as [Hpos|Hz].
  - destruct (recv_data w len) as [[n data] w1] eqn:E.
    apply recv_data_facts in E as [Hn Hb].
    destruct (Z.eqb_spec n len) as [->|Hne]; simpl negb in H; cbv iota in H.
    + apply Htrailer in H as ->. split; [done|]. intros _. lia.
    + injection H as Hs <- _. split; [done|]. intros ->.
      by apply short_read_status in Hs.
  - apply Htrailer in H as <-. change (lengthZ []) with 0. split; [lia|]. lia.
Qed.

Lemma overwrite_nil buf : overwrite buf [] = buf.
Proof. done. Qed.

(** X18: whatever the socket does and whatever the arguments, the bounded
    receive stores at most [maxlen] bytes at the start of the caller's
    buffer and leaves the rest of it alone; when it returns 0 the length
    it reports is the number of bytes stored and the connection is
    untouched; when it fails the type and length outputs are zero and the
    connection is not open. *)
Theorem bounded_receive_respects_bound w c type buf len maxlen :
  let r := yak_recv_message_in_buffer w (Some c) type (Some buf) len maxlen in
  exists bs,
    r_data r = Some (overwrite buf bs) /\ lengthZ bs <= Z.max 0 maxlen /\
    (r_status r = 0 -> r_conn r = Some c /\ r_len r = out len (lengthZ bs)) /\
    (r_status r <> 0 ->
     r_type r = out type char_nul /\ r_len r = out len 0 /\
     yak_is_open (r_conn r) = 0).
Proof.
  intros r.
  assert (r_status r <> 0 -> yak_is_open (r_conn r) = 0) as Hcl
    by apply yak_recv_message_in_buffer_error_closes.
  revert Hcl. subst r. unfold yak_recv_message_in_buffer.
  assert (forall s wx, s <> 0 ->
    exists s' wy, fail_and_close s wx (Some c) = (s', Some closed_connection, wy) /\
                  s' <> 0) as Hfc.
  { intros s wx Hs. rewrite fail_and_close_eq. eauto. }
  destruct (Z.ltb_spec (sock c) 0).
  { intros Hcl. exists []. simpl in *. repeat split; try done;
      try (change (lengthZ (@nil byte)) with 0; lia); by apply Hcl. }
  destruct (Z.ltb_spec maxlen 0).
  { destruct (Hfc EINVAL w) as (s' & wy & -> & Hs'); [done|].
    intros Hcl. exists []. simpl in *. repeat split; try done;
      try (change (lengthZ (@nil byte)) with 0; lia); by apply Hcl. }
  simpl andb. cbv iota.
  destruct (recv_message_info w) as [[s msg] w1] eqn:E1.
  destruct (Z.eqb_spec s 0) as [->|Hs]; simpl negb; cbv iota.
  2: { destruct (Hfc s w1 Hs) as (s' & wy & -> & Hs').
       intros Hcl. exists []. simpl in *. repeat split; try done;
      try (change (lengthZ (@nil byte)) with 0; lia); by apply Hcl. }
  apply recv_message_info_sound in E1 as (ds & _ & _ & _ & Hpos & _).
  destruct (Z.gtb_spec (msg_len msg) maxlen).
  { destruct (Hfc EMSGSIZE w1) as (s' & wy & -> & Hs'); [done|].
    intros Hcl. exists []. simpl in *. repeat split; try done;
      try (change (lengthZ (@nil byte)) with 0; lia); by apply Hcl. }
  destruct (recv_message_data w1 (msg_len msg)) as [[s2 bs] w2] eqn:E2.
  apply recv_message_data_stored in E2 as [Hb Hfull].
  simpl option_map.
  destruct (Z.eqb_spec s2 0) as [->|Hs2]; simpl negb; cbv iota.
  - intros Hcl. exists bs. simpl. repeat split; try done; try lia.
    f_equal. rewrite Hfull by done. lia.
  - destruct (Hfc s2 w2 Hs2) as (s' & wy & -> & Hs').
    intros Hcl. exists bs. simpl in *. repeat split; try done; try lia.
Qed.

(** X19: whatever the socket does and whatever the arguments, when the
    allocating receive fails every output it was given is cleared (type
    NUL, length 0, buffer [NULL]: the allocated buffer is never handed
    out); when it returns 0 the connection is untouched, the length is
    not negative, and the buffer handed out is [NULL] for length 0 and
    holds exactly as many bytes as the length otherwise. *)
Theorem allocating_receive_outputs w conn type data len :
  let r := yak_recv_message w conn type data len in
  (r_status r <> 0 ->
   r_type r = out type char_nul /\ r_len r = out len 0 /\ r_data r = out data None) /\
  (r_status r = 0 ->
   r_conn r = conn /\
   exists t n,
     r_type r = out type t /\ r_len r = out len n /\
     ((n = 0 /\ r_data r = Some None) \/
      (0 < n /\ exists buf, r_data r = Some (Some buf) /\ lengthZ buf = n))).
Proof.
  intros r. subst r. unfold yak_recv_message.
  assert (forall s wx c, s <> 0 ->
    exists s' wy, fail_and_close s wx (Some c) = (s', Some closed_connection, wy) /\
                  s' <> 0) as Hfc.
  { intros s wx c Hs. rewrite fail_and_close_eq. eauto. }
  destruct conn as [c|]; [|by split].
  destruct data; simpl negb; cbv iota; [|by split].
  destruct (sock c <? 0); [by split|].
  destruct (recv_message_info w) as [[s msg] w1] eqn:E1.
  destruct (Z.eqb_spec s 0) as [->|Hs]; simpl negb; cbv iota.
  2: { destruct (Hfc s w1 c Hs) as (s' & wy & -> & Hs'). by split. }
  apply recv_message_info_sound in E1 as (ds & _ & _ & _ & Hpos & _).
  destruct (Z.gtb_spec (msg_len msg) 0) as [Hgt|Hle].
  - destruct (sys_alloc w1) as [ok w2].
    destruct ok; simpl negb; cbv iota.
    2: { destruct (Hfc (get_errno w2 ENOMEM) w2 c) as (s' & wy & -> & Hs');
           [by apply get_errno_nonzero|]. by split. }
    destruct (recv_message_data w2 (msg_len msg)) as [[s2 buf] w3] eqn:E2.
    apply recv_message_data_stored in E2 as [Hb Hfull].
    destruct (Z.eqb_spec s2 0) as [->|Hs2]; simpl andb; cbv iota.
    + split; [done|]. intros _. split; [done|].
      exists (msg_type msg), (msg_len msg). simpl. repeat split; try done.
      right. split; [done|]. exists buf. split; [done|]. rewrite Hfull by done. lia.
    + simpl negb. cbv iota.
      destruct (Hfc s2 w3 c Hs2) as (s' & wy & -> & Hs'). by split.
  - split; [done|]. intros _. split; [done|].
    exists (msg_type msg), (msg_len msg). simpl. repeat split; try done.
    left. split; [lia|done].
Qed.

(** ** Resolving and connecting *)

Lemma decimal_length_port port :
  0 <= port <= 65535 -> 1 <= lengthZ (decimal port) <= 5.
Proof.
  intros [H0 H1]. rewrite decimal_length.
  pose proof (digits_lsd_length (Z.to_nat (Z.log2 port)) (Z.quot port 10) 4) as H.
  unfold lengthZ. split; [lia|].
  assert (0 <= Z.quot port 10 < 10 ^ Z.of_nat 4); [|lia].
  split; [apply Z.quot_pos; lia|].
  apply Z.quot_lt_upper_bound; simpl; lia.
Qed.

Lemma listaddrinfo_valid_port w host port passive :
  0 <= port <= 65535 ->
  listaddrinfo w (Some host) port passive =
    (default [] (w_resolve w host (string_of_list_byte (decimal port)) passive),
     log (SysGetaddrinfo host (string_of_list_byte (decimal port)) passive) w).
Proof.
  intros Hp. pose proof (decimal_length_port port Hp) as Hd.
  unfold listaddrinfo.
  destruct (Z.ltb_spec port 0); [lia|]. destruct (Z.gtb_spec port 65535); [lia|].
  simpl orb. cbv iota.
  rewrite print_integer_nonneg;
    [| lia | lia | unfold lengthZ; rewrite length_replicate; lia].
  destruct (Z.ltb_spec (lengthZ (decimal port)) 0); [lia|].
  rewrite takeZ_app_length. unfold sys_getaddrinfo.
  by destruct (w_resolve w host _ passive).
Qed.

(** X20: for a port in [0, 65535] [listaddrinfo] always reaches
    [getaddrinfo], exactly once, with the host it was given and the port
    written as a canonical decimal numeral (the 8-character service
    buffer never overflows); it returns the candidates found, none when
    resolution fails. *)
Theorem listaddrinfo_resolves_port w host port passive :
  0 <= port <= 65535 ->
  let service := string_of_list_byte (decimal port) in
  let '(list, w') := listaddrinfo w (Some host) port passive in
  canonical_decimal (decimal port) port /\
  list = default [] (w_resolve w host service passive) /\
  w_trace w' = w_trace w ++ [SysGetaddrinfo host service passive].
Proof.
  intros Hp service. rewrite listaddrinfo_valid_port by done.
  split; [apply decimal_canonical; lia|]. by split.
Qed.

Lemma listaddrinfo_resolves_port_witness :
  let '(list, w') := listaddrinfo quiet_world (Some "localhost"%string) 4000 false in
  canonical_decimal (decimal 4000) 4000 /\
  list = [] /\
  w_trace w' = [SysGetaddrinfo "localhost" "4000" false].
Proof.
  apply (listaddrinfo_resolves_port quiet_world "localhost"%string 4000 false). lia.
Defined.

(** X21: [yak_connect] on a non-[NULL] connection, whose previous content
    is irrelevant, ends in one of two states: it returns 0 and the
    connection holds a descriptor other than -1, the host resolved
    ("127.0.0.1" for a [NULL] host) and the port; or it returns a nonzero
    code and the connection is in the closed state of
    [YAK_CONNECTION_INITIALIZER]. *)
Theorem yak_connect_outcome w c host port :
  let '(s, c', w') := yak_connect w (Some c) host port in
  (s = 0 ->
   exists fd, fd <> -1 /\
     c' = Some {| peer := Some (host_or_loopback host); sock := fd; port := port |}) /\
  (s <> 0 -> c' = Some closed_connection) /\
  yak_connect w (Some closed_connection) host port = (s, c', w').
Proof.
  unfold yak_connect. fold (host_or_loopback host).
  destruct (listaddrinfo w _ port false) as [list w1].
  destruct (try_candidates _ list) as [s w2].
  simpl sock. destruct (Z.eqb_spec s (-1)) as [->|Hs].
  { repeat split; done. }
  destruct (sys_alloc w2) as [ok w3]. destruct ok; simpl negb; cbv iota.
  - repeat split; try done. intros _. by exists s.
  - rewrite fail_and_close_eq. repeat split; try done.
    intros E. by apply get_errno_nonzero in E.
Qed.

Lemma connect_fds_app tr1 tr2 : connect_fds (tr1 ++ tr2) = connect_fds tr1 ++ connect_fds tr2.
Proof. apply omap_app. Qed.

Lemma close_fds_app tr1 tr2 : close_fds (tr1 ++ tr2) = close_fds tr1 ++ close_fds tr2.
Proof. apply omap_app. Qed.

Lemma sys_socket_spec w ai :
  sockets_valid w ->
  let '(s, w') := sys_socket w ai in
  -1 <= s /\ sockets_valid w' /\ w_trace w' = w_trace w ++ [SysSocket ai].
Proof.
  unfold sys_socket, sockets_valid. simpl. intros Hv.
  destruct (w_socket w) as [|fd sch] eqn:E; simpl.
  - rewrite E. by repeat split.
  - inversion Hv; subst. by repeat split.
Qed.

Lemma sys_connect_spec w fd ai :
  sockets_valid w ->
  sockets_valid (snd (sys_connect w fd ai)) /\
  w_trace (snd (sys_connect w fd ai)) = w_trace w ++ [SysConnect fd ai].
Proof.
  unfold sys_connect, sockets_valid. simpl. intros Hv.
  by destruct (w_connect w).
Qed.

Lemma sys_close_spec w fd :
  sockets_valid w ->
  sockets_valid (snd (sys_close w fd)) /\
  w_trace (snd (sys_close w fd)) = w_trace w ++ [SysClose fd].
Proof.
  unfold sys_close, sockets_valid. simpl. intros Hv.
  destruct (w_close w) as [|e s]; [|destruct (e =? 0)]; done.
Qed.

(** The candidate loop closes every descriptor it does not keep. *)
Lemma try_candidates_fds list : forall w,
  sockets_valid w ->
  let '(s, w') := try_candidates w list in
  exists tr, w_trace w' = w_trace w ++ tr /\
    connect_fds tr = close_fds tr ++ (if s =? -1 then [] else [s]) /\
    -1 <= s /\ sockets_valid w'.
Proof.
  induction list as [|ai next IH]; intros w Hv; simpl.
  - exists []. rewrite app_nil_r. by repeat split.
  - pose proof (sys_socket_spec w ai Hv) as H1.
    destruct (sys_socket w ai) as [s w1]. destruct H1 as (Hs & Hv1 & Ht1).
    destruct (Z.eqb_spec s (-1)) as [->|Hne]; simpl negb; cbv iota.
    + specialize (IH w1 Hv1). destruct (try_candidates w1 next) as [s2 w2].
      destruct IH as (tr & Ht & Hfds & Hs2 & Hv2).
      exists (SysSocket ai :: tr). rewrite Ht, Ht1, <- app_assoc.
      repeat split; try done.
    + pose proof (sys_connect_spec w1 s ai Hv1) as [Hv2 Ht2].
      destruct (sys_connect w1 s ai) as [r w2]. simpl in Hv2, Ht2.
      destruct (negb (r =? -1)).
      * exists [SysSocket ai; SysConnect s ai]. rewrite Ht2, Ht1, <- app_assoc.
        destruct (Z.eqb_spec s (-1)); [lia|]. by repeat split.
      * pose proof (sys_close_spec w2 s Hv2) as [Hv3 Ht3].
        destruct (sys_close w2 s) as [r3 w3]. simpl in Hv3, Ht3.
        specialize (IH w3 Hv3). destruct (try_candidates w3 next) as [s4 w4].
        destruct IH as (tr & Ht & Hfds & Hs4 & Hv4).
        exists (SysSocket ai :: SysConnect s ai :: SysClose s :: tr).
        rewrite Ht, Ht3, Ht2, Ht1. repeat (rewrite <- app_assoc; simpl).
        repeat split; try done.
        change (connect_fds (SysSocket ai :: SysConnect s ai :: SysClose s :: tr))
          with (s :: connect_fds tr).
        change (close_fds (SysSocket ai :: SysConnect s ai :: SysClose s :: tr))
          with (s :: close_fds tr).
        by rewrite Hfds.
Qed.

(** The descriptors of a call of [yak_connect]: those connected, those
    closed, and the one the connection holds after a success. *)
Lemma yak_connect_fds w c host port :
  sockets_valid w ->
  let '(s, c', w') := yak_connect w (Some c) host port in
  exists tr, w_trace w' = w_trace w ++ tr /\
    connect_fds tr =
      close_fds tr ++ (if s =? 0 then [sock (default closed_connection c')] else []) /\
    (s = 0 -> exists c1, c' = Some c1 /\ 0 <= sock c1).
Proof.
  intros Hv. unfold yak_connect. fold (host_or_loopback host).
  assert (exists tr0 w1 list,
            listaddrinfo w (Some (host_or_loopback host)) port false = (list, w1) /\
            w_trace w1 = w_trace w ++ tr0 /\ connect_fds tr0 = [] /\
            close_fds tr0 = [] /\ sockets_valid w1) as (tr0 & w1 & list & -> & Ht0 & Hc0 & Hx0 & Hv1).
  { unfold listaddrinfo.
    destruct ((port <? 0) || (port >? 65535)).
    { exists [], (set_errno EINVAL w), []. rewrite app_nil_r. by repeat split. }
    destruct (print_integer _ _ _) as [n service].
    destruct (n <? 0).
    { exists [], (set_errno EOVERFLOW w), []. rewrite app_nil_r. by repeat split. }
    unfold sys_getaddrinfo.
    destruct (w_resolve w _ _ _); eexists [_], _, _; by repeat split. }
  set (w1' := match list with
              | [] => w1
              | ai :: _ => log (SysStderr (ai_canonname ai)) w1
              end).
  assert (exists tr1, w_trace w1' = w_trace w ++ tr1 /\ connect_fds tr1 = [] /\
                      close_fds tr1 = [] /\ sockets_valid w1')
    as (tr1 & Ht1 & Hc1 & Hx1 & Hv1').
  { subst w1'. destruct list as [|ai list].
    - by exists tr0.
    - exists (tr0 ++ [SysStderr (ai_canonname ai)]). simpl.
      rewrite Ht0, <- app_assoc, connect_fds_app, close_fds_app, Hc0, Hx0.
      by repeat split. }
  pose proof (try_candidates_fds list w1' Hv1') as H2.
  destruct (try_candidates w1' list) as [s w2].
  destruct H2 as (tr2 & Ht2 & Hfds & Hs & Hv2).
  simpl sock. destruct (Z.eqb_spec s (-1)) as [->|Hne].
  { exists (tr1 ++ tr2). rewrite Ht2, Ht1, <- app_assoc.
    rewrite connect_fds_app, close_fds_app, Hc1, Hx1, Hfds. simpl.
    rewrite app_nil_r. by repeat split. }
  assert (w_trace (snd (sys_alloc w2)) = w_trace w2) as Ha.
  { unfold sys_alloc. destruct (w_alloc w2) as [|e sch]; [|destruct (e =? 0)]; done. }
  destruct (sys_alloc w2) as [ok w3]. simpl in Ha.
  destruct ok; simpl negb; cbv iota.
  - exists (tr1 ++ tr2). rewrite Ha, Ht2, Ht1, <- app_assoc.
    rewrite connect_fds_app, close_fds_app, Hc1, Hx1, Hfds. simpl.
    repeat split; try done.
    eexists. split; [reflexivity|]. simpl. lia.
  - rewrite fail_and_close_eq.
    pose proof (get_errno_nonzero w3 ENOMEM ltac:(done)) as Hn.
    destruct (Z.eqb_spec (get_errno w3 ENOMEM) 0); [done|].
    exists (tr1 ++ tr2 ++ [SysClose s]). cbn [snd].
    rewrite yak_close_trace by (simpl; lia). simpl sock.
    rewrite Ha, Ht2, Ht1, <- !app_assoc.
    rewrite !connect_fds_app, !close_fds_app, Hc1, Hx1, Hfds. simpl.
    destruct (Z.eqb_spec s (-1)); [lia|]. done.
Qed.

(** X22: [yak_connect] leaks no descriptor.  Provided [socket] returns
    a descriptor or -1, every descriptor passed to [connect] was closed
    again, in the order they were connected, except the one held by the
    connection when 0 is returned; after a failure, a failed [strdup]
    included, none is left open. *)
Theorem yak_connect_leaks_no_descriptor w c host port :
  sockets_valid w ->
  let '(s, c', w') := yak_connect w (Some c) host port in
  exists tr, w_trace w' = w_trace w ++ tr /\
    connect_fds tr =
      close_fds tr ++ (if s =? 0 then [sock (default closed_connection c')] else []).
Proof.
  intros Hv. pose proof (yak_connect_fds w c host port Hv) as H.
  destruct (yak_connect w (Some c) host port) as [[s c'] w'].
  destruct H as (tr & Ht & Hfds & _). by exists tr.
Qed.

Lemma yak_connect_leaks_no_descriptor_witness :
  let ai := {| ai_family := 2; ai_socktype := 1; ai_protocol := 6;
               ai_addr := "10.0.0.1"; ai_canonname := "peer" |} in
  let w := set_connect [-1; 0]
             (set_socket [3; 4]
                {| w_errno := 0; w_rx_data := []; w_rx_sched := []; w_tx_sched := [];
                   w_wire := []; w_close := []; w_alloc := []; w_socket := [];
                   w_connect := []; w_resolve := fun _ _ _ => Some [ai; ai];
                   w_trace := [] |}) in
  let '(s, c', w') := yak_connect w (Some closed_connection) (Some "peer"%string) 4000 in
  exists tr, w_trace w' = w_trace w ++ tr /\
    connect_fds tr =
      close_fds tr ++ (if s =? 0 then [sock (default closed_connection c')] else []).
Proof.
  intros ai w.
  apply (yak_connect_leaks_no_descriptor w closed_connection (Some "peer"%string) 4000).
  repeat constructor; discriminate.
Defined.

(** X23: when name resolution finds nothing for a port in range,
    [yak_connect] returns [EACCES] with the connection closed: the only
    call made is the one to [getaddrinfo], and no socket is created. *)
Theorem yak_connect_unresolved w c host port :
  0 <= port <= 65535 ->
  default [] (w_resolve w (host_or_loopback host)
                (string_of_list_byte (decimal port)) false) = [] ->
  let '(s, c', w') := yak_connect w (Some c) host port in
  s = EACCES /\ c' = Some closed_connection /\
  w_trace w' =
    w_trace w ++ [SysGetaddrinfo (host_or_loopback host)
                    (string_of_list_byte (decimal port)) false].
Proof.
  intros Hp Hres. unfold yak_connect. fold (host_or_loopback host).
  rewrite listaddrinfo_valid_port by done. by rewrite Hres.
Qed.

Lemma yak_connect_unresolved_witness :
  let '(s, c', w') := yak_connect quiet_world (Some open_connection) None 4000 in
  s = EACCES /\ c' = Some closed_connection /\
  w_trace w' = [SysGetaddrinfo "127.0.0.1" "4000" false].
Proof.
  apply (yak_connect_unresolved quiet_world open_connection None 4000).
  - lia.
  - reflexivity.
Defined.

(** ** A failure is final *)

(** What every entry point does with a connection that is not open: it
    returns at once, and no system call is made. *)
Lemma not_open_refused c :
  yak_is_open (Some c) = 0 ->
  forall w,
    (forall t d l, yak_send_message w (Some c) t d l = (EBADF, Some c, w)) /\
    (forall type data len maxlen,
       let r := yak_recv_message_in_buffer w (Some c) type data len maxlen in
       r_status r = EBADF /\ r_conn r = Some c /\ r_world r = w /\ r_data r = data) /\
    (forall type len,
       let r := yak_recv_message w (Some c) type true len in
       r_status r = EBADF /\ r_conn r = Some c /\ r_world r = w /\
       r_data r = Some None) /\
    yak_close w (Some c) = (0, Some closed_connection, w).
Proof.
  intros Hc w. unfold yak_is_open in Hc.
  assert (sock c < 0) as Hs by (destruct (Z.geb_spec (sock c) 0); [done|lia]).
  repeat split.
  - intros t d l. unfold yak_send_message.
    by destruct (Z.ltb_spec (sock c) 0); [|lia].
  - unfold yak_recv_message_in_buffer.
    by destruct (Z.ltb_spec (sock c) 0); [|lia].
  - unfold yak_recv_message_in_buffer.
    by destruct (Z.ltb_spec (sock c) 0); [|lia].
  - unfold yak_recv_message_in_buffer.
    by destruct (Z.ltb_spec (sock c) 0); [|lia].
  - unfold yak_recv_message_in_buffer.
    by destruct (Z.ltb_spec (sock c) 0); [|lia].
  - unfold yak_recv_message. simpl negb. cbv iota.
    by destruct (Z.ltb_spec (sock c) 0); [|lia].
  - unfold yak_recv_message. simpl negb. cbv iota.
    by destruct (Z.ltb_spec (sock c) 0); [|lia].
  - unfold yak_recv_message. simpl negb. cbv iota.
    by destruct (Z.ltb_spec (sock c) 0); [|lia].
  - unfold yak_recv_message. simpl negb. cbv iota.
    by destruct (Z.ltb_spec (sock c) 0); [|lia].
  - by apply yak_close_closed.
Qed.

Lemma yak_send_message_conn_some w c type data len s conn' w' :
  yak_send_message w (Some c) type data len = (s, conn', w') ->
  exists c', conn' = Some c'.
Proof.
  unfold yak_send_message. intros H.
  repeat case_match;
    try (rewrite fail_and_close_eq in H); inversion H; subst; eauto.
Qed.

Lemma yak_recv_message_in_buffer_conn_some w c type data len maxlen :
  exists c', r_conn (yak_recv_message_in_buffer w (Some c) type data len maxlen)
             = Some c'.
Proof.
  unfold yak_recv_message_in_buffer.
  repeat first [ rewrite fail_and_close_eq | case_match ]; simpl; eauto.
Qed.

Lemma yak_recv_message_conn_some w c type data len :
  exists c', r_conn (yak_recv_message w (Some c) type data len) = Some c'.
Proof.
  unfold yak_recv_message.
  repeat first [ rewrite fail_and_close_eq | case_match ]; simpl; eauto.
Qed.

(** X24: a failed send is final.  Once [yak_send_message] has returned a
    nonzero code on a non-[NULL] connection, every later call on that
    connection returns without a system call, whatever the state of the
    socket: a send and both receives return [EBADF], and [yak_close]
    returns 0 without closing the descriptor a second time. *)
Theorem failed_send_is_final w c type data len s conn' w' :
  yak_send_message w (Some c) type data len = (s, conn', w') ->
  s <> 0 ->
  forall w2,
    (forall t d l, yak_send_message w2 conn' t d l = (EBADF, conn', w2)) /\
    (forall ty buf ln maxlen,
       let r := yak_recv_message_in_buffer w2 conn' ty buf ln maxlen in
       r_status r = EBADF /\ r_conn r = conn' /\ r_world r = w2 /\ r_data r = buf) /\
    (forall ty ln,
       let r := yak_recv_message w2 conn' ty true ln in
       r_status r = EBADF /\ r_conn r = conn' /\ r_world r = w2 /\
       r_data r = Some None) /\
    yak_close w2 conn' = (0, Some closed_connection, w2).
Proof.
  intros E Hs w2.
  destruct (yak_send_message_conn_some _ _ _ _ _ _ _ _ E) as [c' ->].
  apply not_open_refused.
  by apply (yak_send_message_error_closes w c type data len s _ w').
Qed.

Lemma failed_send_is_final_witness :
  yak_send_message (set_rx (ascii "R:2" ++ [char_newline] ++ ascii "ok" ++ [char_newline])
                      [] quiet_world)
    (Some closed_connection) "X" (Some (ascii "ls")) 2 =
  (EBADF, Some closed_connection,
   set_rx (ascii "R:2" ++ [char_newline] ++ ascii "ok" ++ [char_newline]) [] quiet_world).
Proof.
  assert (yak_send_message (set_tx [TxFail EIO] [] quiet_world)
            (Some open_connection) "X" (Some (ascii "ls")) 2 =
          (EIO, Some closed_connection,
           log (SysClose 3) (set_errno EIO quiet_world))) as E
    by (vm_compute; reflexivity).
  assert (EIO <> 0) as Hs by discriminate.
  destruct (failed_send_is_final _ _ _ _ _ _ _ _ E Hs
              (set_rx (ascii "R:2" ++ [char_newline] ++ ascii "ok" ++ [char_newline])
                 [] quiet_world)) as (H & _).
  apply H.
Defined.

(** X25: a failed receive is final.  Once either receive function has
    returned a nonzero code on a non-[NULL] connection (the allocating
    one being given a non-[NULL] [data] pointer), every later call on that
    connection returns without a system call: the bytes still pending on
    the socket are never read, a send and both receives return [EBADF], and
    [yak_close] returns 0 without closing the descriptor a second time. *)
Theorem failed_receive_is_final w c type data len maxlen conn' :
  (r_status (yak_recv_message_in_buffer w (Some c) type data len maxlen) <> 0 /\
   conn' = r_conn (yak_recv_message_in_buffer w (Some c) type data len maxlen)) \/
  (r_status (yak_recv_message w (Some c) type true len) <> 0 /\
   conn' = r_conn (yak_recv_message w (Some c) type true len)) ->
  forall w2,
    (forall t d l, yak_send_message w2 conn' t d l = (EBADF, conn', w2)) /\
    (forall ty buf ln maxlen,
       let r := yak_recv_message_in_buffer w2 conn' ty buf ln maxlen in
       r_status r = EBADF /\ r_conn r = conn' /\ r_world r = w2 /\ r_data r = buf) /\
    (forall ty ln,
       let r := yak_recv_message w2 conn' ty true ln in
       r_status r = EBADF /\ r_conn r = conn' /\ r_world r = w2 /\
       r_data r = Some None) /\
    yak_close w2 conn' = (0, Some closed_connection, w2).
Proof.
  intros [[Hs ->]|[Hs ->]] w2.
  - destruct (yak_recv_message_in_buffer_conn_some w c type data len maxlen)
      as [c' Hc'].
    pose proof (yak_recv_message_in_buffer_error_closes _ _ _ _ _ _ Hs) as Ho.
    rewrite Hc' in *. by apply not_open_refused.
  - destruct (yak_recv_message_conn_some w c type true len) as [c' Hc'].
    pose proof (yak_recv_message_error_closes _ _ _ _ Hs) as Ho.
    rewrite Hc' in *. by apply not_open_refused.
Qed.

Lemma failed_receive_is_final_witness :
  let w := set_rx (ascii "R;2" ++ [char_newline] ++ ascii "ok" ++ [char_newline])
             [] quiet_world in
  let r := yak_recv_message w (Some open_connection) true true true in
  let r2 := yak_recv_message (r_world r) (r_conn r) true true true in
  r_status r = EBADMSG /\ r_status r2 = EBADF /\ r_world r2 = r_world r.
Proof.
  cbv zeta.
  set (w := set_rx (ascii "R;2" ++ [char_newline] ++ ascii "ok" ++ [char_newline])
              [] quiet_world).
  assert (r_status (yak_recv_message w (Some open_connection) true true true)
          = EBADMSG) as Hs by (vm_compute; reflexivity).
  split; [exact Hs|].
  assert (r_status (yak_recv_message w (Some open_connection) true true true) <> 0)
    as Hne by (rewrite Hs; discriminate).
  destruct (failed_receive_is_final w open_connection true None true 0 _
              (or_intror (conj Hne eq_refl))
              (r_world (yak_recv_message w (Some open_connection) true true true)))
    as (_ & _ & H3 & _).
  destruct (H3 true true) as (H4 & _ & H5 & _). split; assumption.
Defined.

(** * The command-line client *)

(** ** The system calls of a session *)

Arguments yak_send_message : simpl never.
Arguments yak_recv_message : simpl never.
Arguments yak_connect : simpl never.
Arguments strlen : simpl never.

Lemma sys_recv_trace w len : w_trace (snd (sys_recv w len)) = w_trace w.
Proof. unfold sys_recv. by destruct (w_rx_sched w) as [|[k|e] sch]. Qed.

Lemma recv_data_loop_trace fuel : forall w got len,
  w_trace (snd (recv_data_loop fuel w got len)) = w_trace w.
Proof.
  induction fuel as [|fuel IH]; intros w got len; simpl; [done|].
  destruct (len >? 0); [|done].
  pose proof (sys_recv_trace w len) as H.
  destruct (sys_recv w len) as [[n bs] w1]. simpl in H.
  destruct (n <? 0); [done|]. destruct (n =? 0); [done|].
  by rewrite IH.
Qed.

Lemma recv_data_trace w len : w_trace (snd (recv_data w len)) = w_trace w.
Proof. unfold recv_data. apply recv_data_loop_trace. Qed.

Lemma recv_message_info_loop_trace fuel : forall w len c,
  w_trace (snd (recv_message_info_loop fuel w len c)) = w_trace w.
Proof.
  induction fuel as [|fuel IH]; intros w len c;
    unfold recv_message_info_loop; fold recv_message_info_loop.
  - by destruct (char_eqb c char_newline).
  - destruct (char_eqb c char_newline); [done|].
    destruct (is_digit c); [|done]. cbv zeta.
    destruct (_ <? len); [done|].
    pose proof (recv_data_trace w 1) as H.
    destruct (recv_data w 1) as [[n buf] w1]. simpl in H.
    destruct (negb (n =? 1)); [done|]. by rewrite IH.
Qed.

Lemma recv_message_info_trace w :
  w_trace (snd (recv_message_info w)) = w_trace w.
Proof.
  unfold recv_message_info.
  pose proof (recv_data_trace w 4) as H.
  destruct (recv_data w 4) as [[n buf] w1]. simpl in H.
  destruct (negb (n =? 4)); [done|].
  destruct (negb (char_eqb _ _)); [done|].
  destruct (_ || _); [done|]. cbv zeta.
  pose proof (recv_message_info_loop_trace (S (length (w_rx_data w1))) w1
                (Z_of_char (char_at buf 2) - Z_of_char char_zero) (char_at buf 3)) as H2.
  destruct (recv_message_info_loop _ _ _ _) as [[status len] w2]. simpl in H2.
  destruct (negb (status =? 0)); simpl; congruence.
Qed.

Lemma recv_message_data_trace w len :
  w_trace (snd (recv_message_data w len)) = w_trace w.
Proof.
  unfold recv_message_data.
  assert (forall w0 (data : list byte), w_trace w0 = w_trace w ->
    w_trace (snd (let '(nbytes, buf, w1) := recv_data w0 1 in
                  if negb (nbytes =? 1)
                  then (if nbytes <? 0 then get_errno w1 EIO else EBADMSG, data, w1)
                  else if negb (char_eqb (char_at buf 0) char_newline)
                       then (EBADMSG, data, w1) else (0, data, w1))) = w_trace w) as Htl.
  { intros w0 data H0. pose proof (recv_data_trace w0 1) as H.
    destruct (recv_data w0 1) as [[n buf] w1]. simpl in H.
    destruct (negb (n =? 1)); [simpl; congruence|].
    destruct (negb (char_eqb _ _)); simpl; congruence. }
  destruct (len >? 0).
  - pose proof (recv_data_trace w len) as H.
    destruct (recv_data w len) as [[n data] w1]. simpl in H.
    destruct (negb (n =? len)); [done|]. by apply Htl.
  - by apply Htl.
Qed.

Lemma sys_alloc_trace w : w_trace (snd (sys_alloc w)) = w_trace w.
Proof.
  unfold sys_alloc. destruct (w_alloc w) as [|e s]; [|destruct (e =? 0)]; done.
Qed.

Lemma send_data_trace w data len : w_trace (snd (send_data w data len)) = w_trace w.
Proof.
  destruct (send_data w data len) as [n w'] eqn:E. unfold send_data in E.
  by apply send_data_loop_sent in E as (k & _ & _ & _ & _ & Htr & _); [|lia].
Qed.

(** The only connection-management call [yak_send_message] makes on an
    open connection is the [close] of its error path. *)
Lemma yak_send_message_trace w c type data len s conn' w' :
  0 <= sock c ->
  yak_send_message w (Some c) type data len = (s, conn', w') ->
  (s = 0 /\ conn' = Some c /\ w_trace w' = w_trace w) \/
  (s <> 0 /\ conn' = Some closed_connection /\
   w_trace w' = w_trace w ++ [SysClose (sock c)]).
Proof.
  intros Hc E. unfold yak_send_message in E.
  assert (forall n wx, get_errno wx (if n <? 0 then EIO else ECONNRESET) <> 0) as Hne.
  { intros n wx. apply get_errno_nonzero. by destruct (n <? 0). }
  assert (forall s0 wx,
            fail_and_close s0 wx (Some c) = (s, conn', w') ->
            s0 <> 0 -> w_trace wx = w_trace w ->
            (s = 0 /\ conn' = Some c /\ w_trace w' = w_trace w) \/
            (s <> 0 /\ conn' = Some closed_connection /\
             w_trace w' = w_trace w ++ [SysClose (sock c)])) as Hfc.
  { intros s0 wx Hf Hs Ht. right. rewrite fail_and_close_eq in Hf.
    inversion Hf; subst. by rewrite yak_close_trace, Ht. }
  destruct (Z.ltb_spec (sock c) 0); [lia|].
  destruct (len <? 0); [by apply Hfc in E|].
  destruct (is_null data && (len >? 0)); [by apply Hfc in E|].
  destruct (print_integer _ _ _) as [nd dg].
  destruct ((nd <? 0) || (nd + 3 >=? 32)); [by apply Hfc in E|].
  match type of E with context [send_data w ?h ?l] =>
    pose proof (send_data_trace w h l) as H1;
    destruct (send_data w h l) as [n1 w1] end. simpl in H1.
  destruct (negb (n1 =? nd + 3)); [by apply Hfc in E|].
  destruct (len >? 0).
  - pose proof (send_data_trace w1 (default [] data) len) as H2.
    destruct (send_data w1 _ _) as [n2 w2]. simpl in H2.
    destruct (negb (n2 =? len)); [apply Hfc in E; [done|done|congruence]|].
    pose proof (send_data_trace w2 [char_newline] 1) as H3.
    destruct (send_data w2 _ _) as [n3 w3]. simpl in H3.
    destruct (negb (n3 =? 1)); [apply Hfc in E; [done|done|congruence]|].
    left. inversion E; subst. repeat split; congruence.
  - pose proof (send_data_trace w1 [char_newline] 1) as H3.
    destruct (send_data w1 _ _) as [n3 w3]. simpl in H3.
    destruct (negb (n3 =? 1)); [apply Hfc in E; [done|done|congruence]|].
    left. inversion E; subst. repeat split; congruence.
Qed.

(** The same for the allocating receive given a [data] pointer. *)
Lemma yak_recv_message_trace w c type len :
  0 <= sock c ->
  let r := yak_recv_message w (Some c) type true len in
  (r_status r = 0 /\ r_conn r = Some c /\ w_trace (r_world r) = w_trace w) \/
  (r_status r <> 0 /\ r_conn r = Some closed_connection /\
   w_trace (r_world r) = w_trace w ++ [SysClose (sock c)]).
Proof.
  intros Hc. cbv zeta. unfold yak_recv_message. simpl negb. cbv iota.
  destruct (Z.ltb_spec (sock c) 0); [lia|].
  pose proof (recv_message_info_trace w) as H1.
  destruct (recv_message_info w) as [[s1 msg] w1]. simpl in H1.
  destruct (Z.eqb_spec s1 0) as [->|Hs1]; simpl negb; cbv iota.
  2: { right. rewrite fail_and_close_eq. simpl.
       by rewrite yak_close_trace, H1. }
  destruct (msg_len msg >? 0); [|by left].
  pose proof (sys_alloc_trace w1) as H2.
  destruct (sys_alloc w1) as [ok w2]. simpl in H2.
  destruct ok; simpl negb; cbv iota.
  2: { right. rewrite fail_and_close_eq. simpl.
       rewrite yak_close_trace, H2, H1 by done.
       split; [by apply get_errno_nonzero|done]. }
  pose proof (recv_message_data_trace w2 (msg_len msg)) as H3.
  destruct (recv_message_data w2 (msg_len msg)) as [[s3 buf] w3]. simpl in H3.
  destruct (Z.eqb_spec s3 0) as [->|Hs3]; simpl.
  - left. repeat split; congruence.
  - right. rewrite fail_and_close_eq. simpl.
    rewrite yak_close_trace by done. repeat split; congruence.
Qed.

(** The loop of [main] on an open connection: either it ends by [break]
    with the connection as it was and no call made, or [main] returns 1
    from inside it and the socket has been closed. *)
Lemma main_loop_trace prog lines : forall w c con,
  0 <= sock c ->
  let '(code, conn', w', con') := main_loop prog lines w (Some c) con in
  (code = None /\ conn' = Some c /\ w_trace w' = w_trace w) \/
  (code = Some 1 /\ w_trace w' = w_trace w ++ [SysClose (sock c)]).
Proof.
  induction lines as [|line lines IH]; intros w c con Hc; simpl.
  - by left.
  - destruct (yak_send_message w (Some c) char_X (Some line) (strlen line))
      as [[s conn1] w1] eqn:E1.
    destruct (yak_send_message_trace _ _ _ _ _ _ _ _ Hc E1)
      as [(-> & -> & Ht1)|(Hs & -> & Ht1)].
    2: { destruct (Z.eqb_spec s 0); [done|]. simpl. by right. }
    simpl negb. cbv iota.
    destruct (yak_recv_message_trace w1 c true true Hc)
      as [(Hs2 & Hc2 & Ht2)|(Hs2 & Hc2 & Ht2)].
    + rewrite Hs2, Hc2. simpl negb. cbv iota.
      match goal with |- context [main_loop prog lines ?wx (Some c) ?cx] =>
        specialize (IH wx c cx Hc);
        destruct (main_loop prog lines wx (Some c) cx) as [[[code conn'] w'] con'] end.
      rewrite Ht2, Ht1 in IH. done.
    + destruct (Z.eqb_spec (r_status (yak_recv_message w1 (Some c) true true true)) 0);
        [done|]. simpl. right. by rewrite Ht2, Ht1.
Qed.

Lemma parse_options_exit argv con code con' :
  parse_options argv con = Exit code con' -> code = 0 \/ code = 1.
Proof.
  unfold parse_options. intros H.
  repeat case_match; inversion H; auto.
Qed.

(** X26: [main] leaks no socket and returns 0 or 1.  Provided [socket]
    returns a descriptor or -1, whatever the command line, the lines
    typed, the result of [sscanf] and the behaviour of the network and of
    the server, every descriptor connected during the run has been closed
    by the time [main] returns, each exactly once and in the order they
    were connected: also on the paths that return from inside the loop
    without calling [yak_close]. *)
Theorem main_leaks_no_socket scan argv lines w :
  sockets_valid w ->
  let '(code, w', con) := main scan argv lines w in
  (code = 0 \/ code = 1) /\
  exists tr, w_trace w' = w_trace w ++ tr /\ connect_fds tr = close_fds tr.
Proof.
  intros Hv. unfold main.
  assert (forall code : Z, code = 0 \/ code = 1 ->
            (code = 0 \/ code = 1) /\
            exists tr, w_trace w = w_trace w ++ tr /\ connect_fds tr = close_fds tr)
    as Hquiet.
  { intros code Hcode. split; [done|]. exists []. by rewrite app_nil_r. }
  destruct (parse_options argv _) as [code con|i1] eqn:Ep.
  { apply Hquiet. by apply parse_options_exit in Ep. }
  destruct ((_ <? 1) || _); [apply Hquiet; by right|].
  destruct (scan _) as [count port].
  destruct (negb _ || _); [apply Hquiet; by right|].
  match goal with |- context [yak_connect w _ ?h ?p] =>
    pose proof (yak_connect_fds w closed_connection h p Hv) as Hcon;
    destruct (yak_connect w (Some closed_connection) h p) as [[status conn] w1] end.
  destruct Hcon as (tr & Ht & Hfds & Hopen).
  destruct (Z.eqb_spec status 0) as [->|Hne]; simpl negb; cbv iota.
  2: { split; [by right|]. exists tr. by rewrite Hfds, app_nil_r. }
  destruct Hopen as (c1 & -> & Hc1); [done|]. simpl in Hfds.
  match goal with |- context [main_loop ?p lines w1 (Some c1) ?cx] =>
    pose proof (main_loop_trace p lines w1 c1 cx Hc1) as Hl;
    destruct (main_loop p lines w1 (Some c1) cx) as [[[code conn'] w2] con2] end.
  destruct Hl as [(-> & -> & Ht2)|(-> & Ht2)].
  - pose proof (yak_close_trace w2 c1 Hc1) as Hcl.
    destruct (yak_close w2 (Some c1)) as [[x y] w3]. simpl in Hcl.
    split; [by left|]. exists (tr ++ [SysClose (sock c1)]).
    rewrite Hcl, Ht2, Ht, app_assoc. split; [done|].
    by rewrite connect_fds_app, close_fds_app, Hfds, app_nil_r.
  - split; [by right|]. exists (tr ++ [SysClose (sock c1)]).
    rewrite Ht2, Ht, app_assoc. split; [done|].
    by rewrite connect_fds_app, close_fds_app, Hfds, app_nil_r.
Qed.

Lemma main_leaks_no_socket_witness :
  let ai := {| ai_family := 2; ai_socktype := 1; ai_protocol := 6;
               ai_addr := "10.0.0.1"; ai_canonname := "peer" |} in
  let w := {| w_errno := 0; w_rx_data := []; w_rx_sched := []; w_tx_sched := [];
              w_wire := []; w_close := []; w_alloc := []; w_socket := [3; 4];
              w_connect := [-1; 0]; w_resolve := fun _ _ _ => Some [ai; ai];
              w_trace := [] |} in
  let '(code, w', con) :=
    main (fun _ => (1, 4000)) ["yak"; "4000"]%string [ascii "ls"] w in
  (code = 0 \/ code = 1) /\
  exists tr, w_trace w' = w_trace w ++ tr /\ connect_fds tr = close_fds tr.
Proof.
  intros ai w.
  apply (main_leaks_no_socket (fun _ => (1, 4000)) ["yak"; "4000"]%string
           [ascii "ls"] w).
  repeat constructor; discriminate.
Defined.

(** ** The command line *)

Lemma yak_send_message_extends w conn type data len :
  extends w (snd (yak_send_message w conn type data len)).
Proof.
  destruct conn as [c|]; [|apply extends_refl].
  destruct (Z.lt_ge_cases (sock c) 0) as [Hc|Hc].
  - unfold yak_send_message. destruct (Z.ltb_spec (sock c) 0); [|lia].
    apply extends_refl.
  - destruct (yak_send_message w (Some c) type data len) as [[s conn'] w'] eqn:E.
    destruct (yak_send_message_trace _ _ _ _ _ _ _ _ Hc E)
      as [(_ & _ & Ht)|(_ & _ & Ht)]; simpl.
    + exists []. by rewrite app_nil_r.
    + by eexists.
Qed.

Lemma yak_recv_message_extends w conn type len :
  extends w (r_world (yak_recv_message w conn type true len)).
Proof.
  destruct conn as [c|]; [|apply extends_refl].
  destruct (Z.lt_ge_cases (sock c) 0) as [Hc|Hc].
  - unfold yak_recv_message. simpl negb. cbv iota.
    destruct (Z.ltb_spec (sock c) 0); [|lia]. apply extends_refl.
  - destruct (yak_recv_message_trace w c type len Hc)
      as [(_ & _ & Ht)|(_ & _ & Ht)].
    + exists []. by rewrite app_nil_r.
    + by eexists.
Qed.

Lemma main_loop_extends prog lines : forall w conn con,
  extends w (snd (fst (main_loop prog lines w conn con))).
Proof.
  induction lines as [|line lines IH]; intros w conn con; simpl.
  - apply extends_refl.
  - pose proof (yak_send_message_extends w conn char_X (Some line) (strlen line)) as H1.
    destruct (yak_send_message w conn char_X (Some line) (strlen line))
      as [[s conn1] w1]. simpl in H1.
    destruct (negb (s =? 0)); [done|].
    pose proof (yak_recv_message_extends w1 conn1 true true) as H2.
    destruct (negb (r_status _ =? 0)); [by apply (extends_trans w w1)|].
    eapply extends_trans; [exact H1|]. eapply extends_trans; [exact H2|]. apply IH.
Qed.

Lemma yak_connect_resolves w c host port :
  0 <= port <= 65535 ->
  extends (log (SysGetaddrinfo (host_or_loopback host)
                  (string_of_list_byte (decimal port)) false) w)
          (snd (yak_connect w (Some c) host port)).
Proof.
  intros Hp. unfold yak_connect. fold (host_or_loopback host).
  rewrite listaddrinfo_valid_port by done.
  set (w0 := log _ w).
  set (list := default [] _).
  set (w1 := match list with [] => w0 | ai :: _ => log (SysStderr (ai_canonname ai)) w0 end).
  assert (extends w0 w1) as H1 by (subst w1; destruct list; auto with trace).
  pose proof (try_candidates_extends list w1) as H2.
  destruct (try_candidates w1 list) as [s w2]. simpl in H2.
  simpl sock. destruct (s =? -1); [simpl; eauto with trace|].
  pose proof (sys_alloc_extends w2) as H3.
  destruct (sys_alloc w2) as [ok w3]. simpl in H3.
  destruct ok; simpl negb; cbv iota; [simpl; eauto with trace|].
  pose proof (fail_and_close_extends (get_errno w3 ENOMEM) w3
                (Some (with_sock s closed_connection))) as H4.
  eauto with trace.
Qed.

Lemma not_an_option s :
  char_eqb (first_char s) char_minus = false ->
  String.eqb s "--" = false /\ String.eqb s "--help" = false /\
  String.eqb s "-h" = false.
Proof.
  intros H. repeat split.
  all: match goal with |- String.eqb ?x ?o = false =>
         destruct (String.eqb_spec x o) as [->|]; [|done] end.
  all: vm_compute in H; discriminate.
Qed.

Lemma parse_options_positional prog portarg rest con :
  char_eqb (first_char portarg) char_minus = false ->
  parse_options (prog :: portarg :: rest) con = Positional 1.
Proof.
  intros H. destruct (not_an_option portarg H) as (H1 & H2 & H3).
  unfold parse_options.
  destruct (Z.ltb_spec 1 (lengthZ (prog :: portarg :: rest))) as [_|Hl];
    [|unfold lengthZ in Hl; simpl in Hl; lia].
  change (arg (prog :: portarg :: rest) 1) with portarg.
  by rewrite H1, H2, H3, H.
Qed.

(** X27: on a command line whose first argument does not begin with '-',
    [main] takes that argument for the port and the second, when there is
    one, for the host, which is "localhost" otherwise.  For a port that
    scans as one integer in [1, 65535] the first call [main] makes is
    [getaddrinfo] on that host with the port in decimal; for a larger
    port it makes no call at all and reports connection error 13
    ([EACCES]); and when [sscanf] does not return 1 or the port is not
    positive it reports an invalid port number, the world untouched.  In
    the last two cases it returns 1. *)
Theorem main_takes_port_first scan prog portarg hostarg lines w count port :
  char_eqb (first_char portarg) char_minus = false ->
  scan portarg = (count, port) ->
  let '(code, w', con) := main scan (command_line prog portarg hostarg) lines w in
  (count = 1 /\ 0 < port <= 65535 ->
   exists tr, w_trace w' =
     w_trace w ++ SysGetaddrinfo (default "localhost"%string hostarg)
                    (string_of_list_byte (decimal port)) false :: tr) /\
  (count = 1 /\ 65535 < port ->
   code = 1 /\ w' = set_errno EINVAL w /\
   c_stderr con = ascii prog ++ ascii ": connection error (13)." ++ [char_newline]) /\
  (count <> 1 \/ port <= 0 ->
   code = 1 /\ w' = w /\
   c_stderr con = ascii prog ++ ascii ": invalid port number." ++ [char_newline]).
Proof.
  intros Hopt Hscan. unfold main, command_line.
  rewrite parse_options_positional by done. cbv zeta.
  set (host := default "localhost"%string hostarg).
  assert (exists argv,
            prog :: portarg :: match hostarg with Some h => [h] | None => [] end = argv /\
            arg argv 0 = prog /\ arg argv 1 = portarg /\
            (lengthZ argv - 1 <? 1) || (lengthZ argv - 1 >? 2) = false /\
            (if lengthZ argv - 1 >=? 2 then arg argv (1 + 1) else "localhost"%string)
            = host) as (argv & -> & H0 & H1 & Hn & Hh)
    by (destruct hostarg; eexists; repeat split).
  rewrite Hn, H1, Hscan, H0, Hh. clear H0 H1 Hn Hh.
  destruct (Z.eqb_spec count 1) as [->|Hcount]; simpl negb; simpl orb; cbv iota.
  2: { repeat split; try done; lia. }
  destruct (Z.leb_spec port 0) as [Hneg|Hpos].
  { repeat split; try done; lia. }
  destruct (Z.le_gt_cases port 65535) as [Hle|Hgt].
  - pose proof (yak_connect_resolves w closed_connection (Some host) port
                  ltac:(lia)) as Hx.
    destruct (yak_connect w _ _ port) as [[status conn] w1]. simpl in Hx.
    assert (forall (code : Z) w2 (con : console), extends w1 w2 ->
              (1 = 1 /\ 0 < port <= 65535 ->
               exists tr, w_trace w2 =
                 w_trace w ++ SysGetaddrinfo host
                                (string_of_list_byte (decimal port)) false :: tr) /\
              (1 = 1 /\ 65535 < port ->
               code = 1 /\ w2 = set_errno EINVAL w /\
               c_stderr con =
                 ascii prog ++ ascii ": connection error (13)." ++ [char_newline]) /\
              (1 <> 1 \/ port <= 0 ->
               code = 1 /\ w2 = w /\
               c_stderr con =
                 ascii prog ++ ascii ": invalid port number." ++ [char_newline]))
      as Hend.
    { intros code w2 con H2. split; [|split; intros; lia]. intros _.
      destruct (extends_trans _ _ _ Hx H2) as [tr Ht].
      exists tr. rewrite Ht. simpl. by rewrite <- app_assoc. }
    destruct (negb (status =? 0)); [apply Hend, extends_refl|].
    pose proof (main_loop_extends prog lines w1 conn
                  {| c_stdout := []; c_stderr := []; c_history := [] |}) as Hl.
    destruct (main_loop _ _ _ _ _) as [[[code conn'] w2] con2]. simpl in Hl.
    destruct code as [code|]; [by apply Hend|].
    pose proof (yak_close_extends w2 conn') as Hc.
    destruct (yak_close w2 conn') as [[x y] w3]. simpl in Hc.
    apply Hend. eauto with trace.
  - unfold yak_connect, listaddrinfo.
    destruct (Z.ltb_spec port 0); [lia|]. destruct (Z.gtb_spec port 65535); [|lia].
    simpl. repeat split; try done; lia.
Qed.

Lemma main_takes_port_first_witness :
  exists tr,
    w_trace (snd (fst (main (fun _ => (1, 4000))
                         ["yak"; "4000"; "example.org"]%string [] quiet_world)))
    = SysGetaddrinfo "example.org" "4000" false :: tr.
Proof.
  pose proof (main_takes_port_first (fun _ => (1, 4000)) "yak" "4000"
                (Some "example.org"%string) [] quiet_world 1 4000
                eq_refl eq_refl) as H.
  unfold command_line in H.
  destruct (main _ _ _ _) as [[code w'] con].
  destruct H as (H & _). apply H. lia.
Defined.

(** ** A session on a healthy network *)

Lemma to_stdout_app a b con : to_stdout b (to_stdout a con) = to_stdout (a ++ b) con.
Proof. unfold to_stdout. simpl. by rewrite app_assoc. Qed.

Lemma to_stdout_nil con : to_stdout [] con = con.
Proof. unfold to_stdout. destruct con. simpl. by rewrite app_nil_r. Qed.

Lemma put_chars_spec q : forall pre con,
  put_chars (length q) (pre ++ q) (lengthZ pre) (lengthZ pre + lengthZ q) con
  = to_stdout q con.
Proof.
  induction q as [|x q IH]; intros pre con; simpl.
  - by rewrite to_stdout_nil.
  - pose proof (lengthZ_nonneg q) as Hq.
    assert (lengthZ (x :: q) = 1 + lengthZ q) as Hl
      by (unfold lengthZ; simpl length; lia).
    destruct (Z.ltb_spec (lengthZ pre) (lengthZ pre + lengthZ (x :: q))); [|lia].
    rewrite char_at_app.
    replace (pre ++ x :: q) with ((pre ++ [x]) ++ q) by (by rewrite <- app_assoc).
    replace (lengthZ pre + 1) with (lengthZ (pre ++ [x]))
      by (rewrite lengthZ_app; done).
    replace (lengthZ pre + lengthZ (x :: q)) with (lengthZ (pre ++ [x]) + lengthZ q)
      by (rewrite lengthZ_app, Hl; change (lengthZ [x]) with 1; lia).
    rewrite IH. by rewrite to_stdout_app.
Qed.

Lemma sys_alloc_healthy w :
  Forall (fun e => e = 0) (w_alloc w) ->
  exists s, sys_alloc w = (true, set_alloc s w) /\ Forall (fun e => e = 0) s.
Proof.
  unfold sys_alloc. intros H. destruct (w_alloc w) as [|e s] eqn:E.
  - exists []. split; [|done]. f_equal. destruct w; simpl in *. by subst.
  - inversion H; subst. by exists s.
Qed.

Lemma yak_send_message_healthy w c line :
  0 <= sock c -> healthy w -> lengthZ line <= LONG_MAX ->
  exists w', yak_send_message w (Some c) char_X (Some line) (strlen line)
             = (0, Some c, w') /\
    healthy w' /\ w_rx_data w' = w_rx_data w /\
    w_wire w' = w_wire w ++ command_frame line /\ w_trace w' = w_trace w.
Proof.
  intros Hc (Hrx & Htx & Ha) Hlen.
  destruct (yak_send_message_reliable w c char_X (Some line) Hc Hlen Htx)
    as (sch & Hs & E).
  eexists. split; [exact E|]. by repeat split.
Qed.

Lemma yak_recv_message_answer w c t ds p rest :
  0 <= sock c -> healthy w -> well_formed (t, ds, p) ->
  w_rx_data w = frame t ds p ++ rest ->
  exists w', yak_recv_message w (Some c) true true true =
      {| r_status := 0; r_conn := Some c; r_type := Some t;
         r_data := Some (Some p); r_len := Some (lengthZ p); r_world := w' |} /\
    healthy w' /\ w_rx_data w' = rest /\ w_wire w' = w_wire w /\
    w_trace w' = w_trace w.
Proof.
  intros Hc (Hrx & Htx & Ha) (Hne & Hds & Hval & Hpos & Hmax) Hdata.
  rewrite frame_split in Hdata.
  destruct (recv_message_info_header w t ds _ Hrx Hdata Hne Hds ltac:(lia))
    as (sch1 & Hs1 & E1). rewrite Hval in E1.
  unfold yak_recv_message. simpl negb. cbv iota.
  destruct (Z.ltb_spec (sock c) 0); [lia|]. rewrite E1. simpl negb. cbv iota.
  cbn [msg_len msg_type].
  destruct (Z.gtb_spec (lengthZ p) 0) as [_|]; [|lia].
  destruct (sys_alloc_healthy (set_rx (p ++ char_newline :: rest) sch1 w))
    as (s & -> & Hs); [done|]. simpl negb. cbv iota.
  destruct (recv_message_data_payload
              (set_alloc s (set_rx (p ++ char_newline :: rest) sch1 w))
              p rest Hs1 eq_refl) as (sch2 & Hs2 & ->).
  simpl. eexists. split; [reflexivity|]. by repeat split.
Qed.

(** X28: a session on a healthy network.  When the server answers each
    command with a well-formed message that is not empty, the loop of
    [main] runs to the end of the input with the connection open: each
    line typed went on the wire as one frame of type 'X', in order, empty
    lines included; each answer was written to [stdout] between its colour
    (red for type 'E', cyan otherwise) and a reset followed by a newline;
    nothing was written to [stderr]; the lines that are not empty went to
    the history; and exactly the answers were consumed. *)
Theorem main_loop_answers_every_command prog lines : forall answers w c con rest,
  0 <= sock c -> healthy w ->
  Forall (fun l => lengthZ l <= LONG_MAX) lines ->
  length answers = length lines -> Forall well_formed answers ->
  w_rx_data w = flat_map answer_frame answers ++ rest ->
  exists w' con',
    main_loop prog lines w (Some c) con = (None, Some c, w', con') /\
    healthy w' /\ w_rx_data w' = rest /\
    w_wire w' = w_wire w ++ flat_map command_frame lines /\
    w_trace w' = w_trace w /\
    c_stdout con' = c_stdout con ++ flat_map shown answers /\
    c_stderr con' = c_stderr con /\
    c_history con' =
      c_history con ++ List.filter (fun l => strlen l >? 0) lines.
Proof.
  induction lines as [|line lines IH];
    intros answers w c con rest Hc Hw Hlines Hlen Hans Hdata.
  - destruct answers; [|done]. simpl in *. exists w, con.
    rewrite !app_nil_r. split; [done|]. split; [done|]. by repeat split.
  - destruct answers as [|[[t ds] p] answers]; [done|].
    inversion Hlines as [|? ? Hline Hlines']; subst.
    inversion Hans as [|? ? Ha Hans']; subst.
    simpl in Hlen. injection Hlen as Hlen.
    simpl in Hdata. rewrite <- app_assoc in Hdata.
    destruct (yak_send_message_healthy w c line Hc Hw Hline)
      as (w1 & E1 & Hw1 & Hrx1 & Hwire1 & Ht1).
    rewrite <- Hrx1 in Hdata.
    destruct (yak_recv_message_answer w1 c t ds p _ Hc Hw1 Ha Hdata)
      as (w2 & E2 & Hw2 & Hrx2 & Hwire2 & Ht2).
    cbn [main_loop]. rewrite E1. simpl negb. cbv iota. rewrite E2.
    cbn [r_status r_type r_data r_len r_conn r_world default from_option id].
    simpl negb. cbv iota. cbv zeta.
    replace (Z.to_nat (lengthZ p)) with (length p)
      by (unfold lengthZ; by rewrite Nat2Z.id).
    pose proof (put_chars_spec p []) as Hput. simpl in Hput. rewrite Hput.
    rewrite !to_stdout_app.
    match goal with |- context [main_loop prog lines w2 (Some c) ?cx] =>
      destruct (IH answers w2 c cx rest Hc Hw2 Hlines' Hlen Hans' Hrx2)
        as (w' & con' & E & Hw' & Hrx' & Hwire' & Ht' & Hout & Herr & Hhist) end.
    exists w', con'. split; [exact E|].
    repeat split; try apply Hw'; try done.
    + rewrite Hwire', Hwire2, Hwire1. simpl. by rewrite <- app_assoc.
    + congruence.
    + rewrite Hout. simpl.
      destruct (strlen line >? 0); simpl; by repeat (rewrite <- app_assoc; simpl).
    + rewrite Herr. by destruct (strlen line >? 0).
    + rewrite Hhist. simpl.
      destruct (strlen line >? 0); simpl; [|done]. by rewrite <- app_assoc.
Qed.

Lemma main_loop_answers_every_command_witness :
  exists w' con',
    main_loop "yak" [ascii "ls"; []]
      (set_rx (frame "R" (ascii "2") (ascii "ok") ++ frame "E" (ascii "03") (ascii "bad"))
         [] quiet_world)
      (Some open_connection)
      {| c_stdout := []; c_stderr := []; c_history := [] |}
    = (None, Some open_connection, w', con') /\
    w_wire w' = command_frame (ascii "ls") ++ command_frame [] /\
    c_stdout con' = CYAN ++ ascii "ok" ++ RESET ++ [char_newline]
                    ++ RED ++ ascii "bad" ++ RESET ++ [char_newline] /\
    c_stderr con' = [] /\ c_history con' = [ascii "ls"].
Proof.
  destruct (main_loop_answers_every_command "yak" [ascii "ls"; []]
              [("R"%byte, ascii "2", ascii "ok"); ("E"%byte, ascii "03", ascii "bad")]
              (set_rx (frame "R" (ascii "2") (ascii "ok")
                       ++ frame "E" (ascii "03") (ascii "bad")) [] quiet_world)
              open_connection
              {| c_stdout := []; c_stderr := []; c_history := [] |} [])
    as (w' & con' & E & _ & _ & Hwire & _ & Hout & Herr & Hhist).
  - simpl. lia.
  - repeat split. constructor.
  - repeat constructor; vm_compute; discriminate.
  - reflexivity.
  - repeat constructor; try (vm_compute; discriminate); try reflexivity.
  - reflexivity.
  - exists w', con'. repeat split; assumption.
Defined.

(** ** An empty answer *)

(** X29: an empty answer ends the session at the next command.  When the
    server answers a command with a well-formed message of length 0 and
    the next one with any well-formed message, on a healthy network, the
    loop of [main] shows the empty answer, sends the next command, and
    then makes [main] return 1 with receiving answer failed (74) on
    [stderr], the connection closed: the trailing newline of the empty
    answer, left unread by [yak_recv_message], is taken for the type of
    the next answer.  The lines typed after that are never sent. *)
Theorem main_loop_empty_answer prog l1 l2 lines t1 ds1 t2 ds2 p2 rest w c con :
  0 <= sock c -> healthy w ->
  lengthZ l1 <= LONG_MAX -> lengthZ l2 <= LONG_MAX ->
  ds1 <> [] -> all_digits ds1 -> decimal_value ds1 = 0 -> ds2 <> [] ->
  w_rx_data w = frame t1 ds1 [] ++ frame t2 ds2 p2 ++ rest ->
  exists w' con',
    main_loop prog (l1 :: l2 :: lines) w (Some c) con =
      (Some 1, Some closed_connection, w', con') /\
    c_stdout con' = c_stdout con ++ shown (t1, ds1, []) /\
    c_stderr con' = c_stderr con ++ ascii prog
                    ++ ascii ": receiving answer failed (74)." ++ [char_newline] /\
    w_wire w' = w_wire w ++ command_frame l1 ++ command_frame l2 /\
    w_trace w' = w_trace w ++ [SysClose (sock c)].
Proof.
  intros Hc Hw Hl1 Hl2 Hne1 Hds1 Hval1 Hne2 Hdata.
  destruct ds2 as [|d2 ds2]; [done|].
  set (rest2 := ds2 ++ char_newline :: p2 ++ [char_newline] ++ rest).
  assert (w_rx_data w =
          header t1 ds1 ++ char_newline :: t2 :: char_colon :: d2 :: rest2) as Hdata1.
  { rewrite Hdata. unfold frame, header, rest2. simpl.
    by repeat (rewrite <- app_assoc; simpl). }
  clear Hdata.
  destruct (yak_send_message_healthy w c l1 Hc Hw Hl1)
    as (w1 & E1 & Hw1 & Hrx1 & Hwire1 & Ht1).
  rewrite <- Hrx1 in Hdata1.
  destruct (yak_recv_message_empty w1 c true true t1 ds1 _ Hc (proj1 Hw1)
              Hne1 Hds1 Hval1 Hdata1) as (sch & Hs & E2).
  set (w2 := set_rx (char_newline :: t2 :: char_colon :: d2 :: rest2) sch w1) in *.
  assert (healthy w2) as Hw2 by (destruct Hw1 as (? & ? & ?); by repeat split).
  destruct (yak_send_message_healthy w2 c l2 Hc Hw2 Hl2)
    as (w3 & E3 & Hw3 & Hrx3 & Hwire3 & Ht3).
  destruct (recv_message_info_malformed w3 char_newline t2 char_colon d2 rest2)
    as (sch2 & Hs2 & _ & E4); [apply Hw3 | by rewrite Hrx3 | by right |].
  pose proof (yak_recv_message_header_error w3 c true true _ _ _ Hc E4
                ltac:(done)) as E5.
  destruct (yak_close_frame (set_rx rest2 sch2 w3) (Some c)) as (_ & _ & _ & Hwire5).
  pose proof (yak_close_trace (set_rx rest2 sch2 w3) c Hc) as Ht5.
  cbn [main_loop]. rewrite E1. simpl negb. cbv iota. rewrite E2.
  cbn [r_status r_type r_data r_len r_conn r_world default from_option id out].
  simpl negb. cbv iota. cbv zeta. cbn [put_chars Z.to_nat].
  rewrite E3. simpl negb. cbv iota. rewrite E5.
  cbn [r_status r_type r_data r_len r_conn r_world default from_option id out].
  change (negb (EBADMSG =? 0)) with true. cbv iota.
  eexists _, _. split; [reflexivity|].
  split; [|split; [|split]].
  - simpl. destruct (strlen l1 >? 0), (strlen l2 >? 0); simpl;
      by repeat (rewrite <- app_assoc; simpl).
  - simpl. destruct (strlen l1 >? 0), (strlen l2 >? 0); simpl; reflexivity.
  - rewrite Hwire5. simpl. rewrite Hwire3. subst w2. simpl.
    by rewrite Hwire1, <- app_assoc.
  - rewrite Ht5. simpl. rewrite Ht3. subst w2. simpl. by rewrite Ht1.
Qed.

Lemma main_loop_empty_answer_witness :
  exists w' con',
    main_loop "yak" [ascii "ls"; ascii "pwd"; ascii "date"]
      (set_rx (frame "R" (ascii "0") [] ++ frame "R" (ascii "1") (ascii "/") ++ [])
         [] quiet_world)
      (Some open_connection)
      {| c_stdout := []; c_stderr := []; c_history := [] |}
    = (Some 1, Some closed_connection, w', con') /\
    c_stderr con' = ascii "yak: receiving answer failed (74)." ++ [char_newline] /\
    w_wire w' = command_frame (ascii "ls") ++ command_frame (ascii "pwd").
Proof.
  destruct (main_loop_empty_answer "yak" (ascii "ls") (ascii "pwd") [ascii "date"]
              "R" (ascii "0") "R" (ascii "1") (ascii "/") []
              (set_rx (frame "R" (ascii "0") [] ++ frame "R" (ascii "1") (ascii "/") ++ [])
                 [] quiet_world)
              open_connection
              {| c_stdout := []; c_stderr := []; c_history := [] |})
    as (w' & con' & E & _ & Herr & Hwire & _).
  - simpl. lia.
  - repeat split. constructor.
  - vm_compute. discriminate.
  - vm_compute. discriminate.
  - discriminate.
  - repeat constructor.
  - reflexivity.
  - discriminate.
  - reflexivity.
  - exists w', con'. repeat split; assumption.
Defined.
